(** * TypedText: the typing engine of typist-js (src/index.ts)

    A shallow embedding of the [TypedText] class.  The class owns a handful of
    mutable fields and talks to two collaborators: the DOM nodes it renders
    into and the host's timer facility ([setTimeout], [setInterval],
    [clearTimeout], [clearInterval]).  Both are modelled explicitly:

    - the instance is the record [TypedText];
    - the host is the record [Window]: the list of active timers and the
      next handle to hand out (handles are the positive integers 1, 2, ...
      and are never reused, as in browsers);
    - the user callbacks [onStringStart], [onStringComplete], [onComplete]
      are code of the page: an option record says which are provided and
      every call made is appended to the [calls] log of the [World].  That
      code may call the public methods of the instance: [typeText] is the
      step when it calls none, [typeText_with] and [typeTextIn] are the step
      with the calls the callbacks make.

    Methods are computations in the small monad [JS] (state passing over the
    [World], plus the abrupt completion of a thrown [TypeError], which keeps
    the mutations made before the throw, as in JavaScript).

    Numbers.  The counters [currentStringIndex] and [currentCharIndex] only
    ever hold integers and are modelled in [Z].  Durations ([typeSpeed],
    [backSpeed], the delays handed to [setTimeout]) are JavaScript numbers
    and are modelled as real numbers [R]: rounding of IEEE doubles is not
    modelled.  Strings are sequences of code units ([string]). *)

From Stdlib Require Import ZArith List String Ascii Bool Lia Reals Lra.
Import ListNotations.

Local Open Scope Z_scope.

(* ================================================================= *)
(** ** JavaScript primitives used by the class *)

(** [a ?? b] *)
Definition nullish {A : Type} (a : option A) (b : A) : A :=
  match a with Some v => v | None => b end.

(** [xs[i]] on an array: [undefined] (here [None]) outside [0 .. length-1]. *)
Definition index {A : Type} (xs : list A) (i : Z) : option A :=
  if i <? 0 then None else nth_error xs (Z.to_nat i).

(** [xs.length] *)
Definition array_length {A : Type} (xs : list A) : Z := Z.of_nat (List.length xs).

(** [s.length] *)
Definition string_length (s : string) : Z := Z.of_nat (String.length s).

(** [s.substring(0, n)]: a negative [n] counts as 0, an [n] beyond the end
    as the length. *)
Definition substring0 (s : string) (n : Z) : string :=
  String.substring 0 (Z.to_nat n) s.

(** [a < b] on numbers. *)
Definition Rltb (a b : R) : bool := if Rlt_dec a b then true else false.

(** Truthiness of a timer handle stored in a [number | null] field:
    [null] and [0] are falsy. *)
Definition truthy (h : option Z) : bool :=
  match h with Some n => negb (n =? 0) | None => false end.

(** Truthiness of a [string | undefined] value: [undefined] and [''] are
    falsy. *)
Definition truthy_string (s : option string) : bool :=
  match s with Some EmptyString => false | Some _ => true | None => false end.

(** A key of [{ ...old, ...patch }]: the patch wins when it has the key. *)
Definition spread {A : Type} (patch : option A) (old : A) : A :=
  match patch with Some v => v | None => old end.

(* ================================================================= *)
(** ** Options *)

Inductive TypeSpeedCurvature : Type := linear | bezier | exponential | sine.

Definition TypeSpeedCurvature_eqb (a b : TypeSpeedCurvature) : bool :=
  match a, b with
  | linear, linear | bezier, bezier | exponential, exponential | sine, sine => true
  | _, _ => false
  end.

(** [interface TypedTextOptions]: the constructor's argument.  A callback is
    an observer; the model records whether it is provided. *)
Module TypedTextOptions.
Record t : Type := mk {
  strings : list string;
  typeSpeed : option R;
  loop : option bool;
  typeSpeedCurvature : option TypeSpeedCurvature;
  showCursor : option bool;
  cursorChar : option string;
  backSpeed : option R;
  backDelay : option R;
  startDelay : option R;
  onComplete : bool;
  onStringComplete : bool;
  onStringStart : bool
}.
End TypedTextOptions.

(** [Partial<TypedTextOptions>]: the argument of [updateOptions]; [None] is
    an absent key.  For a callback key, [Some false] is the key present with
    the value [undefined]. *)
Module PartialOptions.
Record t : Type := mk {
  strings : option (list string);
  typeSpeed : option R;
  loop : option bool;
  typeSpeedCurvature : option TypeSpeedCurvature;
  showCursor : option bool;
  cursorChar : option string;
  backSpeed : option R;
  backDelay : option R;
  startDelay : option R;
  onComplete : option bool;
  onStringComplete : option bool;
  onStringStart : option bool
}.

(** [{}] *)
Definition empty : t := mk None None None None None None None None None None None None.
End PartialOptions.

(** The type of the private field [options]: every option resolved, the
    callbacks still optional. *)
Module Options.
Record t : Type := mk {
  strings : list string;
  typeSpeed : R;
  loop : bool;
  typeSpeedCurvature : TypeSpeedCurvature;
  showCursor : bool;
  cursorChar : string;
  backSpeed : R;
  backDelay : R;
  startDelay : R;
  onComplete : bool;
  onStringComplete : bool;
  onStringStart : bool
}.

(** The object literal of the constructor (lines 45-58). *)
Definition resolve (o : TypedTextOptions.t) : t := {|
  strings := TypedTextOptions.strings o;
  typeSpeed := nullish (TypedTextOptions.typeSpeed o) 50%R;
  loop := nullish (TypedTextOptions.loop o) false;
  typeSpeedCurvature := nullish (TypedTextOptions.typeSpeedCurvature o) sine;
  showCursor := nullish (TypedTextOptions.showCursor o) true;
  cursorChar := nullish (TypedTextOptions.cursorChar o) "|"%string;
  backSpeed := nullish (TypedTextOptions.backSpeed o) 25%R;
  backDelay := nullish (TypedTextOptions.backDelay o) 1000%R;
  startDelay := nullish (TypedTextOptions.startDelay o) 0%R;
  onComplete := TypedTextOptions.onComplete o;
  onStringComplete := TypedTextOptions.onStringComplete o;
  onStringStart := TypedTextOptions.onStringStart o
|}.

(** [{ ...this.options, ...newOptions }] (line 240). *)
Definition merge (o : t) (p : PartialOptions.t) : t := {|
  strings := spread (PartialOptions.strings p) (strings o);
  typeSpeed := spread (PartialOptions.typeSpeed p) (typeSpeed o);
  loop := spread (PartialOptions.loop p) (loop o);
  typeSpeedCurvature := spread (PartialOptions.typeSpeedCurvature p) (typeSpeedCurvature o);
  showCursor := spread (PartialOptions.showCursor p) (showCursor o);
  cursorChar := spread (PartialOptions.cursorChar p) (cursorChar o);
  backSpeed := spread (PartialOptions.backSpeed p) (backSpeed o);
  backDelay := spread (PartialOptions.backDelay p) (backDelay o);
  startDelay := spread (PartialOptions.startDelay p) (startDelay o);
  onComplete := spread (PartialOptions.onComplete p) (onComplete o);
  onStringComplete := spread (PartialOptions.onStringComplete p) (onStringComplete o);
  onStringStart := spread (PartialOptions.onStringStart p) (onStringStart o)
|}.
End Options.

(* ================================================================= *)
(** ** The instance, the host and the world *)

(** A child of the host element after [init]. *)
Inductive Child : Type := textElement | cursorElement.

(** The private fields of [class TypedText] (lines 19-34), followed by the
    part of the DOM the instance writes: the [textContent] of the text span,
    the presence of the class [hidden] on the cursor span, and the children
    of the host element. *)
Record TypedText : Type := mkTypedText {
  options : Options.t;
  displayText : string;
  currentStringIndex : Z;
  currentCharIndex : Z;
  isTyping : bool;
  showCursor : bool;
  timeoutId : option Z;
  cursorIntervalId : option Z;
  isDestroyed : bool;
  textContent : string;
  cursorHidden : bool;
  children : list Child
}.

Definition set_options v t :=
  mkTypedText v (displayText t) (currentStringIndex t) (currentCharIndex t) (isTyping t)
    (showCursor t) (timeoutId t) (cursorIntervalId t) (isDestroyed t) (textContent t)
    (cursorHidden t) (children t).
Definition set_displayText v t :=
  mkTypedText (options t) v (currentStringIndex t) (currentCharIndex t) (isTyping t)
    (showCursor t) (timeoutId t) (cursorIntervalId t) (isDestroyed t) (textContent t)
    (cursorHidden t) (children t).
Definition set_currentStringIndex v t :=
  mkTypedText (options t) (displayText t) v (currentCharIndex t) (isTyping t)
    (showCursor t) (timeoutId t) (cursorIntervalId t) (isDestroyed t) (textContent t)
    (cursorHidden t) (children t).
Definition set_currentCharIndex v t :=
  mkTypedText (options t) (displayText t) (currentStringIndex t) v (isTyping t)
    (showCursor t) (timeoutId t) (cursorIntervalId t) (isDestroyed t) (textContent t)
    (cursorHidden t) (children t).
Definition set_isTyping v t :=
  mkTypedText (options t) (displayText t) (currentStringIndex t) (currentCharIndex t) v
    (showCursor t) (timeoutId t) (cursorIntervalId t) (isDestroyed t) (textContent t)
    (cursorHidden t) (children t).
Definition set_showCursor v t :=
  mkTypedText (options t) (displayText t) (currentStringIndex t) (currentCharIndex t) (isTyping t)
    v (timeoutId t) (cursorIntervalId t) (isDestroyed t) (textContent t)
    (cursorHidden t) (children t).
Definition set_timeoutId v t :=
  mkTypedText (options t) (displayText t) (currentStringIndex t) (currentCharIndex t) (isTyping t)
    (showCursor t) v (cursorIntervalId t) (isDestroyed t) (textContent t)
    (cursorHidden t) (children t).
Definition set_cursorIntervalId v t :=
  mkTypedText (options t) (displayText t) (currentStringIndex t) (currentCharIndex t) (isTyping t)
    (showCursor t) (timeoutId t) v (isDestroyed t) (textContent t)
    (cursorHidden t) (children t).
Definition set_isDestroyed v t :=
  mkTypedText (options t) (displayText t) (currentStringIndex t) (currentCharIndex t) (isTyping t)
    (showCursor t) (timeoutId t) (cursorIntervalId t) v (textContent t)
    (cursorHidden t) (children t).
Definition set_textContent v t :=
  mkTypedText (options t) (displayText t) (currentStringIndex t) (currentCharIndex t) (isTyping t)
    (showCursor t) (timeoutId t) (cursorIntervalId t) (isDestroyed t) v
    (cursorHidden t) (children t).
Definition set_cursorHidden v t :=
  mkTypedText (options t) (displayText t) (currentStringIndex t) (currentCharIndex t) (isTyping t)
    (showCursor t) (timeoutId t) (cursorIntervalId t) (isDestroyed t) (textContent t)
    v (children t).
Definition set_children v t :=
  mkTypedText (options t) (displayText t) (currentStringIndex t) (currentCharIndex t) (isTyping t)
    (showCursor t) (timeoutId t) (cursorIntervalId t) (isDestroyed t) (textContent t)
    (cursorHidden t) v.

(** The two closures the class hands to the host: [() => this.typeText()]
    (lines 87, 184, 188, 195, 209) and the cursor toggle (lines 149-155). *)
Inductive Callback : Type := StepCallback | BlinkCallback.

(** An active timer of the host: [repeating] for [setInterval]. *)
Record Timer : Type := mkTimer {
  handle : Z;
  callback : Callback;
  delay : R;
  repeating : bool
}.

Record Window : Type := mkWindow {
  nextHandle : Z;
  timers : list Timer
}.

(** A page that has not set any timer yet. *)
Definition newWindow : Window := mkWindow 1 [].

(** A call made to a user callback. *)
Inductive Event : Type :=
| StringStart (stringIndex : Z)
| StringComplete (stringIndex : Z)
| Complete.

Record World : Type := mkWorld {
  this : TypedText;
  window : Window;
  calls : list Event
}.

(* ================================================================= *)
(** ** The monad of method bodies *)

Inductive Completion (A : Type) : Type :=
| Normal (a : A) (w : World)
| Abrupt (w : World).
Arguments Normal {A} a w.
Arguments Abrupt {A} w.

Definition JS (A : Type) : Type := World -> Completion A.

Definition ret {A : Type} (a : A) : JS A := fun w => Normal a w.

Definition bind {A B : Type} (c : JS A) (k : A -> JS B) : JS B :=
  fun w => match c w with
           | Normal a w' => k a w'
           | Abrupt w' => Abrupt w'
           end.

Declare Scope js_scope.
Delimit Scope js_scope with js.
Notation "x <- c ;; k" := (bind c (fun x => k))
  (at level 61, c at next level, right associativity) : js_scope.
Notation "c ;; k" := (bind c (fun _ => k))
  (at level 61, right associativity) : js_scope.
Local Open Scope js_scope.

(** The world a computation leaves behind, however it completes. *)
Definition world_of {A : Type} (r : Completion A) : World :=
  match r with Normal _ w => w | Abrupt w => w end.

Definition get_this : JS TypedText := fun w => Normal (this w) w.

Definition update (f : TypedText -> TypedText) : JS unit :=
  fun w => Normal tt (mkWorld (f (this w)) (window w) (calls w)).

(** Reading a property of [undefined] throws a [TypeError]. *)
Definition deref {A : Type} (v : option A) : JS A :=
  fun w => match v with Some a => Normal a w | None => Abrupt w end.

(** [cb?.(...)] for a callback whose code calls no method of the
    instance: the call is made when the callback is provided.  Callbacks
    that call the instance are the matter of [typeText_with] below. *)
Definition notify (provided : bool) (e : Event) : JS unit :=
  fun w => Normal tt (if provided then mkWorld (this w) (window w) (calls w ++ [e]) else w).

Definition add_timer (cb : Callback) (d : R) (rep : bool) : JS Z :=
  fun w =>
    let h := nextHandle (window w) in
    Normal h (mkWorld (this w)
                (mkWindow (h + 1) (timers (window w) ++ [mkTimer h cb d rep]))
                (calls w)).

Definition setTimeout (cb : Callback) (d : R) : JS Z := add_timer cb d false.
Definition setInterval (cb : Callback) (d : R) : JS Z := add_timer cb d true.

(** [clearTimeout] and [clearInterval] work on the same list of active
    timers; clearing a handle that is not active does nothing. *)
Definition clearTimeout (h : Z) : JS unit :=
  fun w => Normal tt (mkWorld (this w)
                        (mkWindow (nextHandle (window w))
                           (filter (fun t => negb (handle t =? h)) (timers (window w))))
                        (calls w)).
Definition clearInterval (h : Z) : JS unit := clearTimeout h.

(* ================================================================= *)
(** ** Private methods (lines 63-212) *)

Local Open Scope R_scope.

(** [getSpeedMultiplier] (lines 111-130).  The [default] arm of the
    [switch] is unreachable for a value of the type [TypeSpeedCurvature]. *)
Definition getSpeedMultiplier (progress : R) (curvature : TypeSpeedCurvature) : R :=
  match curvature with
  | linear => 1
  | bezier =>
      if Rltb progress 0.5
      then 4 * progress * progress * progress
      else 1 - (-2 * progress + 2) ^ 3 / 2
  | exponential => progress ^ 3
  | sine => (sin (progress * PI - PI / 2) + 1) / 2
  end.

(** [getCurrentTypeSpeed] (lines 132-144). *)
Definition getCurrentTypeSpeed (t : TypedText) : R :=
  if TypeSpeedCurvature_eqb (Options.typeSpeedCurvature (options t)) linear
  then Options.typeSpeed (options t)
  else
    let currentString := index (Options.strings (options t)) (currentStringIndex t) in
    if negb (truthy_string currentString)
    then Options.typeSpeed (options t)
    else
      let progress :=
        IZR (currentCharIndex t) / IZR (string_length (nullish currentString EmptyString)) in
      let multiplier := getSpeedMultiplier progress (Options.typeSpeedCurvature (options t)) in
      Options.typeSpeed (options t) * (3 - 2 * multiplier).

Local Close Scope R_scope.

(** The body of the closure handed to [setInterval] (lines 150-154). *)
Definition cursorTick : JS unit :=
  t <- get_this ;;
  if isDestroyed t then ret tt
  else
    update (fun t => set_showCursor (negb (showCursor t)) t) ;;
    update (fun t => set_cursorHidden (negb (showCursor t)) t).

(** [startCursorBlink] (lines 146-156). *)
Definition startCursorBlink : JS unit :=
  t <- get_this ;;
  if negb (Options.showCursor (options t)) || isDestroyed t then ret tt
  else
    h <- setInterval BlinkCallback 530%R ;;
    update (set_cursorIntervalId (Some h)).

(** [stopCursorBlink] (lines 158-167). *)
Definition stopCursorBlink : JS unit :=
  t <- get_this ;;
  (if truthy (cursorIntervalId t)
   then clearInterval (nullish (cursorIntervalId t) 0) ;;
        update (set_cursorIntervalId None)
   else ret tt) ;;
  update (set_showCursor true) ;;
  update (set_cursorHidden false).

(** [typeText] (lines 169-212): one step of the animation.  The two reads
    of a property of [currentString] ([length] at line 179, [substring] at
    line 193) throw when the current index is outside the array. *)
Definition typeText : JS unit :=
  t <- get_this ;;
  if (array_length (Options.strings (options t)) =? 0) || isDestroyed t then ret tt
  else
    let currentString := index (Options.strings (options t)) (currentStringIndex t) in
    if isTyping t then
      (if currentCharIndex t =? 0
       then notify (Options.onStringStart (options t)) (StringStart (currentStringIndex t))
       else ret tt) ;;
      s <- deref currentString ;;
      if currentCharIndex t <? string_length s then
        update (set_displayText (substring0 s (currentCharIndex t + 1))) ;;
        update (fun t => set_textContent (displayText t) t) ;;
        update (fun t => set_currentCharIndex (currentCharIndex t + 1) t) ;;
        t' <- get_this ;;
        let currentSpeed := getCurrentTypeSpeed t' in
        h <- setTimeout StepCallback currentSpeed ;;
        update (set_timeoutId (Some h))
      else
        notify (Options.onStringComplete (options t)) (StringComplete (currentStringIndex t)) ;;
        update (set_isTyping false) ;;
        h <- setTimeout StepCallback (Options.backDelay (options t)) ;;
        update (set_timeoutId (Some h))
    else
      if currentCharIndex t >? 0 then
        update (fun t => set_currentCharIndex (currentCharIndex t - 1) t) ;;
        s <- deref currentString ;;
        update (fun t => set_displayText (substring0 s (currentCharIndex t)) t) ;;
        update (fun t => set_textContent (displayText t) t) ;;
        h <- setTimeout StepCallback (Options.backSpeed (options t)) ;;
        update (set_timeoutId (Some h))
      else
        update (fun t => set_currentStringIndex (currentStringIndex t + 1) t) ;;
        t' <- get_this ;;
        goOn <- (if currentStringIndex t' >=? array_length (Options.strings (options t'))
                 then if Options.loop (options t')
                      then update (set_currentStringIndex 0) ;; ret true
                      else notify (Options.onComplete (options t')) Complete ;; ret false
                 else ret true) ;;
        if goOn : bool then
          update (set_isTyping true) ;;
          h <- setTimeout StepCallback 500%R ;;
          update (set_timeoutId (Some h))
        else ret tt.

(** [init] (lines 63-92).  The style sheet added to [document.head] by
    [addStyles] is not part of the model. *)
Definition init : JS unit :=
  t <- get_this ;;
  if isDestroyed t then ret tt
  else
    update (set_children []) ;;
    update (fun t => set_children (children t ++ [textElement]) t) ;;
    (if Options.showCursor (options t)
     then update (fun t => set_children (children t ++ [cursorElement]) t)
     else ret tt) ;;
    startCursorBlink ;;
    if array_length (Options.strings (options t)) >? 0 then
      if Rltb 0 (Options.startDelay (options t))
      then _ <- setTimeout StepCallback (Options.startDelay (options t)) ;; ret tt
      else typeText
    else ret tt.

(* ================================================================= *)
(** ** Constructor and public methods (lines 36-61, 214-265) *)

(** The first argument of the constructor: a node, or a selector that
    [document.querySelector] resolves or not. *)
Inductive ElementArg : Type := Node | Selector (found : bool).

(** The field initialisers of the class (lines 25-34) around the resolved
    options.  The spans are created in [init]; before that their content is
    empty. *)
Definition fresh (o : Options.t) : TypedText := {|
  options := o;
  displayText := EmptyString;
  currentStringIndex := 0;
  currentCharIndex := 0;
  isTyping := true;
  showCursor := true;
  timeoutId := None;
  cursorIntervalId := None;
  isDestroyed := false;
  textContent := EmptyString;
  cursorHidden := false;
  children := []
|}.

(** [new TypedText(element, options)] in the page [win]: [None] when the
    constructor throws, in which case the caller gets no instance. *)
Definition constructor (element : ElementArg) (o : TypedTextOptions.t) (win : Window)
  : option World :=
  match element with
  | Selector false => None
  | _ =>
      match init (mkWorld (fresh (Options.resolve o)) win []) with
      | Normal _ w => Some w
      | Abrupt _ => None
      end
  end.

(** [start] (lines 214-220). *)
Definition start : JS unit :=
  t <- get_this ;;
  if isDestroyed t then ret tt
  else
    update (set_currentStringIndex 0) ;;
    update (set_currentCharIndex 0) ;;
    update (set_isTyping true) ;;
    typeText.

(** [stop] (lines 222-227). *)
Definition stop : JS unit :=
  t <- get_this ;;
  if truthy (timeoutId t)
  then clearTimeout (nullish (timeoutId t) 0) ;;
       update (set_timeoutId None)
  else ret tt.

(** [destroy] (lines 229-236). *)
Definition destroy : JS unit :=
  update (set_isDestroyed true) ;;
  stop ;;
  stopCursorBlink ;;
  update (set_children []).

(** [updateOptions] (lines 238-241). *)
Definition updateOptions (newOptions : PartialOptions.t) : JS unit :=
  t <- get_this ;;
  if isDestroyed t then ret tt
  else update (fun t => set_options (Options.merge (options t) newOptions) t).

(** [reset] (lines 243-253). *)
Definition reset : JS unit :=
  t <- get_this ;;
  if isDestroyed t then ret tt
  else
    stop ;;
    update (set_currentStringIndex 0) ;;
    update (set_currentCharIndex 0) ;;
    update (set_isTyping true) ;;
    update (set_displayText EmptyString) ;;
    update (set_textContent EmptyString).

(** [getCurrentString] (lines 255-257): ['' ] when the index is outside the
    array ([undefined || ''], and [''] is falsy too). *)
Definition getCurrentString (t : TypedText) : string :=
  nullish (index (Options.strings (options t)) (currentStringIndex t)) EmptyString.

(** [getCurrentStringIndex] (lines 259-261). *)
Definition getCurrentStringIndex (t : TypedText) : Z := currentStringIndex t.

(** [isRunning] (lines 263-265). *)
Definition isRunning (t : TypedText) : bool :=
  match timeoutId t with Some _ => true | None => false end.

(* ================================================================= *)
(** ** The host's event loop and the histories of an instance *)

Definition find_timer (h : Z) (w : World) : option Timer :=
  find (fun t => handle t =? h) (timers (window w)).

Definition run_callback (cb : Callback) : JS unit :=
  match cb with
  | StepCallback => typeText
  | BlinkCallback => cursorTick
  end.

(** The host runs the callback of the active timer [h].  A timer set by
    [setTimeout] leaves the list of active timers; one set by [setInterval]
    stays.  An exception thrown by the callback is reported by the host and
    goes no further.  A handle that is not active fires nothing. *)
Definition fire (h : Z) (w : World) : World :=
  match find_timer h w with
  | None => w
  | Some t =>
      let w1 := if repeating t then w else world_of (clearTimeout h w) in
      world_of (run_callback (callback t) w1)
  end.

(** What can happen to an instance after its construction: the host fires
    one of the active timers, or the page calls a public method. *)
Inductive Action : Type :=
| Fire (h : Z)
| Start
| Stop
| Reset
| Destroy
| UpdateOptions (newOptions : PartialOptions.t).

Definition perform (a : Action) (w : World) : World :=
  match a with
  | Fire h => fire h w
  | Start => world_of (start w)
  | Stop => world_of (stop w)
  | Reset => world_of (reset w)
  | Destroy => world_of (destroy w)
  | UpdateOptions p => world_of (updateOptions p w)
  end.

Definition run (acts : list Action) (w : World) : World :=
  fold_left (fun w a => perform a w) acts w.

(** The worlds an instance can be in: built by the constructor in a fresh
    page, then driven by any sequence of actions (timers may fire in any
    order, which covers every order the host can choose). *)
Inductive reachable : World -> Prop :=
| reachable_new : forall element o w,
    constructor element o newWindow = Some w -> reachable w
| reachable_perform : forall a w,
    reachable w -> reachable (perform a w).

(** The active timers that will run [typeText]. *)
Definition pendingSteps (w : World) : list Z :=
  map handle (filter (fun t => match callback t with StepCallback => true | _ => false end)
                (timers (window w))).

(* ================================================================= *)
(** ** User callbacks that call the instance *)

(** The code of a user callback runs inside the step (lines 176, 186 and
    203) and can hold a reference to the instance, so it can call the public
    methods before the step goes on.  [notify] above is a callback whose code
    calls none of them; the definitions below take the code of the callbacks
    into account. *)
Inductive Call : Type :=
| CallStart
| CallStop
| CallReset
| CallDestroy
| CallUpdateOptions (newOptions : PartialOptions.t).

(** What the callbacks of the page do to the instance: the methods they
    call, in order, which the page may choose from the callback invoked, its
    argument, and anything it has seen so far. *)
Definition Page : Type := Event -> World -> list Call.

(** A page whose callbacks call no method of the instance. *)
Definition passive (page : Page) : Prop := forall e w, page e w = [].

(** [cb?.(...)] with the code of the callback: the call is made when the
    callback is provided, and its code runs before the caller goes on. *)
Definition call_back (invoke : Event -> JS unit) (provided : bool) (e : Event) : JS unit :=
  if provided then notify true e ;; invoke e else ret tt.

(** [typeText] (lines 169-212) with the code of the callbacks.
    [currentString] is read once, at line 172; the fields are read again
    where the lines after a callback use them. *)
Definition typeText_with (invoke : Event -> JS unit) : JS unit :=
  t <- get_this ;;
  if (array_length (Options.strings (options t)) =? 0) || isDestroyed t then ret tt
  else
    let currentString := index (Options.strings (options t)) (currentStringIndex t) in
    if isTyping t then
      (if currentCharIndex t =? 0
       then call_back invoke (Options.onStringStart (options t))
              (StringStart (currentStringIndex t))
       else ret tt) ;;
      t1 <- get_this ;;
      s <- deref currentString ;;
      if currentCharIndex t1 <? string_length s then
        update (fun t => set_displayText (substring0 s (currentCharIndex t + 1)) t) ;;
        update (fun t => set_textContent (displayText t) t) ;;
        update (fun t => set_currentCharIndex (currentCharIndex t + 1) t) ;;
        t' <- get_this ;;
        let currentSpeed := getCurrentTypeSpeed t' in
        h <- setTimeout StepCallback currentSpeed ;;
        update (set_timeoutId (Some h))
      else
        call_back invoke (Options.onStringComplete (options t1))
          (StringComplete (currentStringIndex t1)) ;;
        update (set_isTyping false) ;;
        t2 <- get_this ;;
        h <- setTimeout StepCallback (Options.backDelay (options t2)) ;;
        update (set_timeoutId (Some h))
    else
      if currentCharIndex t >? 0 then
        update (fun t => set_currentCharIndex (currentCharIndex t - 1) t) ;;
        s <- deref currentString ;;
        update (fun t => set_displayText (substring0 s (currentCharIndex t)) t) ;;
        update (fun t => set_textContent (displayText t) t) ;;
        h <- setTimeout StepCallback (Options.backSpeed (options t)) ;;
        update (set_timeoutId (Some h))
      else
        update (fun t => set_currentStringIndex (currentStringIndex t + 1) t) ;;
        t' <- get_this ;;
        goOn <- (if currentStringIndex t' >=? array_length (Options.strings (options t'))
                 then if Options.loop (options t')
                      then update (set_currentStringIndex 0) ;; ret true
                      else call_back invoke (Options.onComplete (options t')) Complete ;;
                           ret false
                 else ret true) ;;
        if goOn : bool then
          update (set_isTyping true) ;;
          h <- setTimeout StepCallback 500%R ;;
          update (set_timeoutId (Some h))
        else ret tt.

(** [start] (lines 214-220) with the step it runs. *)
Definition start_with (step : JS unit) : JS unit :=
  t <- get_this ;;
  if isDestroyed t then ret tt
  else
    update (set_currentStringIndex 0) ;;
    update (set_currentCharIndex 0) ;;
    update (set_isTyping true) ;;
    step.

(** A method called by the code of a callback. *)
Definition run_call (step : JS unit) (c : Call) : JS unit :=
  match c with
  | CallStart => start_with step
  | CallStop => stop
  | CallReset => reset
  | CallDestroy => destroy
  | CallUpdateOptions p => updateOptions p
  end.

Fixpoint run_calls (step : JS unit) (cs : list Call) : JS unit :=
  match cs with
  | [] => ret tt
  | c :: cs' => run_call step c ;; run_calls step cs'
  end.

(** The host's call stack is exhausted: a [RangeError] is thrown. *)
Definition stack_overflow : JS unit := fun w => Abrupt w.

(** One step on a page: a callback runs the calls of the page, and a
    [start()] among them runs a step of its own, inside this one.  [depth]
    is the number of steps inside steps the host's stack has room for. *)
Fixpoint typeTextIn (page : Page) (depth : nat) {struct depth} : JS unit :=
  typeText_with
    (fun e w =>
       run_calls
         match depth with
         | O => stack_overflow
         | S d => typeTextIn page d
         end
         (page e w) w).

Definition startIn (page : Page) (depth : nat) : JS unit :=
  start_with (typeTextIn page depth).

Definition run_callbackIn (page : Page) (depth : nat) (cb : Callback) : JS unit :=
  match cb with
  | StepCallback => typeTextIn page depth
  | BlinkCallback => cursorTick
  end.

(** [fire], [perform] and [run] on a page.  The instance itself comes from
    [constructor]: while the constructor runs no reference to the instance
    exists, so the code of a callback called then either throws, and there is
    no instance, or leaves the instance alone. *)
Definition fireIn (page : Page) (depth : nat) (h : Z) (w : World) : World :=
  match find_timer h w with
  | None => w
  | Some t =>
      let w1 := if repeating t then w else world_of (clearTimeout h w) in
      world_of (run_callbackIn page depth (callback t) w1)
  end.

Definition performIn (page : Page) (depth : nat) (a : Action) (w : World) : World :=
  match a with
  | Fire h => fireIn page depth h w
  | Start => world_of (startIn page depth w)
  | Stop => world_of (stop w)
  | Reset => world_of (reset w)
  | Destroy => world_of (destroy w)
  | UpdateOptions p => world_of (updateOptions p w)
  end.

Definition runIn (page : Page) (depth : nat) (acts : list Action) (w : World) : World :=
  fold_left (fun w a => performIn page depth a w) acts w.

(* ================================================================= *)
(** ** Vocabulary of the properties *)

(** The world after [this.timeoutId = window.setTimeout(() => this.typeText(), d)]. *)
Definition schedule_step (d : R) (w : World) : World :=
  let h := nextHandle (window w) in
  mkWorld (set_timeoutId (Some h) (this w))
    (mkWindow (h + 1) (timers (window w) ++ [mkTimer h StepCallback d false]))
    (calls w).

(** The world after a change of the instance alone. *)
Definition with_this (f : TypedText -> TypedText) (w : World) : World :=
  mkWorld (f (this w)) (window w) (calls w).

(** The world after the calls [es] to user callbacks. *)
Definition with_calls (es : list Event) (w : World) : World :=
  mkWorld (this w) (window w) (calls w ++ es).

(** The call made by [cb?.(...)], if any. *)
Definition call_if (provided : bool) (e : Event) : list Event :=
  if provided then [e] else [].

(** [init] with the test [this.options.startDelay > 0] taken as given. *)
Definition init_choice (delayed : bool) : JS unit :=
  t <- get_this ;;
  if isDestroyed t then ret tt
  else
    update (set_children []) ;;
    update (fun t => set_children (children t ++ [textElement]) t) ;;
    (if Options.showCursor (options t)
     then update (fun t => set_children (children t ++ [cursorElement]) t)
     else ret tt) ;;
    startCursorBlink ;;
    if array_length (Options.strings (options t)) >? 0 then
      if delayed
      then _ <- setTimeout StepCallback (Options.startDelay (options t)) ;; ret tt
      else typeText
    else ret tt.

(** The host hands out fresh handles: positive, and above every handle in
    use. *)
Definition window_ok (win : Window) : Prop :=
  0 < nextHandle win /\ Forall (fun t => 0 < handle t < nextHandle win) (timers win).

(** The bound the data model states for [currentCharIndex], the current
    string being [''] when [currentStringIndex] is outside the array (as
    [getCurrentString] has it). *)
Definition charIndexInBounds (t : TypedText) : Prop :=
  0 <= currentCharIndex t <= string_length (getCurrentString t).

(** An action that leaves the array of strings alone. *)
Definition keeps_strings (a : Action) : Prop :=
  match a with
  | UpdateOptions p => PartialOptions.strings p = None
  | _ => True
  end.

(** The host fires the step the instance is waiting for. *)
Definition tick (w : World) : World :=
  match timeoutId (this w) with
  | Some h => fire h w
  | None => w
  end.

(** Options with the given strings, every other option left to its default
    and every callback provided. *)
Definition defaults (ss : list string) : TypedTextOptions.t :=
  TypedTextOptions.mk ss None None None None None None None None true true true.

(** The scenario of the specification: [strings = ["Hi"]], [typeSpeed = 100],
    linear curve, [backSpeed = 50], [backDelay = 200]. *)
Definition scenario_Hi : TypedTextOptions.t :=
  TypedTextOptions.mk ["Hi"%string] (Some 100%R) None (Some linear) None None
    (Some 50%R) (Some 200%R) None true true true.

(** The instance of [scenario_Hi] in the middle of its work, as the host
    starts to run the step with handle 3: [typed] characters shown, typing
    or backspacing. *)
Definition Hi_world (typed : Z) (typing : bool) : World :=
  mkWorld
    (mkTypedText (Options.resolve scenario_Hi) (substring0 "Hi" typed) 0 typed typing
       true (Some 3) (Some 1) false (substring0 "Hi" typed) false
       [textElement; cursorElement])
    (mkWindow 4 [mkTimer 1 BlinkCallback 530%R true])
    [StringStart 0].

(** [new TypedText(node, o)] in a fresh page when no start delay is
    configured: the first step runs inside the constructor. *)
Definition construct_now (o : TypedTextOptions.t) : World :=
  world_of (init_choice false (mkWorld (fresh (Options.resolve o)) newWindow [])).

(** [new TypedText(node, o)] in a fresh page when a start delay is
    configured: the first step is left to the host. *)
Definition construct_delayed (o : TypedTextOptions.t) : World :=
  world_of (init_choice true (mkWorld (fresh (Options.resolve o)) newWindow [])).

(** [{ strings: ss }] as an argument of [updateOptions]. *)
Definition only_strings (ss : list string) : PartialOptions.t :=
  PartialOptions.mk (Some ss) None None None None None None None None None None None.

(** [{ typeSpeed: d }] as an argument of [updateOptions]. *)
Definition only_typeSpeed (d : R) : PartialOptions.t :=
  PartialOptions.mk None (Some d) None None None None None None None None None None.

(** [{ strings: ["a"], startDelay: 100 }], every callback provided. *)
Definition delayed_a : TypedTextOptions.t :=
  TypedTextOptions.mk ["a"%string] None None None None None None None (Some 100%R)
    true true true.

(** The state [destroy] leaves the instance in. *)
Definition torn_down (t : TypedText) : Prop :=
  isDestroyed t = true /\
  truthy (timeoutId t) = false /\
  truthy (cursorIntervalId t) = false /\
  showCursor t = true /\
  cursorHidden t = false /\
  children t = [].

(** The world in which the step scheduled last by [schedule_step] has
    just been taken off the list of active timers to run. *)
Definition step_running (w : World) : World :=
  let h := nextHandle (window w) in
  mkWorld (set_timeoutId (Some h) (this w))
    (mkWindow (h + 1) (timers (window w)))
    (calls w).

(** The instance waits for a step that the host has on its list. *)
Definition awaiting_step (w : World) : Prop :=
  exists h d,
    timeoutId (this w) = Some h /\
    find_timer h w = Some (mkTimer h StepCallback d false).

(** A looping instance at work: not destroyed, [loop] set, the current
    index inside the array, the character index within the current string. *)
Definition live (t : TypedText) : Prop :=
  isDestroyed t = false /\
  Options.loop (options t) = true /\
  0 <= currentStringIndex t < array_length (Options.strings (options t)) /\
  charIndexInBounds t.

Definition looping (w : World) : Prop :=
  live (this w) /\ window_ok (window w) /\ awaiting_step w.

(** The start of a pass over the strings. *)
Definition cycle_start (t : TypedText) : Prop :=
  currentStringIndex t = 0 /\ currentCharIndex t = 0 /\ isTyping t = true.

(** The number of steps a string takes: one per character typed, the
    completion, one per character erased, the move to the next string. *)
Definition string_cost (s : string) : Z := 2 * string_length s + 2.

Definition strings_cost (ss : list string) : Z :=
  fold_right (fun s acc => string_cost s + acc) 0 ss.

(** The number of steps left before the instance is back at the start of
    a pass. *)
Definition remaining (t : TypedText) : Z :=
  (if isTyping t
   then string_cost (getCurrentString t) - currentCharIndex t
   else currentCharIndex t + 1)
  + strings_cost (skipn (Z.to_nat (currentStringIndex t + 1)) (Options.strings (options t))).

(** [{ strings: ["a", "b"], loop: true }], every callback provided. *)
Definition looping_ab : TypedTextOptions.t :=
  TypedTextOptions.mk ["a"%string; "b"%string] None (Some true) None None None None None None
    true true true.

(** The instance of [looping_ab] when "b" has been typed and erased and the
    step 8 is awaited. *)
Definition ab_erased : World :=
  mkWorld
    (mkTypedText (Options.resolve looping_ab) EmptyString 1 0 false
       true (Some 8) (Some 1) false EmptyString false [textElement; cursorElement])
    (mkWindow 9 [mkTimer 1 BlinkCallback 530%R true; mkTimer 8 StepCallback 25%R false])
    [StringStart 0; StringComplete 0; StringStart 1; StringComplete 1].

(** The instance of [{ strings: ["", "x"] }] as [init] hands it to the
    first step. *)
Definition before_empty : World :=
  mkWorld
    (mkTypedText (Options.resolve (defaults [EmptyString; "x"%string])) EmptyString 0 0 true
       true None (Some 1) false EmptyString false [textElement; cursorElement])
    (mkWindow 2 [mkTimer 1 BlinkCallback 530%R true])
    [].

(** Proof steps shared by the lemmas on method bodies: unfold the methods
    down to the monad, and split on every condition met. *)
Ltac js_unfold :=
  unfold destroy, reset, start, updateOptions, init, init_choice,
    stop, startCursorBlink, stopCursorBlink, typeText, cursorTick,
    setTimeout, setInterval, clearInterval, clearTimeout, add_timer,
    notify, deref, update, get_this, bind, ret.

Ltac split_ifs :=
  repeat match goal with
         | |- context [if ?b then _ else _] => destruct b eqn:?
         | |- context [match ?o with Some _ => _ | None => _ end] => destruct o eqn:?
         end.

(** ** Vocabulary of the supplements *)

(** The call [typeText] makes on entering a string, if any (lines 175-177). *)
Definition start_calls (w : World) : list Event :=
  if currentCharIndex (this w) =? 0
  then call_if (Options.onStringStart (options (this w)))
         (StringStart (currentStringIndex (this w)))
  else [].

(** Every way a step can go, with the world it leaves. *)
Inductive StepCase (w : World) : Prop :=
| step_idle :
    Options.strings (options (this w)) = [] \/ isDestroyed (this w) = true ->
    typeText w = Normal tt w ->
    StepCase w
| step_typing_throws :
    array_length (Options.strings (options (this w))) <> 0 ->
    isDestroyed (this w) = false ->
    isTyping (this w) = true ->
    index (Options.strings (options (this w))) (currentStringIndex (this w)) = None ->
    typeText w = Abrupt (with_calls (start_calls w) w) ->
    StepCase w
| step_types : forall s,
    array_length (Options.strings (options (this w))) <> 0 ->
    isDestroyed (this w) = false ->
    isTyping (this w) = true ->
    index (Options.strings (options (this w))) (currentStringIndex (this w)) = Some s ->
    currentCharIndex (this w) < string_length s ->
    typeText w =
      Normal tt
        (let w1 := with_calls (start_calls w) w in
         let shown := substring0 s (currentCharIndex (this w) + 1) in
         let w2 := with_this (fun t => set_currentCharIndex (currentCharIndex t + 1)
                                         (set_textContent shown (set_displayText shown t))) w1 in
         schedule_step (getCurrentTypeSpeed (this w2)) w2) ->
    StepCase w
| step_string_complete : forall s,
    array_length (Options.strings (options (this w))) <> 0 ->
    isDestroyed (this w) = false ->
    isTyping (this w) = true ->
    index (Options.strings (options (this w))) (currentStringIndex (this w)) = Some s ->
    string_length s <= currentCharIndex (this w) ->
    typeText w =
      Normal tt
        (schedule_step (Options.backDelay (options (this w)))
           (with_this (set_isTyping false)
              (with_calls
                 (start_calls w
                  ++ call_if (Options.onStringComplete (options (this w)))
                       (StringComplete (currentStringIndex (this w))))
                 w))) ->
    StepCase w
| step_backspacing_throws :
    array_length (Options.strings (options (this w))) <> 0 ->
    isDestroyed (this w) = false ->
    isTyping (this w) = false ->
    index (Options.strings (options (this w))) (currentStringIndex (this w)) = None ->
    currentCharIndex (this w) > 0 ->
    typeText w =
      Abrupt (with_this (fun t => set_currentCharIndex (currentCharIndex t - 1) t) w) ->
    StepCase w
| step_backspaces : forall s,
    array_length (Options.strings (options (this w))) <> 0 ->
    isDestroyed (this w) = false ->
    isTyping (this w) = false ->
    index (Options.strings (options (this w))) (currentStringIndex (this w)) = Some s ->
    currentCharIndex (this w) > 0 ->
    typeText w =
      Normal tt
        (let shown := substring0 s (currentCharIndex (this w) - 1) in
         schedule_step (Options.backSpeed (options (this w)))
           (with_this (fun t => set_textContent shown
                                  (set_displayText shown
                                     (set_currentCharIndex (currentCharIndex t - 1) t))) w)) ->
    StepCase w
| step_next_string :
    array_length (Options.strings (options (this w))) <> 0 ->
    isDestroyed (this w) = false ->
    isTyping (this w) = false ->
    currentCharIndex (this w) <= 0 ->
    currentStringIndex (this w) + 1 < array_length (Options.strings (options (this w))) ->
    typeText w =
      Normal tt
        (schedule_step 500%R
           (with_this (fun t => set_isTyping true
                                  (set_currentStringIndex (currentStringIndex t + 1) t)) w)) ->
    StepCase w
| step_wraps :
    array_length (Options.strings (options (this w))) <> 0 ->
    isDestroyed (this w) = false ->
    isTyping (this w) = false ->
    currentCharIndex (this w) <= 0 ->
    array_length (Options.strings (options (this w))) <= currentStringIndex (this w) + 1 ->
    Options.loop (options (this w)) = true ->
    typeText w =
      Normal tt
        (schedule_step 500%R
           (with_this (fun t => set_isTyping true (set_currentStringIndex 0 t)) w)) ->
    StepCase w
| step_completes :
    array_length (Options.strings (options (this w))) <> 0 ->
    isDestroyed (this w) = false ->
    isTyping (this w) = false ->
    currentCharIndex (this w) <= 0 ->
    array_length (Options.strings (options (this w))) <= currentStringIndex (this w) + 1 ->
    Options.loop (options (this w)) = false ->
    typeText w =
      Normal tt
        (with_calls (call_if (Options.onComplete (options (this w))) Complete)
           (with_this (fun t => set_currentStringIndex (currentStringIndex t + 1) t) w)) ->
    StepCase w.

(** The active timers that will toggle the cursor. *)
Definition pendingBlinks (w : World) : list Z :=
  map handle (filter (fun t => match callback t with BlinkCallback => true | _ => false end)
                (timers (window w))).

(** The two kinds of timers the class sets: a step runs once, the cursor
    toggle repeats. *)
Definition kind_ok (t : Timer) : Prop :=
  repeating t = match callback t with StepCallback => false | BlinkCallback => true end.

(** The instance knows the step that is pending, if any. *)
Definition tracked (w : World) : Prop :=
  pendingSteps w = [] \/
  exists h, pendingSteps w = [h] /\ timeoutId (this w) = Some h.

(** The instance knows the cursor timer that is active, if any. *)
Definition blink_tracked (w : World) : Prop :=
  pendingBlinks w = [] \/
  exists h, pendingBlinks w = [h] /\ cursorIntervalId (this w) = Some h.

(** A history in which the page never calls [start()]. *)
Definition no_start (a : Action) : Prop :=
  match a with Start => False | _ => True end.

(** The text span shows the first [currentCharIndex] characters of the
    current string. *)
Definition shows_prefix (t : TypedText) : Prop :=
  textContent t = substring0 (getCurrentString t) (currentCharIndex t).

(** The fields [start] and [reset] put back to their initial values. *)
Definition rewind (t : TypedText) : TypedText :=
  set_isTyping true (set_currentCharIndex 0 (set_currentStringIndex 0 t)).

(** The DOM the instance writes agrees with its fields: the text span
    shows [displayText], the cursor span is hidden exactly when [showCursor]
    is off. *)
Definition mirrors (t : TypedText) : Prop :=
  textContent t = displayText t /\ cursorHidden t = negb (showCursor t).

(** An action that is neither [start()] nor a replacement of the strings. *)
Definition steady (a : Action) : Prop := no_start a /\ keeps_strings a.

(** The handle in [timeoutId] is a real one and is not the cursor timer's. *)
Definition step_handle_ok (w : World) : Prop :=
  forall h, timeoutId (this w) = Some h ->
            0 < h < nextHandle (window w) /\ ~ In h (pendingBlinks w).

(** An instance at work on one of its strings. *)
Definition active (t : TypedText) : Prop :=
  isDestroyed t = false /\
  0 <= currentStringIndex t < array_length (Options.strings (options t)) /\
  charIndexInBounds t.

(** Exactly one step is pending, and it is the one the instance waits for. *)
Definition sole_step (w : World) : Prop :=
  exists h d,
    timeoutId (this w) = Some h /\
    find_timer h w = Some (mkTimer h StepCallback d false) /\
    pendingSteps w = [h].

(** An animation under way and undisturbed. *)
Definition on_course (w : World) : Prop :=
  active (this w) /\ window_ok (window w) /\ sole_step w.

(** An action that does not switch [loop] off. *)
Definition keeps_loop (a : Action) : Prop :=
  match a with
  | UpdateOptions p => PartialOptions.loop p <> Some false
  | _ => True
  end.

(** An instance with nothing to type and nothing typed. *)
Definition at_rest (w : World) : Prop :=
  Options.strings (options (this w)) = [] /\
  pendingSteps w = [] /\
  calls w = [] /\
  textContent (this w) = EmptyString /\
  timeoutId (this w) = None.

(** The calls made for the string [i]: on entering it and on completing it. *)
Definition string_calls (o : Options.t) (i : Z) : list Event :=
  call_if (Options.onStringStart o) (StringStart i)
  ++ call_if (Options.onStringComplete o) (StringComplete i).

(** The calls made for the first [n] strings, in order. *)
Definition pass_calls (o : Options.t) (n : nat) : list Event :=
  flat_map (fun i => string_calls o (Z.of_nat i)) (seq 0 n).

(** The calls an undisturbed animation has made when it is in the state
    [t]: those of the strings done, and those of the current string as far
    as it has got. *)
Definition calls_so_far (t : TypedText) : list Event :=
  pass_calls (options t) (Z.to_nat (currentStringIndex t))
  ++ (if isTyping t
      then if currentCharIndex t =? 0 then []
           else call_if (Options.onStringStart (options t)) (StringStart (currentStringIndex t))
      else string_calls (options t) (currentStringIndex t)).

(** A call that does not replace the array of strings. *)
Definition keeps_strings_call (c : Call) : Prop :=
  match c with
  | CallUpdateOptions p => PartialOptions.strings p = None
  | _ => True
  end.

(** A call that leaves the indices and the array of strings alone. *)
Definition keeps_place_call (c : Call) : Prop :=
  match c with
  | CallStart | CallReset => False
  | CallUpdateOptions p => PartialOptions.strings p = None
  | CallStop | CallDestroy => True
  end.

(** A page whose callbacks never replace the array of strings, and whose
    [onStringStart] calls neither [start()] nor [reset()]. *)
Definition orderly (page : Page) : Prop :=
  forall e w,
    Forall (match e with
            | StringStart _ => keeps_place_call
            | _ => keeps_strings_call
            end) (page e w).

(** The instance is at the same place of the same strings. *)
Definition same_place (t t' : TypedText) : Prop :=
  currentStringIndex t' = currentStringIndex t /\
  currentCharIndex t' = currentCharIndex t /\
  Options.strings (options t') = Options.strings (options t).

(* ================================================================= *)
(** * Properties *)

(** ** Comparisons of durations *)

Lemma Rltb_true (a b : R) : (a < b)%R -> Rltb a b = true.
Proof. unfold Rltb; destruct (Rlt_dec a b); tauto. Qed.

Lemma Rltb_false (a b : R) : ~ (a < b)%R -> Rltb a b = false.
Proof. unfold Rltb; destruct (Rlt_dec a b); tauto. Qed.

Lemma Rltb_lt (a b : R) : Rltb a b = true -> (a < b)%R.
Proof. unfold Rltb; destruct (Rlt_dec a b); [tauto | discriminate]. Qed.

Lemma Rltb_ge (a b : R) : Rltb a b = false -> (b <= a)%R.
Proof. unfold Rltb; destruct (Rlt_dec a b); [discriminate | lra]. Qed.

(** ** The speed curve *)

Section SpeedCurve.
Local Open Scope R_scope.

Lemma cube_unit_interval (x : R) : 0 <= x <= 1 -> 0 <= x ^ 3 <= 1.
Proof.
  intros [H0 H1]. simpl. rewrite Rmult_1_r.
  assert (0 <= x * x <= 1) as [Hs0 Hs1] by nra.
  split; nra.
Qed.

(** On the closed interval too: [typeText] asks for the speed after it has
    moved [currentCharIndex], so the progress it passes ranges over (0, 1]. *)
Lemma getSpeedMultiplier_unit_interval (c : TypeSpeedCurvature) (p : R) :
  0 <= p <= 1 -> 0 <= getSpeedMultiplier p c <= 1.
Proof.
  intros [H0 H1]. destruct c; simpl getSpeedMultiplier.
  - lra.
  - destruct (Rltb p 0.5) eqn:Hlt.
    + apply Rltb_lt in Hlt.
      assert (0 <= p ^ 3 <= 1) as [Hc0 Hc1] by (apply cube_unit_interval; lra).
      assert (p ^ 3 <= 0.5 * 0.5 * 0.5).
      { simpl. rewrite Rmult_1_r.
        assert (p * p <= 0.5 * 0.5) by nra. nra. }
      simpl in *. rewrite Rmult_1_r in *. split; nra.
    + apply Rltb_ge in Hlt.
      assert (0 <= (-2 * p + 2) ^ 3 <= 1) as [Hc0 Hc1]
          by (apply cube_unit_interval; lra).
      split; lra.
  - change (0 <= p ^ 3 <= 1). apply cube_unit_interval; lra.
  - pose proof (SIN_bound (p * PI - PI / 2)) as [Hs0 Hs1]. split; lra.
Qed.

Lemma scaled_delay_bounds (typeSpeed m : R) :
  0 <= typeSpeed -> 0 <= m <= 1 ->
  typeSpeed <= typeSpeed * (3 - 2 * m) <= 3 * typeSpeed.
Proof. intros Ht [Hm0 Hm1]. split; nra. Qed.

End SpeedCurve.

(** ** One step of the animation *)

Lemma index_Some_length {A : Type} (xs : list A) (i : Z) (x : A) :
  index xs i = Some x -> 0 <= i < array_length xs.
Proof.
  unfold index, array_length. destruct (i <? 0) eqn:Hi; [discriminate|].
  intros H. apply Z.ltb_ge in Hi.
  assert (Z.to_nat i < List.length xs)%nat
    by (apply nth_error_Some; congruence).
  lia.
Qed.

Lemma index_None_length {A : Type} (xs : list A) (i : Z) :
  index xs i = None -> i < 0 \/ array_length xs <= i.
Proof.
  unfold index, array_length. destruct (i <? 0) eqn:Hi.
  - apply Z.ltb_lt in Hi. auto.
  - intros H. apply Z.ltb_ge in Hi. apply nth_error_None in H. lia.
Qed.

Lemma array_nonempty_of_index {A : Type} (xs : list A) (i : Z) (x : A) :
  index xs i = Some x -> (array_length xs =? 0) = false.
Proof. intros H. apply index_Some_length in H. apply Z.eqb_neq. lia. Qed.

(** A typing step that has a character left to type. *)
Lemma typeText_types (w : World) (s : string) :
  isDestroyed (this w) = false ->
  isTyping (this w) = true ->
  index (Options.strings (options (this w))) (currentStringIndex (this w)) = Some s ->
  currentCharIndex (this w) < string_length s ->
  typeText w =
    Normal tt
      (let w1 := with_calls
                   (if currentCharIndex (this w) =? 0
                    then call_if (Options.onStringStart (options (this w)))
                           (StringStart (currentStringIndex (this w)))
                    else []) w in
       let shown := substring0 s (currentCharIndex (this w) + 1) in
       let w2 := with_this (fun t => set_currentCharIndex (currentCharIndex t + 1)
                                       (set_textContent shown (set_displayText shown t))) w1 in
       schedule_step (getCurrentTypeSpeed (this w2)) w2).
Proof.
  intros Hd Ht Hs Hc. js_unfold.
  rewrite (array_nonempty_of_index _ _ _ Hs), Hd, Ht, Hs. cbn [orb].
  apply Z.ltb_lt in Hc.
  destruct (currentCharIndex (this w) =? 0);
    [destruct (Options.onStringStart (options (this w)))|];
    cbn; rewrite Hc; cbn; unfold schedule_step, with_this, with_calls; cbn;
    rewrite ?app_nil_r; try reflexivity; destruct w; reflexivity.
Qed.

(** The guard of [typeText]. *)
Lemma typeText_destroyed (w : World) :
  isDestroyed (this w) = true -> typeText w = Normal tt w.
Proof. intros Hd. js_unfold. rewrite Hd, orb_true_r. reflexivity. Qed.

Lemma typeText_no_strings (w : World) :
  Options.strings (options (this w)) = [] -> typeText w = Normal tt w.
Proof. intros Hs. js_unfold. rewrite Hs. reflexivity. Qed.

(** A typing step on a string that is fully typed (an empty string is, from
    the start). *)
Lemma typeText_string_complete (w : World) (s : string) :
  isDestroyed (this w) = false ->
  isTyping (this w) = true ->
  index (Options.strings (options (this w))) (currentStringIndex (this w)) = Some s ->
  string_length s <= currentCharIndex (this w) ->
  typeText w =
    Normal tt
      (schedule_step (Options.backDelay (options (this w)))
         (with_this (set_isTyping false)
            (with_calls
               ((if currentCharIndex (this w) =? 0
                 then call_if (Options.onStringStart (options (this w)))
                        (StringStart (currentStringIndex (this w)))
                 else [])
                ++ call_if (Options.onStringComplete (options (this w)))
                     (StringComplete (currentStringIndex (this w))))
               w))).
Proof.
  intros Hd Ht Hs Hc. js_unfold.
  rewrite (array_nonempty_of_index _ _ _ Hs), Hd, Ht, Hs. cbn [orb].
  apply Z.ltb_ge in Hc.
  destruct (currentCharIndex (this w) =? 0);
    [destruct (Options.onStringStart (options (this w)))|];
    destruct (Options.onStringComplete (options (this w)));
    cbn; rewrite Hc; cbn; unfold schedule_step, with_this, with_calls; cbn;
    rewrite <- ?app_assoc; cbn; rewrite ?app_nil_r; try reflexivity;
    destruct w; reflexivity.
Qed.

(** A backspacing step with a character left to erase. *)
Lemma typeText_backspaces (w : World) (s : string) :
  isDestroyed (this w) = false ->
  isTyping (this w) = false ->
  index (Options.strings (options (this w))) (currentStringIndex (this w)) = Some s ->
  currentCharIndex (this w) > 0 ->
  typeText w =
    Normal tt
      (let shown := substring0 s (currentCharIndex (this w) - 1) in
       schedule_step (Options.backSpeed (options (this w)))
         (with_this (fun t => set_textContent shown
                                (set_displayText shown
                                   (set_currentCharIndex (currentCharIndex t - 1) t))) w)).
Proof.
  intros Hd Ht Hs Hc. js_unfold.
  rewrite (array_nonempty_of_index _ _ _ Hs), Hd, Ht, Hs. cbn [orb].
  apply Z.gtb_gt in Hc. rewrite Hc. reflexivity.
Qed.

(** A backspacing step on an erased string, when another string follows. *)
Lemma typeText_next_string (w : World) :
  isDestroyed (this w) = false ->
  isTyping (this w) = false ->
  currentCharIndex (this w) <= 0 ->
  currentStringIndex (this w) + 1 < array_length (Options.strings (options (this w))) ->
  array_length (Options.strings (options (this w))) <> 0 ->
  typeText w =
    Normal tt
      (schedule_step 500%R
         (with_this (fun t => set_isTyping true
                                (set_currentStringIndex (currentStringIndex t + 1) t)) w)).
Proof.
  intros Hd Ht Hc Hi Hn. js_unfold.
  apply Z.eqb_neq in Hn. rewrite Hn, Hd, Ht. cbn [orb].
  assert ((currentCharIndex (this w) >? 0) = false) as -> by lia.
  cbn.
  assert ((currentStringIndex (this w) + 1
             >=? array_length (Options.strings (options (this w)))) = false) as -> by lia.
  reflexivity.
Qed.

(** A backspacing step on the erased last string, when [loop] is set. *)
Lemma typeText_wraps (w : World) :
  isDestroyed (this w) = false ->
  isTyping (this w) = false ->
  currentCharIndex (this w) <= 0 ->
  array_length (Options.strings (options (this w))) <= currentStringIndex (this w) + 1 ->
  array_length (Options.strings (options (this w))) <> 0 ->
  Options.loop (options (this w)) = true ->
  typeText w =
    Normal tt
      (schedule_step 500%R
         (with_this (fun t => set_isTyping true (set_currentStringIndex 0 t)) w)).
Proof.
  intros Hd Ht Hc Hi Hn Hl. js_unfold.
  apply Z.eqb_neq in Hn. rewrite Hn, Hd, Ht. cbn [orb].
  assert ((currentCharIndex (this w) >? 0) = false) as -> by lia.
  cbn.
  assert ((currentStringIndex (this w) + 1
             >=? array_length (Options.strings (options (this w)))) = true) as -> by lia.
  rewrite Hl. reflexivity.
Qed.

(** A backspacing step on the erased last string, when [loop] is not set:
    nothing is scheduled and [timeoutId] keeps the handle of the step that
    is running. *)
Lemma typeText_completes (w : World) :
  isDestroyed (this w) = false ->
  isTyping (this w) = false ->
  currentCharIndex (this w) <= 0 ->
  array_length (Options.strings (options (this w))) <= currentStringIndex (this w) + 1 ->
  array_length (Options.strings (options (this w))) <> 0 ->
  Options.loop (options (this w)) = false ->
  typeText w =
    Normal tt
      (with_calls (call_if (Options.onComplete (options (this w))) Complete)
         (with_this (fun t => set_currentStringIndex (currentStringIndex t + 1) t) w)).
Proof.
  intros Hd Ht Hc Hi Hn Hl. js_unfold.
  apply Z.eqb_neq in Hn. rewrite Hn, Hd, Ht. cbn [orb].
  assert ((currentCharIndex (this w) >? 0) = false) as -> by lia.
  cbn.
  assert ((currentStringIndex (this w) + 1
             >=? array_length (Options.strings (options (this w)))) = true) as -> by lia.
  rewrite Hl. unfold with_calls, with_this, call_if.
  destruct (Options.onComplete (options (this w))); cbn; rewrite ?app_nil_r; reflexivity.
Qed.

(** ** The delay of a step *)

Lemma getCurrentTypeSpeed_linear (t : TypedText) :
  Options.typeSpeedCurvature (options t) = linear ->
  getCurrentTypeSpeed t = Options.typeSpeed (options t).
Proof. intros H. unfold getCurrentTypeSpeed. rewrite H. reflexivity. Qed.

(** The delay [typeText] computes after typing a character, for any curve:
    between [typeSpeed] and three times [typeSpeed]. *)
Lemma getCurrentTypeSpeed_bounds (t : TypedText) :
  (0 <= Options.typeSpeed (options t))%R ->
  0 <= currentCharIndex t <= string_length (getCurrentString t) ->
  (Options.typeSpeed (options t) <= getCurrentTypeSpeed t
   <= 3 * Options.typeSpeed (options t))%R.
Proof.
  intros Hts Hci. unfold getCurrentTypeSpeed, getCurrentString in *.
  destruct (TypeSpeedCurvature_eqb _ linear); [lra|].
  destruct (index _ _) as [[|c s]|]; cbn [truthy_string negb nullish] in *; try lra.
  apply scaled_delay_bounds; [assumption|].
  apply getSpeedMultiplier_unit_interval.
  set (n := string_length (String c s)) in *.
  assert (0 < n) by (unfold n, string_length; cbn [String.length]; lia).
  assert (0 < IZR n)%R by (apply IZR_lt; assumption).
  assert (0 <= IZR (currentCharIndex t))%R by (apply IZR_le; lia).
  assert (IZR (currentCharIndex t) <= IZR n)%R by (apply IZR_le; lia).
  split.
  - apply Rmult_le_pos; [assumption|]. left. apply Rinv_0_lt_compat. assumption.
  - apply Rmult_le_reg_r with (r := IZR n); [assumption|].
    unfold Rdiv. rewrite Rmult_assoc, Rinv_l by lra. lra.
Qed.

(** C5.  For the curves [bezier], [exponential] and [sine] and a progress
    [p] in [0, 1), the multiplier [getSpeedMultiplier p c] lies in [0, 1],
    and the delay [typeSpeed * (3 - 2 * multiplier)] of a typing step lies
    between [typeSpeed] and [3 * typeSpeed], for a [typeSpeed] that is not
    negative. *)
Theorem curve_multiplier_and_delay_bounds (c : TypeSpeedCurvature) (p typeSpeed : R) :
  c <> linear ->
  (0 <= p < 1)%R ->
  (0 <= typeSpeed)%R ->
  (0 <= getSpeedMultiplier p c <= 1)%R /\
  (typeSpeed <= typeSpeed * (3 - 2 * getSpeedMultiplier p c) <= 3 * typeSpeed)%R.
Proof.
  intros _ Hp Hts.
  assert (0 <= getSpeedMultiplier p c <= 1)%R as Hm
      by (apply getSpeedMultiplier_unit_interval; lra).
  split; [exact Hm | apply scaled_delay_bounds; assumption].
Qed.

Lemma curve_multiplier_and_delay_bounds_witness :
  sine <> linear /\ (0 <= 1 / 2 < 1)%R /\ (0 <= 50)%R /\
  (0 <= getSpeedMultiplier (1 / 2) sine <= 1)%R /\
  (50 <= 50 * (3 - 2 * getSpeedMultiplier (1 / 2) sine) <= 3 * 50)%R.
Proof.
  assert (sine <> linear) as H1 by discriminate.
  assert (0 <= 1 / 2 < 1)%R as H2 by lra.
  assert (0 <= 50)%R as H3 by lra.
  exact (conj H1 (conj H2 (conj H3
           (curve_multiplier_and_delay_bounds sine (1 / 2) 50 H1 H2 H3)))).
Defined.

(** C6.  With the [linear] curve, [getCurrentTypeSpeed] is [typeSpeed]
    whatever the progress, and a typing step that types a character
    schedules the next step after exactly [typeSpeed]. *)
Theorem linear_typing_delay_is_typeSpeed (w : World) (s : string) :
  Options.typeSpeedCurvature (options (this w)) = linear ->
  isDestroyed (this w) = false ->
  isTyping (this w) = true ->
  index (Options.strings (options (this w))) (currentStringIndex (this w)) = Some s ->
  currentCharIndex (this w) < string_length s ->
  getCurrentTypeSpeed (this w) = Options.typeSpeed (options (this w)) /\
  exists w', typeText w = Normal tt w' /\
    currentCharIndex (this w') = currentCharIndex (this w) + 1 /\
    timeoutId (this w') = Some (nextHandle (window w)) /\
    timers (window w') =
      timers (window w)
      ++ [mkTimer (nextHandle (window w)) StepCallback
            (Options.typeSpeed (options (this w))) false].
Proof.
  intros Hlin Hd Ht Hs Hc. split.
  - apply getCurrentTypeSpeed_linear; assumption.
  - rewrite (typeText_types w s Hd Ht Hs Hc). eexists. split; [reflexivity|].
    cbn. rewrite getCurrentTypeSpeed_linear by (cbn; assumption). cbn.
    repeat split; reflexivity.
Qed.

Lemma linear_typing_delay_is_typeSpeed_witness :
  exists w', typeText (Hi_world 1 true) = Normal tt w' /\
    currentCharIndex (this w') = 2 /\
    timers (window w') =
      [mkTimer 1 BlinkCallback 530%R true; mkTimer 4 StepCallback 100%R false].
Proof.
  destruct (linear_typing_delay_is_typeSpeed (Hi_world 1 true) "Hi"
              eq_refl eq_refl eq_refl eq_refl eq_refl)
    as [_ [w' [H1 [H2 [_ H3]]]]].
  exists w'. exact (conj H1 (conj H2 H3)).
Defined.

(** C7, as amended.  A backspacing step with [currentCharIndex > 0] on a
    current string that exists ([currentStringIndex] inside the array) takes
    one off [currentCharIndex], shows the first [currentCharIndex] characters
    of the current string, and schedules the next step after [backSpeed],
    whatever the curve.  The step calls no callback of the user. *)
Theorem backspacing_step (w : World) (s : string) :
  isDestroyed (this w) = false ->
  isTyping (this w) = false ->
  index (Options.strings (options (this w))) (currentStringIndex (this w)) = Some s ->
  currentCharIndex (this w) > 0 ->
  exists w', typeText w = Normal tt w' /\
    currentCharIndex (this w') = currentCharIndex (this w) - 1 /\
    displayText (this w') = substring0 s (currentCharIndex (this w')) /\
    textContent (this w') = substring0 s (currentCharIndex (this w')) /\
    timeoutId (this w') = Some (nextHandle (window w)) /\
    timers (window w') =
      timers (window w)
      ++ [mkTimer (nextHandle (window w)) StepCallback
            (Options.backSpeed (options (this w))) false] /\
    isTyping (this w') = false /\
    currentStringIndex (this w') = currentStringIndex (this w) /\
    options (this w') = options (this w) /\
    calls w' = calls w.
Proof.
  intros Hd Ht Hs Hc.
  rewrite (typeText_backspaces w s Hd Ht Hs Hc). eexists. split; [reflexivity|].
  cbn. rewrite Ht. repeat split; reflexivity.
Qed.

Lemma backspacing_step_witness :
  exists w', typeText (Hi_world 2 false) = Normal tt w' /\
    currentCharIndex (this w') = 1 /\
    textContent (this w') = "H"%string /\
    timers (window w') =
      [mkTimer 1 BlinkCallback 530%R true; mkTimer 4 StepCallback 50%R false].
Proof.
  destruct (backspacing_step (Hi_world 2 false) "Hi" eq_refl eq_refl eq_refl eq_refl)
    as [w' [H1 [H2 [_ [H4 [_ [H6 _]]]]]]].
  exists w'. rewrite H2 in H4. exact (conj H1 (conj H2 (conj H4 H6))).
Defined.

(** ** The bound on [currentCharIndex] *)

(** The two reads that can throw. *)
Lemma typeText_throws (w : World) :
  isDestroyed (this w) = false ->
  array_length (Options.strings (options (this w))) <> 0 ->
  index (Options.strings (options (this w))) (currentStringIndex (this w)) = None ->
  isTyping (this w) = true \/ currentCharIndex (this w) > 0 ->
  exists w', typeText w = Abrupt w'.
Proof.
  intros Hd Hn Hs Hor. js_unfold. apply Z.eqb_neq in Hn. rewrite Hn, Hd, Hs. cbn [orb].
  destruct (isTyping (this w)) eqn:Ht.
  - destruct (currentCharIndex (this w) =? 0); cbn; eexists; reflexivity.
  - destruct Hor as [|Hc]; [discriminate|]. apply Z.gtb_gt in Hc. rewrite Hc. cbn.
    eexists; reflexivity.
Qed.

Lemma typeText_options (w : World) :
  options (this (world_of (typeText w))) = options (this w).
Proof. js_unfold. split_ifs; reflexivity. Qed.

Lemma typeText_isDestroyed (w : World) :
  isDestroyed (this (world_of (typeText w))) = isDestroyed (this w).
Proof. js_unfold. split_ifs; reflexivity. Qed.

Lemma typeText_charIndexInBounds (w : World) :
  charIndexInBounds (this w) -> charIndexInBounds (this (world_of (typeText w))).
Proof.
  unfold charIndexInBounds, getCurrentString. js_unfold.
  destruct (_ || _); [trivial|].
  destruct (isTyping (this w)).
  - destruct (index _ _) as [s|] eqn:Hs.
    + destruct (currentCharIndex (this w) =? 0);
        [destruct (Options.onStringStart _)|]; cbn;
        (destruct (currentCharIndex (this w) <? string_length s) eqn:Hlt; cbn;
         [apply Z.ltb_lt in Hlt; rewrite Hs; cbn; lia
         | destruct (Options.onStringComplete _); cbn; rewrite Hs; cbn; trivial]).
    + destruct (currentCharIndex (this w) =? 0);
        [destruct (Options.onStringStart _)|]; cbn; rewrite Hs; trivial.
  - destruct (currentCharIndex (this w) >? 0) eqn:Hgt; cbn.
    + apply Z.gtb_gt in Hgt.
      destruct (index _ _) as [s|] eqn:Hs; cbn; rewrite Hs; cbn; lia.
    + assert (currentCharIndex (this w) <= 0) by lia.
      intros Hb.
      assert (currentCharIndex (this w) = 0) as Hz by lia.
      destruct (_ >=? _); [destruct (Options.loop _)|]; cbn;
        try destruct (Options.onComplete _); cbn; rewrite Hz;
        split; try lia; unfold string_length; lia.
Qed.

Lemma init_choice_eq (w : World) :
  init w = init_choice (Rltb 0 (Options.startDelay (options (this w)))) w.
Proof. reflexivity. Qed.

(** A step does not throw when the current string exists. *)
Lemma typeText_normal (w : World) (s : string) :
  isDestroyed (this w) = false ->
  index (Options.strings (options (this w))) (currentStringIndex (this w)) = Some s ->
  exists w', typeText w = Normal tt w'.
Proof.
  intros Hd Hs.
  pose proof (index_Some_length _ _ _ Hs) as Hi.
  destruct (isTyping (this w)) eqn:Ht.
  - destruct (Z_lt_le_dec (currentCharIndex (this w)) (string_length s)) as [Hc|Hc].
    + rewrite (typeText_types w s Hd Ht Hs Hc). eexists; reflexivity.
    + rewrite (typeText_string_complete w s Hd Ht Hs Hc). eexists; reflexivity.
  - destruct (Z_lt_le_dec 0 (currentCharIndex (this w))) as [Hc|Hc].
    + rewrite (typeText_backspaces w s Hd Ht Hs) by lia. eexists; reflexivity.
    + destruct (Z_lt_le_dec (currentStringIndex (this w) + 1)
                  (array_length (Options.strings (options (this w))))) as [Hn|Hn].
      * rewrite (typeText_next_string w Hd Ht Hc Hn) by lia. eexists; reflexivity.
      * destruct (Options.loop (options (this w))) eqn:Hl.
        -- rewrite (typeText_wraps w Hd Ht Hc Hn) by (lia || assumption).
           eexists; reflexivity.
        -- rewrite (typeText_completes w Hd Ht Hc Hn) by (lia || assumption).
           eexists; reflexivity.
Qed.

Lemma constructor_now_of (o : TypedTextOptions.t) :
  TypedTextOptions.strings o <> [] ->
  ~ (0 < Options.startDelay (Options.resolve o))%R ->
  constructor Node o newWindow = Some (construct_now o).
Proof.
  intros Hss Hsd. unfold constructor, construct_now. rewrite init_choice_eq.
  rewrite Rltb_false by exact Hsd.
  destruct o as [ss ts lp cv sc cc bs bd sd oc osc oss]. cbn in Hss.
  destruct ss as [|s ss]; [congruence|].
  unfold init_choice, startCursorBlink, setInterval, add_timer, bind, get_this, update, ret.
  destruct sc as [[|]|]; cbn -[typeText];
    match goal with
    | |- context [typeText ?W] =>
        destruct (typeText_normal W s eq_refl eq_refl) as [w' ->]
    end; reflexivity.
Qed.

Lemma constructor_now (ss : list string) :
  ss <> [] ->
  constructor Node (defaults ss) newWindow = Some (construct_now (defaults ss)).
Proof.
  intros Hss. apply constructor_now_of; [exact Hss | cbn; lra].
Qed.

Lemma clearTimeout_this (h : Z) (w : World) :
  this (world_of (clearTimeout h w)) = this w.
Proof. reflexivity. Qed.

Lemma cursorTick_charIndexInBounds (w : World) :
  charIndexInBounds (this w) -> charIndexInBounds (this (world_of (cursorTick w))).
Proof. js_unfold. destruct (isDestroyed (this w)); trivial. Qed.

Lemma fire_charIndexInBounds (h : Z) (w : World) :
  charIndexInBounds (this w) -> charIndexInBounds (this (fire h w)).
Proof.
  intros Hb. unfold fire. destruct (find_timer h w) as [t|]; [|assumption].
  assert (charIndexInBounds
            (this (if repeating t then w else world_of (clearTimeout h w)))) as Hb'
      by (destruct (repeating t); assumption).
  destruct (callback t); cbn [run_callback].
  - apply typeText_charIndexInBounds; assumption.
  - apply cursorTick_charIndexInBounds; assumption.
Qed.

Lemma start_charIndexInBounds (w : World) :
  charIndexInBounds (this w) -> charIndexInBounds (this (world_of (start w))).
Proof.
  intros Hb. unfold start, bind, get_this, update.
  destruct (isDestroyed (this w)); [assumption|].
  apply typeText_charIndexInBounds.
  unfold charIndexInBounds, getCurrentString, string_length. cbn. lia.
Qed.

Lemma stop_this_eq (w : World) :
  this (world_of (stop w)) = set_timeoutId None (this w) \/ this (world_of (stop w)) = this w.
Proof. js_unfold. destruct (truthy (timeoutId (this w))); cbn; auto. Qed.

Lemma stop_charIndexInBounds (w : World) :
  charIndexInBounds (this w) -> charIndexInBounds (this (world_of (stop w))).
Proof. intros Hb. destruct (stop_this_eq w) as [-> | ->]; assumption. Qed.

Lemma reset_charIndexInBounds (w : World) :
  charIndexInBounds (this w) -> charIndexInBounds (this (world_of (reset w))).
Proof.
  intros Hb. js_unfold. destruct (isDestroyed (this w)); [assumption|].
  destruct (truthy (timeoutId (this w))); cbn;
    unfold charIndexInBounds, string_length;
    (split; [cbn; lia | apply Nat2Z.is_nonneg]).
Qed.

Lemma destroy_charIndexInBounds (w : World) :
  charIndexInBounds (this w) -> charIndexInBounds (this (world_of (destroy w))).
Proof.
  intros Hb. js_unfold. cbn.
  destruct (truthy (timeoutId (this w))); cbn;
    destruct (truthy (cursorIntervalId (this w))); cbn; assumption.
Qed.

Lemma updateOptions_charIndexInBounds (p : PartialOptions.t) (w : World) :
  PartialOptions.strings p = None ->
  charIndexInBounds (this w) -> charIndexInBounds (this (world_of (updateOptions p w))).
Proof.
  intros Hp Hb. js_unfold. destruct (isDestroyed (this w)); [assumption|].
  unfold charIndexInBounds, getCurrentString in *. cbn. rewrite Hp. assumption.
Qed.

Lemma perform_charIndexInBounds (a : Action) (w : World) :
  keeps_strings a ->
  charIndexInBounds (this w) -> charIndexInBounds (this (perform a w)).
Proof.
  destruct a; cbn [perform keeps_strings]; intros Hk Hb.
  - apply fire_charIndexInBounds; assumption.
  - apply start_charIndexInBounds; assumption.
  - apply stop_charIndexInBounds; assumption.
  - apply reset_charIndexInBounds; assumption.
  - apply destroy_charIndexInBounds; assumption.
  - apply updateOptions_charIndexInBounds; assumption.
Qed.

Lemma init_charIndexInBounds (w : World) :
  charIndexInBounds (this w) -> charIndexInBounds (this (world_of (init w))).
Proof.
  intros Hb. unfold init, startCursorBlink, setInterval, setTimeout, add_timer,
               bind, get_this, update, ret.
  destruct (isDestroyed (this w)) eqn:Hd; [assumption|].
  destruct (Options.showCursor (options (this w))) eqn:Hsc;
    destruct (array_length (Options.strings (options (this w))) >? 0) eqn:Hlen;
    destruct (Rltb 0 (Options.startDelay (options (this w)))) eqn:Hr;
    cbn -[typeText]; rewrite ?Hd, ?Hsc; cbn -[typeText]; try assumption;
    apply typeText_charIndexInBounds; assumption.
Qed.

Lemma constructor_charIndexInBounds element o win w :
  constructor element o win = Some w -> charIndexInBounds (this w).
Proof.
  unfold constructor. intros H.
  assert (charIndexInBounds
            (this (world_of (init (mkWorld (fresh (Options.resolve o)) win [])))))
    as Hb.
  { apply init_charIndexInBounds.
    unfold charIndexInBounds, getCurrentString, string_length. cbn.
    split; [lia|]. apply Nat2Z.is_nonneg. }
  destruct element as [|[|]]; try discriminate;
    destruct (init _) as [u w'|w']; try discriminate;
    injection H as <-; exact Hb.
Qed.

Lemma run_app (acts1 acts2 : list Action) (w : World) :
  run (acts1 ++ acts2) w = run acts2 (run acts1 w).
Proof. unfold run. apply fold_left_app. Qed.

Lemma reachable_run (acts : list Action) (w : World) :
  reachable w -> reachable (run acts w).
Proof.
  revert w. induction acts as [|a acts IH]; intros w Hr; [exact Hr|].
  cbn [run fold_left]. apply IH. apply reachable_perform. exact Hr.
Qed.

(** C3, as stated, fails: after three characters of ["abc"] are typed,
    [updateOptions({ strings: ["a"] })] leaves [currentCharIndex = 3] on a
    current string of length 1. *)
Lemma charIndex_bound_broken_by_new_strings :
  ~ (forall w, reachable w -> charIndexInBounds (this w)).
Proof.
  intros H.
  pose (w := run [Fire 2; Fire 3; UpdateOptions (only_strings ["a"%string])]
               (construct_now (defaults ["abc"%string]))).
  assert (reachable w) as Hr.
  { apply reachable_run. apply (reachable_new Node (defaults ["abc"%string])).
    apply constructor_now. discriminate. }
  apply H in Hr. destruct Hr as [_ Hr].
  assert (currentCharIndex (this w) = 3) as E1 by (vm_compute; reflexivity).
  assert (string_length (getCurrentString (this w)) = 1) as E2 by (vm_compute; reflexivity).
  rewrite E1, E2 in Hr. lia.
Qed.

(** ** Three histories on which the timer bookkeeping goes wrong *)

Lemma constructor_delayed_a :
  constructor Node delayed_a newWindow = Some (construct_delayed delayed_a).
Proof.
  unfold constructor, construct_delayed. rewrite init_choice_eq.
  rewrite Rltb_true by (cbn; lra). reflexivity.
Qed.

(** C1, on the code.  [new TypedText(node, { strings: ["ab"] })] types "a"
    and waits for step 2.  [start()] then types "a" again and waits for step
    3, but step 2 is still active: two steps are pending.  When the host
    fires step 2 it types "b"; after both have fired, two steps are pending
    again. *)
Theorem start_leaves_the_prior_step_pending :
  let w0 := construct_now (defaults ["ab"%string]) in
  constructor Node (defaults ["ab"%string]) newWindow = Some w0 /\
  pendingSteps w0 = [2] /\
  pendingSteps (run [Start] w0) = [2; 3] /\
  currentCharIndex (this (run [Start] w0)) = 1 /\
  currentCharIndex (this (run [Start; Fire 2] w0)) = 2 /\
  pendingSteps (run [Start; Fire 2; Fire 3] w0) = [4; 5] /\
  calls (run [Start; Fire 2; Fire 3] w0) = [StringStart 0; StringStart 0; StringComplete 0].
Proof.
  cbv zeta. split; [apply constructor_now; discriminate|].
  repeat split; vm_compute; reflexivity.
Qed.

(** C2, on the code.  [new TypedText(node, { strings: ["ab"] })] with
    [loop] off: after "a", "ab", the pause, "a" and "" the sixth step calls
    [onComplete], once, and schedules nothing; [timeoutId] still holds the
    handle of that sixth step, so [isRunning()] is [true]. *)
Theorem isRunning_stays_true_after_completion :
  let w0 := construct_now (defaults ["ab"%string]) in
  let w := run [Fire 2; Fire 3; Fire 4; Fire 5; Fire 6] w0 in
  constructor Node (defaults ["ab"%string]) newWindow = Some w0 /\
  calls w = [StringStart 0; StringComplete 0; Complete] /\
  textContent (this w) = EmptyString /\
  pendingSteps w = [] /\
  timeoutId (this w) = Some 6 /\
  isRunning (this w) = true.
Proof.
  cbv zeta. split; [apply constructor_now; discriminate|].
  repeat split; vm_compute; reflexivity.
Qed.

(** C4, on the code.  [new TypedText(node, { strings: ["a"], startDelay: 100 })]
    leaves the first step to the host without keeping its handle.  [stop()]
    finds [timeoutId] null and cancels nothing; the step then fires and
    types "a". *)
Theorem stop_misses_the_delayed_first_step :
  let w0 := construct_delayed delayed_a in
  constructor Node delayed_a newWindow = Some w0 /\
  timeoutId (this w0) = None /\
  pendingSteps (run [Stop] w0) = [2] /\
  textContent (this (run [Stop] w0)) = EmptyString /\
  textContent (this (run [Stop; Fire 2] w0)) = "a"%string /\
  calls (run [Stop; Fire 2] w0) = [StringStart 0].
Proof.
  cbv zeta. split; [apply constructor_delayed_a|].
  repeat split; vm_compute; reflexivity.
Qed.

(** ** After [destroy] *)

Lemma destroy_normal (w : World) : destroy w = Normal tt (world_of (destroy w)).
Proof.
  js_unfold. cbn.
  destruct (truthy (timeoutId (this w))); cbn;
    destruct (truthy (cursorIntervalId (this w))); reflexivity.
Qed.

Lemma destroy_torn_down (w : World) : torn_down (this (world_of (destroy w))).
Proof.
  js_unfold. cbn. unfold torn_down.
  destruct (truthy (timeoutId (this w))) eqn:Ht; cbn;
    destruct (truthy (cursorIntervalId (this w))) eqn:Hc; cbn;
    rewrite ?Ht, ?Hc; repeat split; reflexivity.
Qed.

Section TornDown.
Variable w : World.
Hypothesis Hdown : torn_down (this w).

Lemma torn_down_start : start w = Normal tt w.
Proof. destruct Hdown as [Hd _]. js_unfold. rewrite Hd. reflexivity. Qed.

Lemma torn_down_reset : reset w = Normal tt w.
Proof. destruct Hdown as [Hd _]. js_unfold. rewrite Hd. reflexivity. Qed.

Lemma torn_down_updateOptions (p : PartialOptions.t) : updateOptions p w = Normal tt w.
Proof. destruct Hdown as [Hd _]. js_unfold. rewrite Hd. reflexivity. Qed.

Lemma torn_down_stop : stop w = Normal tt w.
Proof. destruct Hdown as [_ [Ht _]]. js_unfold. rewrite Ht. reflexivity. Qed.

Lemma torn_down_destroy : destroy w = Normal tt w.
Proof.
  destruct Hdown as [Hd [Ht [Hc [Hs [Hh Hch]]]]]. js_unfold. cbn.
  rewrite Ht. cbn. rewrite Hc. cbn.
  destruct w as [t win cs]. destruct t. cbn in *. subst. reflexivity.
Qed.

Lemma torn_down_cursorTick : cursorTick w = Normal tt w.
Proof. destruct Hdown as [Hd _]. js_unfold. rewrite Hd. reflexivity. Qed.

(** A callback the host still fires returns at its guard: only the list
    of active timers can change, and only by losing the timer fired. *)
Lemma torn_down_fire (h : Z) :
  this (fire h w) = this w /\ calls (fire h w) = calls w /\
  incl (timers (window (fire h w))) (timers (window w)).
Proof.
  unfold fire. destruct (find_timer h w) as [t|]; [|repeat split; apply incl_refl].
  assert (forall w', this w' = this w ->
            world_of (run_callback (callback t) w') = w') as Hcb.
  { intros w' Hw'. destruct Hdown as [Hd _]. rewrite <- Hw' in Hd.
    destruct (callback t); cbn [run_callback].
    - rewrite typeText_destroyed by assumption. reflexivity.
    - js_unfold. rewrite Hd. reflexivity. }
  destruct (repeating t).
  - rewrite Hcb by reflexivity. repeat split. apply incl_refl.
  - rewrite Hcb by reflexivity. repeat split. cbn. apply incl_filter.
Qed.

Lemma torn_down_perform (a : Action) :
  this (perform a w) = this w /\ calls (perform a w) = calls w /\
  incl (timers (window (perform a w))) (timers (window w)).
Proof.
  destruct a; cbn [perform];
    rewrite ?torn_down_start, ?torn_down_stop, ?torn_down_reset, ?torn_down_destroy,
      ?torn_down_updateOptions;
    try (repeat split; apply incl_refl).
  apply torn_down_fire.
Qed.
End TornDown.

Lemma torn_down_run (acts : list Action) (w : World) :
  torn_down (this w) ->
  this (run acts w) = this w /\ calls (run acts w) = calls w /\
  incl (timers (window (run acts w))) (timers (window w)).
Proof.
  revert w. induction acts as [|a acts IH]; intros w Hdown.
  - repeat split. apply incl_refl.
  - cbn [run fold_left].
    destruct (torn_down_perform w Hdown a) as [Ht [Hc Hi]].
    assert (torn_down (this (perform a w))) as Hdown' by (rewrite Ht; exact Hdown).
    destruct (IH _ Hdown') as [Ht' [Hc' Hi']]. fold (run acts (perform a w)) in *.
    repeat split; [congruence | congruence |].
    eapply incl_tran; eassumption.
Qed.

(** ** The host's bookkeeping of handles *)

Lemma find_fresh_handle (h : Z) (ts : list Timer) :
  Forall (fun t => 0 < handle t < h) ts ->
  find (fun t => handle t =? h) ts = None.
Proof.
  induction 1 as [|t ts Ht _ IH]; [reflexivity|].
  cbn [find]. assert ((handle t =? h) = false) as -> by lia. exact IH.
Qed.

Lemma filter_fresh_handle (h : Z) (ts : list Timer) :
  Forall (fun t => 0 < handle t < h) ts ->
  filter (fun t => negb (handle t =? h)) ts = ts.
Proof.
  induction 1 as [|t ts Ht _ IH]; [reflexivity|].
  cbn [filter]. assert ((handle t =? h) = false) as -> by lia.
  cbn [negb]. rewrite IH. reflexivity.
Qed.

Lemma find_timer_schedule_step (d : R) (w : World) :
  window_ok (window w) ->
  find_timer (nextHandle (window w)) (schedule_step d w)
  = Some (mkTimer (nextHandle (window w)) StepCallback d false).
Proof.
  intros [_ Hts]. unfold find_timer, schedule_step. cbn [window timers].
  induction Hts as [|t ts Ht _ IH]; cbn [app find handle].
  - rewrite Z.eqb_refl. reflexivity.
  - assert ((handle t =? nextHandle (window w)) = false) as -> by lia. exact IH.
Qed.

(** The step scheduled last fires: its timer leaves the list and [typeText]
    runs. *)
Lemma fire_scheduled_step (d : R) (w : World) :
  window_ok (window w) ->
  fire (nextHandle (window w)) (schedule_step d w) = world_of (typeText (step_running w)).
Proof.
  intros Hok. unfold fire. rewrite (find_timer_schedule_step d w Hok).
  cbn [repeating callback run_callback]. f_equal. f_equal.
  unfold step_running, schedule_step, clearTimeout, world_of. cbn.
  destruct Hok as [_ Hts].
  rewrite filter_app, (filter_fresh_handle _ _ Hts). cbn.
  rewrite Z.eqb_refl. cbn. rewrite app_nil_r. reflexivity.
Qed.

Lemma step_running_window_ok (w : World) :
  window_ok (window w) -> window_ok (window (step_running w)).
Proof.
  intros [Hn Hts]. unfold step_running, window_ok. cbn. split; [lia|].
  eapply Forall_impl; [|exact Hts]. cbn. intros t Ht. lia.
Qed.

(** ** Empty strings *)

(** C10.  A typing step that reaches an empty string (phase Typing,
    [currentCharIndex = 0]) calls [onStringStart(i)] then
    [onStringComplete(i)], writes nothing to the text span, switches to
    backspacing and waits [backDelay].  The step that follows moves on: to
    string [i + 1], or back to string 0 when [i] is the last index and
    [loop] is set, or to completion ([onComplete], nothing scheduled) when
    [loop] is not set. *)
Theorem empty_string_is_skipped (w : World) :
  let t := this w in
  let i := currentStringIndex t in
  let n := array_length (Options.strings (options t)) in
  let h := nextHandle (window w) in
  isDestroyed t = false ->
  isTyping t = true ->
  currentCharIndex t = 0 ->
  index (Options.strings (options t)) i = Some EmptyString ->
  window_ok (window w) ->
  exists w1,
    typeText w = Normal tt w1 /\
    calls w1 = calls w ++ call_if (Options.onStringStart (options t)) (StringStart i)
                       ++ call_if (Options.onStringComplete (options t)) (StringComplete i) /\
    textContent (this w1) = textContent t /\
    displayText (this w1) = displayText t /\
    isTyping (this w1) = false /\
    currentCharIndex (this w1) = 0 /\
    currentStringIndex (this w1) = i /\
    timeoutId (this w1) = Some h /\
    timers (window w1)
    = timers (window w) ++ [mkTimer h StepCallback (Options.backDelay (options t)) false] /\
    let w2 := fire h w1 in
    textContent (this w2) = textContent t /\
    currentCharIndex (this w2) = 0 /\
    (i + 1 < n ->
     currentStringIndex (this w2) = i + 1 /\ isTyping (this w2) = true /\
     calls w2 = calls w1 /\
     timers (window w2) = timers (window w) ++ [mkTimer (h + 1) StepCallback 500%R false]) /\
    (n <= i + 1 -> Options.loop (options t) = true ->
     currentStringIndex (this w2) = 0 /\ isTyping (this w2) = true /\
     calls w2 = calls w1 /\
     timers (window w2) = timers (window w) ++ [mkTimer (h + 1) StepCallback 500%R false]) /\
    (n <= i + 1 -> Options.loop (options t) = false ->
     currentStringIndex (this w2) = i + 1 /\ isTyping (this w2) = false /\
     calls w2 = calls w1 ++ call_if (Options.onComplete (options t)) Complete /\
     timers (window w2) = timers (window w)).
Proof.
  cbv zeta. intros Hd Ht Hc Hs Hok.
  pose proof (index_Some_length _ _ _ Hs) as Hi.
  rewrite (typeText_string_complete w EmptyString Hd Ht Hs)
    by (rewrite Hc; cbn; lia).
  rewrite Hc. cbn [Z.eqb].
  match goal with
  | |- context [schedule_step ?d ?W] => set (W0 := W); set (d0 := d)
  end.
  assert (window W0 = window w) as HW by reflexivity.
  assert (window_ok (window W0)) as Hok0 by (rewrite HW; exact Hok).
  exists (schedule_step d0 W0).
  split; [reflexivity|].
  split; [reflexivity|].
  split; [reflexivity|].
  split; [reflexivity|].
  split; [reflexivity|].
  split; [exact Hc|].
  split; [reflexivity|].
  split; [reflexivity|].
  split; [reflexivity|].
  change (nextHandle (window w)) with (nextHandle (window W0)).
  rewrite (fire_scheduled_step d0 W0 Hok0).
  assert (isDestroyed (this (step_running W0)) = false) as Hd' by exact Hd.
  assert (isTyping (this (step_running W0)) = false) as Ht' by reflexivity.
  assert (currentCharIndex (this (step_running W0)) <= 0) as Hc'
      by (change (currentCharIndex (this w) <= 0); lia).
  assert (array_length (Options.strings (options (this (step_running W0)))) <> 0) as Hn'
      by (change (array_length (Options.strings (options (this w))) <> 0); lia).
  destruct (Z_lt_le_dec (currentStringIndex (this w) + 1)
              (array_length (Options.strings (options (this w))))) as [Hlt|Hge].
  - rewrite (typeText_next_string (step_running W0) Hd' Ht' Hc') by assumption.
    cbn. rewrite Hc. repeat split; try reflexivity; intros; lia.
  - destruct (Options.loop (options (this w))) eqn:Hl.
    + rewrite (typeText_wraps (step_running W0) Hd' Ht' Hc') by assumption.
      cbn. rewrite Hc. repeat split; try reflexivity; intros; try lia; discriminate.
    + rewrite (typeText_completes (step_running W0) Hd' Ht' Hc') by assumption.
      cbn. rewrite Hc. repeat split; try reflexivity; intros; try lia; discriminate.
Qed.

Lemma before_empty_window_ok : window_ok (window before_empty).
Proof.
  split; [reflexivity|]. repeat constructor.
Qed.

Lemma empty_string_is_skipped_witness :
  exists w1,
    typeText before_empty = Normal tt w1 /\
    calls w1 = [StringStart 0; StringComplete 0] /\
    textContent (this w1) = EmptyString /\
    isTyping (this w1) = false /\
    currentStringIndex (this (fire 2 w1)) = 1 /\
    isTyping (this (fire 2 w1)) = true.
Proof.
  destruct (empty_string_is_skipped before_empty eq_refl eq_refl eq_refl eq_refl
              before_empty_window_ok)
    as [w1 [H1 [H2 [H3 [_ [H5 [_ [_ [_ [_ [_ [_ [Hnext _]]]]]]]]]]]]].
  destruct (Hnext eq_refl) as [H6 [H7 _]].
  exists w1. exact (conj H1 (conj H2 (conj H3 (conj H5 (conj H6 H7))))).
Defined.

(** ** Looping *)

Lemma index_in_range {A : Type} (xs : list A) (i : Z) :
  0 <= i < array_length xs -> exists x, index xs i = Some x.
Proof.
  unfold index, array_length. intros Hi.
  assert ((i <? 0) = false) as -> by lia.
  destruct (nth_error xs (Z.to_nat i)) as [x|] eqn:Hx; [eexists; reflexivity|].
  apply nth_error_None in Hx. lia.
Qed.

Lemma skipn_nth_error_cons {A : Type} (xs : list A) (n : nat) (x : A) :
  nth_error xs n = Some x -> skipn n xs = x :: skipn (S n) xs.
Proof.
  revert n. induction xs as [|y xs IH]; intros [|n] H; try discriminate.
  - injection H as ->. reflexivity.
  - cbn [nth_error] in H. apply IH in H. exact H.
Qed.

Lemma strings_cost_nonneg (ss : list string) : 0 <= strings_cost ss.
Proof.
  induction ss as [|s ss IH]; [cbn; lia|].
  unfold strings_cost in *. cbn [fold_right].
  unfold string_cost, string_length in *. lia.
Qed.

Lemma strings_cost_from (ss : list string) (i : Z) (s : string) :
  index ss i = Some s ->
  strings_cost (skipn (Z.to_nat i) ss)
  = string_cost s + strings_cost (skipn (Z.to_nat (i + 1)) ss).
Proof.
  unfold index. destruct (i <? 0) eqn:Hi; [discriminate|]. intros H.
  apply Z.ltb_ge in Hi.
  rewrite (skipn_nth_error_cons _ _ _ H).
  replace (Z.to_nat (i + 1)) with (S (Z.to_nat i)) by lia.
  reflexivity.
Qed.

Lemma strings_cost_past_end (ss : list string) (i : Z) :
  array_length ss <= i -> strings_cost (skipn (Z.to_nat i) ss) = 0.
Proof.
  unfold array_length. intros H. rewrite skipn_all2 by lia. reflexivity.
Qed.

Lemma remaining_pos (t : TypedText) : live t -> 1 <= remaining t.
Proof.
  intros [_ [_ [_ [Hc0 Hc1]]]]. unfold remaining.
  pose proof (strings_cost_nonneg
                (skipn (Z.to_nat (currentStringIndex t + 1)) (Options.strings (options t)))).
  unfold string_cost. destruct (isTyping t); lia.
Qed.

(** A step of a live instance: it always schedules the next step, never
    calls [onComplete], and either brings the start of the next pass one
    step closer or, on the erased last string, wraps to it after the 500ms
    pause. *)
Lemma typeText_live (w : World) :
  live (this w) ->
  exists d w',
    typeText w = Normal tt (schedule_step d w') /\
    window w' = window w /\
    live (this w') /\
    options (this w') = options (this w) /\
    (exists es, calls w' = calls w ++ es /\ ~ In Complete es) /\
    (remaining (this w') = remaining (this w) - 1
     \/ remaining (this w) = 1 /\ cycle_start (this w') /\ d = 500%R /\
        isTyping (this w) = false /\ currentCharIndex (this w) = 0 /\
        currentStringIndex (this w) + 1 = array_length (Options.strings (options (this w))) /\
        calls w' = calls w).
Proof.
  intros [Hd [Hl [Hi [Hc0 Hc1]]]].
  destruct (index_in_range _ _ Hi) as [s Hs].
  unfold getCurrentString in Hc1. rewrite Hs in Hc1. cbn [nullish] in Hc1.
  assert (forall b e, e <> Complete -> ~ In Complete (call_if b e)) as Hcall.
  { intros [|] e He; cbn; [intros [H|[]]; congruence | intros []]. }
  assert (exists es : list Event, calls w = calls w ++ es /\ ~ In Complete es) as Hquiet.
  { exists []. rewrite app_nil_r. split; [reflexivity | intros []]. }
  destruct (isTyping (this w)) eqn:Ht.
  - destruct (Z_lt_le_dec (currentCharIndex (this w)) (string_length s)) as [Hc|Hc].
    + rewrite (typeText_types w s Hd Ht Hs Hc). cbv zeta.
      eexists; eexists. split; [reflexivity|].
      split; [reflexivity|].
      split; [|split; [reflexivity|split]].
      * unfold live, charIndexInBounds, getCurrentString. cbn. rewrite Hs. cbn [nullish].
        repeat split; try assumption; lia.
      * cbn. eexists. split; [reflexivity|].
        destruct (_ =? 0); [apply Hcall; discriminate | intros []].
      * left. unfold remaining, getCurrentString. cbn. rewrite Ht. lia.
    + rewrite (typeText_string_complete w s Hd Ht Hs Hc).
      eexists; eexists. split; [reflexivity|].
      split; [reflexivity|].
      split; [|split; [reflexivity|split]].
      * unfold live, charIndexInBounds, getCurrentString. cbn. rewrite Hs. cbn [nullish].
        repeat split; try assumption; lia.
      * cbn. eexists. split; [reflexivity|].
        intros Hin. apply in_app_or in Hin. destruct Hin as [Hin|Hin].
        -- destruct (_ =? 0); [revert Hin; apply Hcall; discriminate | destruct Hin].
        -- revert Hin. apply Hcall. discriminate.
      * left. unfold remaining, getCurrentString. cbn. rewrite Ht, Hs. cbn [nullish].
        unfold string_cost. lia.
  - destruct (Z_lt_le_dec 0 (currentCharIndex (this w))) as [Hc|Hc].
    + rewrite (typeText_backspaces w s Hd Ht Hs) by lia. cbv zeta.
      eexists; eexists. split; [reflexivity|].
      split; [reflexivity|].
      split; [|split; [reflexivity|split]].
      * unfold live, charIndexInBounds, getCurrentString. cbn. rewrite Hs. cbn [nullish].
        repeat split; try assumption; lia.
      * exact Hquiet.
      * left. unfold remaining. cbn. rewrite Ht. lia.
    + destruct (Z_lt_le_dec (currentStringIndex (this w) + 1)
                  (array_length (Options.strings (options (this w))))) as [Hn|Hn].
      * rewrite (typeText_next_string w Hd Ht Hc Hn) by lia.
        destruct (index_in_range (Options.strings (options (this w)))
                    (currentStringIndex (this w) + 1)) as [s' Hs']; [lia|].
        eexists; eexists. split; [reflexivity|].
        split; [reflexivity|].
        split; [|split; [reflexivity|split]].
        -- unfold live, charIndexInBounds, getCurrentString, string_length. cbn.
           repeat split; try assumption; lia.
        -- exact Hquiet.
        -- left. unfold remaining, getCurrentString. cbn. rewrite Ht, Hs'. cbn [nullish].
           rewrite (strings_cost_from _ _ _ Hs'). lia.
      * rewrite (typeText_wraps w Hd Ht Hc Hn) by (lia || assumption).
        eexists; eexists. split; [reflexivity|].
        split; [reflexivity|].
        split; [|split; [reflexivity|split]].
        -- unfold live, charIndexInBounds, getCurrentString, string_length. cbn.
           repeat split; try assumption; lia.
        -- exact Hquiet.
        -- right. unfold remaining, cycle_start. cbn. rewrite Ht.
           rewrite strings_cost_past_end by lia.
           repeat split; try reflexivity; lia.
Qed.

Lemma window_ok_schedule_step (d : R) (w : World) :
  window_ok (window w) -> window_ok (window (schedule_step d w)).
Proof.
  intros [Hn Hts]. unfold schedule_step, window_ok. cbn. split; [lia|].
  apply Forall_app. split.
  - eapply Forall_impl; [|exact Hts]. cbn. intros t Ht. lia.
  - repeat constructor; cbn; lia.
Qed.

Lemma window_ok_clearTimeout (h : Z) (w : World) :
  window_ok (window w) -> window_ok (window (world_of (clearTimeout h w))).
Proof.
  intros [Hn Hts]. unfold clearTimeout, window_ok. cbn. split; [exact Hn|].
  apply Forall_forall. intros t Ht. apply filter_In in Ht. destruct Ht as [Ht _].
  revert t Ht. apply Forall_forall. exact Hts.
Qed.

Lemma looping_schedule_step (d : R) (w : World) :
  live (this w) -> window_ok (window w) -> looping (schedule_step d w).
Proof.
  intros Hlive Hok. split; [exact Hlive|]. split.
  - apply window_ok_schedule_step. exact Hok.
  - exists (nextHandle (window w)), d. split; [reflexivity|].
    apply find_timer_schedule_step. exact Hok.
Qed.

(** The host fires the awaited step of a looping instance. *)
Lemma tick_looping (w : World) :
  looping w ->
  looping (tick w) /\
  options (this (tick w)) = options (this w) /\
  (exists es, calls (tick w) = calls w ++ es /\ ~ In Complete es) /\
  (remaining (this (tick w)) = remaining (this w) - 1
   \/ remaining (this w) = 1 /\ cycle_start (this (tick w)) /\
      (exists h, timeoutId (this (tick w)) = Some h /\
                 find_timer h (tick w) = Some (mkTimer h StepCallback 500%R false)) /\
      isTyping (this w) = false /\ currentCharIndex (this w) = 0 /\
      currentStringIndex (this w) + 1 = array_length (Options.strings (options (this w))) /\
      calls (tick w) = calls w).
Proof.
  intros [Hlive [Hok [h [d0 [Hid Hfind]]]]].
  unfold tick. rewrite Hid. unfold fire. rewrite Hfind.
  cbn [repeating callback run_callback].
  set (w1 := world_of (clearTimeout h w)).
  assert (live (this w1)) as Hlive1 by exact Hlive.
  assert (window_ok (window w1)) as Hok1 by (apply window_ok_clearTimeout; exact Hok).
  destruct (typeText_live w1 Hlive1) as [d [w' [Heq [Hwin [Hlive' [Hopt [Hlog Hcase]]]]]]].
  rewrite Heq. cbn [world_of].
  assert (window_ok (window w')) as Hok' by (rewrite Hwin; exact Hok1).
  split; [apply looping_schedule_step; assumption|].
  split; [exact Hopt|].
  split; [exact Hlog|].
  destruct Hcase as [Hdec | [Hone [Hstart [Hd [Ht [Hc [Hi Hcalls]]]]]]].
  - left. exact Hdec.
  - right. split; [exact Hone|]. split; [exact Hstart|]. split.
    + exists (nextHandle (window w')). split; [reflexivity|]. subst d.
      apply find_timer_schedule_step. exact Hok'.
    + repeat split; assumption.
Qed.

(** However many awaited steps fire, a looping instance keeps looping: a
    next step is always scheduled and [onComplete] is never called. *)
Lemma iter_tick_looping (n : nat) (w : World) :
  looping w ->
  looping (Nat.iter n tick w) /\
  options (this (Nat.iter n tick w)) = options (this w) /\
  (exists es, calls (Nat.iter n tick w) = calls w ++ es /\ ~ In Complete es).
Proof.
  intros Hw. induction n as [|n [IHl [IHo [es [IHc IHn]]]]].
  - change (Nat.iter 0 tick w) with w.
    split; [exact Hw|]. split; [reflexivity|].
    exists []. rewrite app_nil_r. split; [reflexivity | intros []].
  - change (Nat.iter (S n) tick w) with (tick (Nat.iter n tick w)).
    destruct (tick_looping _ IHl) as [Hl [Ho [[es' [Hc Hn]] _]]].
    split; [exact Hl|]. split; [rewrite Ho; exact IHo|].
    exists (es ++ es'). split.
    + rewrite Hc, IHc, app_assoc. reflexivity.
    + intros Hin. apply in_app_or in Hin. tauto.
Qed.

(** From any point of the loop the instance gets back to the start of a
    pass, after [remaining] steps. *)
Lemma reaches_cycle_start (k : nat) (w : World) :
  looping w ->
  remaining (this w) = Z.of_nat (S k) ->
  cycle_start (this (Nat.iter (S k) tick w)).
Proof.
  revert w. induction k as [|k IH]; intros w Hw Hrem.
  - change (Nat.iter 1 tick w) with (tick w).
    destruct (tick_looping w Hw) as [[Hlive _] [_ [_ [Hdec | [_ [Hstart _]]]]]].
    + apply remaining_pos in Hlive. lia.
    + exact Hstart.
  - rewrite Nat.iter_succ_r.
    destruct (tick_looping w Hw) as [Hl [_ [_ [Hdec | [Hone _]]]]].
    + apply IH; [exact Hl | lia].
    + lia.
Qed.

Lemma cycle_start_recurs (w : World) (n : nat) :
  looping w ->
  exists m, (n < m)%nat /\ cycle_start (this (Nat.iter m tick w)).
Proof.
  intros Hw.
  destruct (iter_tick_looping n w Hw) as [Hn _].
  pose proof (remaining_pos _ (proj1 Hn)) as Hpos.
  set (wn := Nat.iter n tick w) in *.
  destruct (Z.to_nat (remaining (this wn))) as [|k] eqn:Hk; [lia|].
  exists (S k + n)%nat. split; [lia|].
  rewrite Nat.iter_add. apply reaches_cycle_start; [exact Hn | fold wn; lia].
Qed.

(** [stop()] takes the awaited step off the host's list. *)
Lemma stop_cancels_awaited_step (w : World) (h : Z) :
  window_ok (window w) ->
  awaiting_step w ->
  timeoutId (this w) = Some h ->
  timeoutId (this (world_of (stop w))) = None /\
  find_timer h (world_of (stop w)) = None.
Proof.
  intros [_ Hts] [h' [d [Hid Hfind]]] Hh. rewrite Hh in Hid. injection Hid as <-.
  assert (0 < h) as Hpos.
  { unfold find_timer in Hfind. apply find_some in Hfind. destruct Hfind as [Hin _].
    rewrite Forall_forall in Hts. apply Hts in Hin. cbn in Hin. lia. }
  js_unfold. rewrite Hh. cbn [truthy nullish].
  assert ((h =? 0) = false) as -> by lia. cbn.
  split; [reflexivity|].
  unfold find_timer. cbn.
  destruct (find _ _) as [t|] eqn:Hf; [|reflexivity].
  apply find_some in Hf. destruct Hf as [Hin Heq].
  apply filter_In in Hin. destruct Hin as [_ Hne].
  rewrite Heq in Hne. discriminate.
Qed.

(** A looping configuration without start delay is looping as soon as it is
    constructed. *)
Lemma construct_now_looping (o : TypedTextOptions.t) :
  TypedTextOptions.strings o <> [] ->
  Options.loop (Options.resolve o) = true ->
  looping (construct_now o).
Proof.
  intros Hss Hloop. unfold construct_now.
  destruct o as [ss ts lp cv sc cc bs bd sd oc osc oss]. cbn in Hss, Hloop.
  destruct ss as [|s ss]; [congruence|].
  unfold init_choice, startCursorBlink, setInterval, add_timer, bind, get_this, update, ret.
  destruct sc as [[|]|]; cbn -[typeText];
    match goal with
    | |- context [typeText ?W] =>
        assert (live (this W)) as Hlive
          by (unfold live, charIndexInBounds, getCurrentString, string_length,
                array_length; cbn; repeat split; try assumption; lia);
        assert (window_ok (window W)) as Hok
          by (split; [reflexivity | repeat constructor]);
        destruct (typeText_live W Hlive) as [d [w' [-> [Hwin [Hlive' _]]]]]
    end;
    cbn [world_of]; apply looping_schedule_step;
    try assumption; rewrite Hwin; exact Hok.
Qed.

Lemma ab_erased_reached :
  constructor Node looping_ab newWindow = Some (construct_now looping_ab) /\
  run [Fire 2; Fire 3; Fire 4; Fire 5; Fire 6; Fire 7] (construct_now looping_ab) = ab_erased.
Proof.
  split.
  - apply constructor_now_of; [discriminate | cbn; lra].
  - vm_compute. reflexivity.
Qed.

Lemma ab_erased_looping : looping ab_erased.
Proof.
  split; [|split].
  - unfold live, charIndexInBounds.
    repeat split; try reflexivity; vm_compute; discriminate.
  - split; [reflexivity|]. repeat constructor.
  - exists 8, 25%R. split; reflexivity.
Qed.

(** C9.  With [loop] set, the step that finds the last string erased
    wraps [currentStringIndex] to 0, sets the phase back to Typing and
    schedules the next step (after 500ms) without calling [onComplete].
    From there on the awaited step is always followed by another one,
    [onComplete] is never called, and the instance is back at the start of a
    pass over the strings again and again.  [stop()] takes the awaited step
    off the host's list. *)
Theorem loop_wraps_and_repeats (w : World) :
  looping w ->
  isTyping (this w) = false ->
  currentCharIndex (this w) = 0 ->
  currentStringIndex (this w) + 1 = array_length (Options.strings (options (this w))) ->
  (currentStringIndex (this (tick w)) = 0 /\
   currentCharIndex (this (tick w)) = 0 /\
   isTyping (this (tick w)) = true /\
   (exists h, timeoutId (this (tick w)) = Some h /\
              find_timer h (tick w) = Some (mkTimer h StepCallback 500%R false)) /\
   calls (tick w) = calls w) /\
  (forall n, looping (Nat.iter n tick w) /\
             exists es, calls (Nat.iter n tick w) = calls w ++ es /\ ~ In Complete es) /\
  (forall n, exists m, (n < m)%nat /\ cycle_start (this (Nat.iter m tick w))) /\
  (forall h, timeoutId (this w) = Some h ->
             timeoutId (this (world_of (stop w))) = None /\
             find_timer h (world_of (stop w)) = None).
Proof.
  intros Hw Ht Hc Hi. split; [|split; [|split]].
  - destruct (tick_looping w Hw)
      as [[Hlive _] [_ [_ [Hdec | [_ [[Hs0 [Hs1 Hs2]] [Hh [_ [_ [_ Hcalls]]]]]]]]]].
    + apply remaining_pos in Hlive. unfold remaining in Hdec at 2.
      rewrite Ht, Hc, strings_cost_past_end in Hdec by lia. lia.
    + repeat split; assumption.
  - intros n. destruct (iter_tick_looping n w Hw) as [Hl [_ Hes]]. split; assumption.
  - intros n. apply cycle_start_recurs. exact Hw.
  - intros h Hh. destruct Hw as [_ [Hok Haw]].
    apply stop_cancels_awaited_step; assumption.
Qed.

Lemma loop_wraps_and_repeats_witness :
  currentStringIndex (this (tick ab_erased)) = 0 /\
  isTyping (this (tick ab_erased)) = true /\
  calls (tick ab_erased) = calls ab_erased /\
  looping (Nat.iter 8 tick ab_erased) /\
  find_timer 8 (world_of (stop ab_erased)) = None.
Proof.
  destruct (loop_wraps_and_repeats ab_erased ab_erased_looping eq_refl eq_refl eq_refl)
    as [[H1 [_ [H3 [_ H5]]]] [Hloop [_ Hstop]]].
  exact (conj H1 (conj H3 (conj H5 (conj (proj1 (Hloop 8%nat)) (proj2 (Hstop 8 eq_refl)))))).
Defined.

(** ** Supplements *)

(** Under the bound on [currentCharIndex], a character left to erase means
    the current string exists: the step of [backspacing_step] applies. *)
Lemma current_string_exists (t : TypedText) :
  charIndexInBounds t ->
  currentCharIndex t > 0 ->
  index (Options.strings (options t)) (currentStringIndex t) = Some (getCurrentString t).
Proof.
  unfold charIndexInBounds, getCurrentString, string_length. intros [_ Hb] Hc.
  destruct (index _ _) as [s|]; [reflexivity|]. cbn in Hb. lia.
Qed.

Lemma window_ok_add (n : Z) (ts : list Timer) (cb : Callback) (d : R) (rep : bool) :
  window_ok (mkWindow n ts) ->
  window_ok (mkWindow (n + 1) (ts ++ [mkTimer n cb d rep])).
Proof.
  intros [Hn Hts]. cbn in *. split; cbn; [lia|].
  apply Forall_app. split.
  - eapply Forall_impl; [|exact Hts]. cbn. intros t Ht. lia.
  - repeat constructor; cbn; lia.
Qed.

Lemma window_ok_filter (n : Z) (ts : list Timer) (f : Timer -> bool) :
  window_ok (mkWindow n ts) -> window_ok (mkWindow n (filter f ts)).
Proof.
  intros [Hn Hts]. cbn in *. split; cbn; [exact Hn|].
  apply Forall_forall. intros t Ht. apply filter_In in Ht. destruct Ht as [Ht _].
  revert t Ht. apply Forall_forall. exact Hts.
Qed.

Create HintDb window.
#[local] Hint Resolve window_ok_add window_ok_filter : window.

Lemma typeText_window_ok (w : World) :
  window_ok (window w) -> window_ok (window (world_of (typeText w))).
Proof.
  destruct w as [t [n ts] cs]. cbn [window]. intros H.
  js_unfold. cbn. split_ifs; cbn; auto 6 with window.
Qed.

Lemma cursorTick_window_ok (w : World) :
  window_ok (window w) -> window_ok (window (world_of (cursorTick w))).
Proof. intros H. js_unfold. destruct (isDestroyed (this w)); exact H. Qed.

Lemma perform_window_ok (a : Action) (w : World) :
  window_ok (window w) -> window_ok (window (perform a w)).
Proof.
  intros H. destruct a; cbn [perform].
  - unfold fire. destruct (find_timer h w) as [t|]; [|exact H].
    assert (window_ok (window (if repeating t then w else world_of (clearTimeout h w))))
      as H' by (destruct (repeating t); [exact H | apply window_ok_clearTimeout; exact H]).
    destruct (callback t); cbn [run_callback].
    + apply typeText_window_ok; exact H'.
    + apply cursorTick_window_ok; exact H'.
  - unfold start, bind, get_this, update, ret.
    destruct (isDestroyed (this w)); [exact H|].
    apply typeText_window_ok. exact H.
  - destruct w as [t [n ts] cs]. cbn [window] in H. js_unfold. cbn.
    split_ifs; cbn; auto 6 with window.
  - destruct w as [t [n ts] cs]. cbn [window] in H. js_unfold. cbn.
    split_ifs; cbn; auto 6 with window.
  - destruct w as [t [n ts] cs]. cbn [window] in H. js_unfold. cbn.
    split_ifs; cbn; auto 6 with window.
  - js_unfold. destruct (isDestroyed (this w)); exact H.
Qed.

Lemma init_window_ok (w : World) :
  window_ok (window w) -> window_ok (window (world_of (init w))).
Proof.
  destruct w as [t [n ts] cs]. cbn [window]. intros H.
  unfold init, startCursorBlink, setInterval, setTimeout, add_timer,
    bind, get_this, update, ret.
  cbn -[typeText]. split_ifs; cbn -[typeText];
    try (apply typeText_window_ok; cbn); auto 6 with window.
Qed.

Lemma constructor_window_ok element o w :
  constructor element o newWindow = Some w -> window_ok (window w).
Proof.
  unfold constructor. intros H.
  assert (window_ok
            (window (world_of (init (mkWorld (fresh (Options.resolve o)) newWindow [])))))
    as Hok.
  { apply init_window_ok. split; [reflexivity | constructor]. }
  destruct element as [|[|]]; try discriminate;
    destruct (init _) as [u w'|w']; try discriminate;
    injection H as <-; exact Hok.
Qed.

(** In every world an instance can be in, the handles on the host's list
    are positive and below the next handle. *)
Lemma reachable_window_ok (w : World) : reachable w -> window_ok (window w).
Proof.
  induction 1 as [element o w Hnew | a w _ IH].
  - eapply constructor_window_ok; eassumption.
  - apply perform_window_ok; exact IH.
Qed.

(** [start()] and the steps it runs cancel nothing: every timer active
    before the call is active after it. *)
Lemma start_cancels_nothing (w : World) :
  incl (timers (window w)) (timers (window (world_of (start w)))).
Proof.
  js_unfold. split_ifs; cbn; try apply incl_refl; apply incl_appl; apply incl_refl.
Qed.


(* ================================================================= *)
(** * Supplements: the rest of the class *)

(** ** Every way a step can go *)

Lemma array_length_zero {A : Type} (xs : list A) : array_length xs = 0 -> xs = [].
Proof. destruct xs; [reflexivity|]. unfold array_length. cbn [List.length]. lia. Qed.

Lemma typeText_typing_throws (w : World) :
  isDestroyed (this w) = false ->
  array_length (Options.strings (options (this w))) <> 0 ->
  isTyping (this w) = true ->
  index (Options.strings (options (this w))) (currentStringIndex (this w)) = None ->
  typeText w = Abrupt (with_calls (start_calls w) w).
Proof.
  intros Hd Hn Ht Hs. js_unfold. apply Z.eqb_neq in Hn. rewrite Hn, Hd, Ht, Hs. cbn [orb].
  unfold with_calls, start_calls, call_if.
  destruct (currentCharIndex (this w) =? 0);
    [destruct (Options.onStringStart (options (this w)))|];
    cbn; rewrite ?app_nil_r; try reflexivity; destruct w; reflexivity.
Qed.

Lemma typeText_backspacing_throws (w : World) :
  isDestroyed (this w) = false ->
  array_length (Options.strings (options (this w))) <> 0 ->
  isTyping (this w) = false ->
  index (Options.strings (options (this w))) (currentStringIndex (this w)) = None ->
  currentCharIndex (this w) > 0 ->
  typeText w = Abrupt (with_this (fun t => set_currentCharIndex (currentCharIndex t - 1) t) w).
Proof.
  intros Hd Hn Ht Hs Hc. js_unfold. apply Z.eqb_neq in Hn. rewrite Hn, Hd, Ht, Hs. cbn [orb].
  apply Z.gtb_gt in Hc. rewrite Hc. reflexivity.
Qed.

Lemma typeText_cases (w : World) : StepCase w.
Proof.
  destruct (isDestroyed (this w)) eqn:Hd.
  { apply step_idle; [right; exact Hd | apply typeText_destroyed; exact Hd]. }
  destruct (Z.eq_dec (array_length (Options.strings (options (this w)))) 0) as [Hz|Hn].
  { apply array_length_zero in Hz.
    apply step_idle; [left; exact Hz | apply typeText_no_strings; exact Hz]. }
  destruct (isTyping (this w)) eqn:Ht;
    destruct (index (Options.strings (options (this w))) (currentStringIndex (this w)))
      as [s|] eqn:Hs.
  - destruct (Z_lt_le_dec (currentCharIndex (this w)) (string_length s)) as [Hc|Hc].
    + apply (step_types w s); try assumption.
      apply (typeText_types w s); assumption.
    + apply (step_string_complete w s); try assumption.
      apply (typeText_string_complete w s); assumption.
  - apply step_typing_throws; try assumption.
    apply typeText_typing_throws; assumption.
  - destruct (Z_lt_le_dec 0 (currentCharIndex (this w))) as [Hc|Hc].
    + apply (step_backspaces w s); try assumption; [lia|].
      apply (typeText_backspaces w s); [assumption..|lia].
    + destruct (Z_lt_le_dec (currentStringIndex (this w) + 1)
                  (array_length (Options.strings (options (this w))))) as [Hi|Hi].
      * apply step_next_string; try assumption. apply typeText_next_string; assumption.
      * destruct (Options.loop (options (this w))) eqn:Hl.
        -- apply step_wraps; try assumption. apply typeText_wraps; assumption.
        -- apply step_completes; try assumption. apply typeText_completes; assumption.
  - destruct (Z_lt_le_dec 0 (currentCharIndex (this w))) as [Hc|Hc].
    + apply step_backspacing_throws; try assumption; [lia|].
      apply typeText_backspacing_throws; [assumption..|lia].
    + destruct (Z_lt_le_dec (currentStringIndex (this w) + 1)
                  (array_length (Options.strings (options (this w))))) as [Hi|Hi].
      * apply step_next_string; try assumption. apply typeText_next_string; assumption.
      * destruct (Options.loop (options (this w))) eqn:Hl.
        -- apply step_wraps; try assumption. apply typeText_wraps; assumption.
        -- apply step_completes; try assumption. apply typeText_completes; assumption.
Qed.

(** ** The shape of the speed curves *)

Section CurveShape.
Local Open Scope R_scope.

Lemma cube_monotone (x y : R) : 0 <= x <= y -> x ^ 3 <= y ^ 3.
Proof.
  intros [H0 H1]. simpl. rewrite !Rmult_1_r.
  assert (x * x <= y * y) by nra.
  assert (0 <= x * x) by nra.
  nra.
Qed.

Lemma sine_curve_monotone (p q : R) :
  0 <= p <= q -> q <= 1 -> sin (p * PI - PI / 2) <= sin (q * PI - PI / 2).
Proof.
  intros [H0 H1] H2. pose proof PI_RGT_0 as Hpi.
  destruct (Req_dec p q) as [->|Hne]; [lra|].
  left. apply sin_increasing_1; nra.
Qed.

Lemma getSpeedMultiplier_monotone (c : TypeSpeedCurvature) (p q : R) :
  0 <= p <= q -> q <= 1 -> getSpeedMultiplier p c <= getSpeedMultiplier q c.
Proof.
  intros [H0 H1] H2. destruct c; simpl getSpeedMultiplier.
  - lra.
  - destruct (Rltb p 0.5) eqn:Hp; destruct (Rltb q 0.5) eqn:Hq.
    + pose proof (cube_monotone p q (conj H0 H1)) as Hc. simpl in Hc.
      rewrite !Rmult_1_r in Hc. nra.
    + apply Rltb_lt in Hp. apply Rltb_ge in Hq.
      assert (0 <= (-2 * q + 2) ^ 3 <= 1) as [Ha Hb]
          by (apply cube_unit_interval; lra).
      pose proof (cube_monotone p 0.5) as Hc. simpl in Hc.
      rewrite !Rmult_1_r in Hc. assert (p * (p * p) <= 0.5 * (0.5 * 0.5)) by (apply Hc; lra).
      lra.
    + apply Rltb_ge in Hp. apply Rltb_lt in Hq. lra.
    + pose proof (cube_monotone (-2 * q + 2) (-2 * p + 2)) as Hc.
      assert ((-2 * q + 2) ^ 3 <= (-2 * p + 2) ^ 3) by (apply Hc; lra).
      lra.
  - change (p ^ 3 <= q ^ 3). apply cube_monotone. lra.
  - pose proof (sine_curve_monotone p q (conj H0 H1) H2). lra.
Qed.

Lemma getSpeedMultiplier_at_0 (c : TypeSpeedCurvature) :
  c <> linear -> getSpeedMultiplier 0 c = 0.
Proof.
  intros Hc. destruct c; [congruence| | |]; simpl getSpeedMultiplier.
  - rewrite Rltb_true by lra. lra.
  - lra.
  - replace (0 * PI - PI / 2) with (- (PI / 2)) by lra.
    rewrite sin_neg, sin_PI2. lra.
Qed.

Lemma getSpeedMultiplier_at_1 (c : TypeSpeedCurvature) : getSpeedMultiplier 1 c = 1.
Proof.
  destruct c; simpl getSpeedMultiplier.
  - reflexivity.
  - rewrite Rltb_false by lra. lra.
  - lra.
  - replace (1 * PI - PI / 2) with (PI / 2) by lra. rewrite sin_PI2. lra.
Qed.

End CurveShape.

Lemma getCurrentTypeSpeed_at_end (t : TypedText) (s : string) :
  index (Options.strings (options t)) (currentStringIndex t) = Some s ->
  currentCharIndex t = string_length s ->
  getCurrentTypeSpeed t = Options.typeSpeed (options t).
Proof.
  intros Hs Hc. unfold getCurrentTypeSpeed. rewrite Hs, Hc.
  destruct (TypeSpeedCurvature_eqb _ linear); [reflexivity|].
  destruct s as [|a s]; cbn [truthy_string negb nullish]; [reflexivity|].
  set (n := string_length (String a s)).
  assert (0 < n) by (unfold n, string_length; cbn [String.length]; lia).
  assert (IZR n <> 0%R) by (apply not_0_IZR; lia).
  replace (IZR n / IZR n)%R with 1%R by (field; assumption).
  rewrite getSpeedMultiplier_at_1. lra.
Qed.

Lemma getCurrentTypeSpeed_antitone (t : TypedText) (s : string) (a b : Z) :
  index (Options.strings (options t)) (currentStringIndex t) = Some s ->
  0 <= a <= b -> b <= string_length s ->
  (0 <= Options.typeSpeed (options t))%R ->
  (getCurrentTypeSpeed (set_currentCharIndex b t)
   <= getCurrentTypeSpeed (set_currentCharIndex a t))%R.
Proof.
  intros Hs [Ha Hab] Hb Hts. unfold getCurrentTypeSpeed. cbn. rewrite Hs.
  destruct (TypeSpeedCurvature_eqb _ linear); [lra|].
  destruct s as [|c s]; cbn [truthy_string negb nullish]; [lra|].
  set (n := string_length (String c s)) in *.
  assert (0 < n) by (unfold n, string_length; cbn [String.length]; lia).
  assert (0 < IZR n)%R by (apply IZR_lt; assumption).
  assert (0 <= IZR a)%R by (apply IZR_le; lia).
  assert (IZR a <= IZR b)%R by (apply IZR_le; lia).
  assert (IZR b <= IZR n)%R by (apply IZR_le; lia).
  assert (0 < / IZR n)%R by (apply Rinv_0_lt_compat; assumption).
  assert (getSpeedMultiplier (IZR a / IZR n) (Options.typeSpeedCurvature (options t))
          <= getSpeedMultiplier (IZR b / IZR n) (Options.typeSpeedCurvature (options t)))%R.
  { apply getSpeedMultiplier_monotone.
    - unfold Rdiv. split; [apply Rmult_le_pos; lra|].
      apply Rmult_le_compat_r; lra.
    - apply Rmult_le_reg_r with (r := IZR n); [assumption|].
      unfold Rdiv. rewrite Rmult_assoc, Rinv_l by lra. lra. }
  nra.
Qed.

(** X1.  For the curves [bezier], [exponential] and [sine] the multiplier
    is 0 at progress 0, 1 at progress 1 and never decreases in between. *)
Theorem speed_curve_shape (c : TypeSpeedCurvature) :
  c <> linear ->
  getSpeedMultiplier 0 c = 0%R /\
  getSpeedMultiplier 1 c = 1%R /\
  forall p q : R, (0 <= p <= q)%R -> (q <= 1)%R ->
                  (getSpeedMultiplier p c <= getSpeedMultiplier q c)%R.
Proof.
  intros Hc. split; [apply getSpeedMultiplier_at_0; exact Hc|].
  split; [apply getSpeedMultiplier_at_1|].
  intros p q Hpq Hq. apply getSpeedMultiplier_monotone; assumption.
Qed.

Lemma speed_curve_shape_witness :
  getSpeedMultiplier 0 bezier = 0%R /\
  getSpeedMultiplier 1 bezier = 1%R /\
  forall p q : R, (0 <= p <= q)%R -> (q <= 1)%R ->
                  (getSpeedMultiplier p bezier <= getSpeedMultiplier q bezier)%R.
Proof.
  apply (speed_curve_shape bezier). discriminate.
Defined.

(** X2.  A typing step that types a character schedules the next step
    after a delay between [typeSpeed] and [3 * typeSpeed], whatever the
    curve, and after exactly [typeSpeed] when the character is the last of
    its string (the progress is taken after the character is counted). *)
Theorem typing_step_delay (w : World) (s : string) :
  isDestroyed (this w) = false ->
  isTyping (this w) = true ->
  index (Options.strings (options (this w))) (currentStringIndex (this w)) = Some s ->
  0 <= currentCharIndex (this w) < string_length s ->
  (0 <= Options.typeSpeed (options (this w)))%R ->
  exists d w',
    typeText w = Normal tt w' /\
    timers (window w')
    = timers (window w) ++ [mkTimer (nextHandle (window w)) StepCallback d false] /\
    (Options.typeSpeed (options (this w)) <= d <= 3 * Options.typeSpeed (options (this w)))%R /\
    (currentCharIndex (this w) + 1 = string_length s ->
     d = Options.typeSpeed (options (this w))).
Proof.
  intros Hd Ht Hs [Hc0 Hc1] Hts.
  rewrite (typeText_types w s Hd Ht Hs Hc1). cbv zeta.
  match goal with
  | |- context [schedule_step (getCurrentTypeSpeed ?T) ?W] => set (t2 := T); set (w2 := W)
  end.
  assert (index (Options.strings (options t2)) (currentStringIndex t2) = Some s) as Hs2
      by exact Hs.
  assert (currentCharIndex t2 = currentCharIndex (this w) + 1) as Hc2 by reflexivity.
  exists (getCurrentTypeSpeed t2), (schedule_step (getCurrentTypeSpeed t2) w2).
  split; [reflexivity|]. split; [reflexivity|]. split.
  - apply (getCurrentTypeSpeed_bounds t2); [exact Hts|].
    unfold getCurrentString. rewrite Hs2, Hc2. cbn [nullish]. lia.
  - intros Hlast. apply (getCurrentTypeSpeed_at_end t2 s Hs2). lia.
Qed.

Lemma typing_step_delay_witness :
  exists d w',
    typeText (with_this (set_options (Options.resolve (defaults ["Hi"%string])))
                (Hi_world 1 true)) = Normal tt w' /\
    (50 <= d <= 3 * 50)%R /\ d = 50%R /\
    timers (window w')
    = [mkTimer 1 BlinkCallback 530%R true; mkTimer 4 StepCallback d false].
Proof.
  assert (0 <= 50)%R as Hts by lra.
  destruct (typing_step_delay
              (with_this (set_options (Options.resolve (defaults ["Hi"%string])))
                 (Hi_world 1 true))
              "Hi" eq_refl eq_refl eq_refl (conj (Z.le_0_1) eq_refl) Hts)
    as [d [w' [H1 [H2 [H3 H4]]]]].
  exists d, w'. exact (conj H1 (conj H3 (conj (H4 eq_refl) H2))).
Defined.

(** X3.  Within a string typing never slows down: the delay computed at a
    later character index is at most the delay computed at an earlier one
    (for a [typeSpeed] that is not negative). *)
Theorem typing_never_slows_down (t : TypedText) (s : string) (a b : Z) :
  index (Options.strings (options t)) (currentStringIndex t) = Some s ->
  0 <= a <= b ->
  b <= string_length s ->
  (0 <= Options.typeSpeed (options t))%R ->
  (getCurrentTypeSpeed (set_currentCharIndex b t)
   <= getCurrentTypeSpeed (set_currentCharIndex a t))%R.
Proof. apply getCurrentTypeSpeed_antitone. Qed.

Lemma typing_never_slows_down_witness :
  (getCurrentTypeSpeed (set_currentCharIndex 3 (this (construct_now (defaults ["abc"%string]))))
   <= getCurrentTypeSpeed
        (set_currentCharIndex 1 (this (construct_now (defaults ["abc"%string])))))%R.
Proof.
  assert (0 <= 50)%R as Hts by lra.
  assert (0 <= 1 <= 3) as Hab by lia.
  assert (3 <= 3) as Hb by lia.
  exact (typing_never_slows_down (this (construct_now (defaults ["abc"%string])))
           "abc" 1 3 eq_refl Hab Hb Hts).
Defined.

(** ** The methods in one piece *)

Lemma stop_eq (w : World) :
  stop w =
    Normal tt
      (if truthy (timeoutId (this w))
       then with_this (set_timeoutId None)
              (world_of (clearTimeout (nullish (timeoutId (this w)) 0) w))
       else w).
Proof. js_unfold. destruct (truthy (timeoutId (this w))); reflexivity. Qed.

Lemma stopCursorBlink_eq (w : World) :
  stopCursorBlink w =
    Normal tt
      (with_this (fun t => set_cursorHidden false (set_showCursor true t))
         (if truthy (cursorIntervalId (this w))
          then with_this (set_cursorIntervalId None)
                 (world_of (clearTimeout (nullish (cursorIntervalId (this w)) 0) w))
          else w)).
Proof. js_unfold. destruct (truthy (cursorIntervalId (this w))); reflexivity. Qed.

Lemma start_eq (w : World) :
  start w = if isDestroyed (this w) then Normal tt w else typeText (with_this rewind w).
Proof. js_unfold. destruct (isDestroyed (this w)); reflexivity. Qed.

Lemma reset_eq (w : World) :
  reset w =
    Normal tt
      (if isDestroyed (this w) then w
       else with_this (fun t => set_textContent EmptyString
                                  (set_displayText EmptyString (rewind t)))
              (world_of (stop w))).
Proof.
  unfold reset, bind, get_this. destruct (isDestroyed (this w)); [reflexivity|].
  rewrite stop_eq. reflexivity.
Qed.

Lemma destroy_eq (w : World) :
  destroy w =
    Normal tt
      (with_this (set_children [])
         (world_of (stopCursorBlink
                      (world_of (stop (with_this (set_isDestroyed true) w)))))).
Proof.
  js_unfold. unfold with_this. cbn.
  destruct (truthy (timeoutId (this w))); cbn;
    destruct (truthy (cursorIntervalId (this w))); reflexivity.
Qed.

Lemma updateOptions_eq (p : PartialOptions.t) (w : World) :
  updateOptions p w =
    Normal tt
      (if isDestroyed (this w) then w
       else with_this (fun t => set_options (Options.merge (options t) p) t) w).
Proof. js_unfold. destruct (isDestroyed (this w)); reflexivity. Qed.

Lemma cursorTick_eq (w : World) :
  cursorTick w =
    Normal tt
      (if isDestroyed (this w) then w
       else with_this (fun t => set_cursorHidden (showCursor t)
                                  (set_showCursor (negb (showCursor t)) t)) w).
Proof.
  js_unfold. destruct (isDestroyed (this w)); [reflexivity|].
  unfold with_this. cbn. rewrite negb_involutive. reflexivity.
Qed.

(** ** What the methods do to the host's list of timers *)

Lemma pendingSteps_schedule_step (d : R) (w : World) :
  pendingSteps (schedule_step d w) = pendingSteps w ++ [nextHandle (window w)].
Proof.
  unfold pendingSteps, schedule_step. cbn [window timers].
  rewrite filter_app, map_app. reflexivity.
Qed.

Lemma pendingBlinks_schedule_step (d : R) (w : World) :
  pendingBlinks (schedule_step d w) = pendingBlinks w.
Proof.
  unfold pendingBlinks, schedule_step. cbn [window timers].
  rewrite filter_app, map_app. cbn. apply app_nil_r.
Qed.

Lemma map_handle_filter (f : Timer -> bool) (h : Z) (ts : list Timer) :
  map handle (filter f (filter (fun t => negb (handle t =? h)) ts))
  = filter (fun x => negb (x =? h)) (map handle (filter f ts)).
Proof.
  induction ts as [|t ts IH]; [reflexivity|]. cbn [filter].
  destruct (handle t =? h) eqn:Hh; destruct (f t) eqn:Hf; cbn [negb filter map];
    rewrite ?Hf, ?Hh; cbn [negb map filter]; rewrite ?Hh; cbn [negb]; rewrite IH; reflexivity.
Qed.

Lemma pendingSteps_clearTimeout (h : Z) (w : World) :
  pendingSteps (world_of (clearTimeout h w))
  = filter (fun x => negb (x =? h)) (pendingSteps w).
Proof. unfold pendingSteps, clearTimeout. cbn. apply map_handle_filter. Qed.

Lemma pendingBlinks_clearTimeout (h : Z) (w : World) :
  pendingBlinks (world_of (clearTimeout h w))
  = filter (fun x => negb (x =? h)) (pendingBlinks w).
Proof. unfold pendingBlinks, clearTimeout. cbn. apply map_handle_filter. Qed.

(** A step either leaves the host alone or sets one timer, for the next
    step, and keeps its handle; it never touches the cursor timer. *)
Lemma typeText_effect (w : World) :
  cursorIntervalId (this (world_of (typeText w))) = cursorIntervalId (this w) /\
  (window (world_of (typeText w)) = window w /\
   timeoutId (this (world_of (typeText w))) = timeoutId (this w)
   \/ exists d,
       window (world_of (typeText w)) = window (schedule_step d w) /\
       timeoutId (this (world_of (typeText w))) = Some (nextHandle (window w))).
Proof.
  destruct (typeText_cases w) as
    [_ Heq | _ _ _ _ Heq | s _ _ _ _ _ Heq | s _ _ _ _ _ Heq | _ _ _ _ _ Heq
     | s _ _ _ _ _ Heq | _ _ _ _ _ Heq | _ _ _ _ _ _ Heq | _ _ _ _ _ _ Heq];
    rewrite Heq; cbn; (split; [reflexivity|]);
    first [left; split; reflexivity | right; eexists; split; reflexivity].
Qed.

Lemma find_timer_In (h : Z) (w : World) (t : Timer) :
  find_timer h w = Some t -> In t (timers (window w)) /\ handle t = h.
Proof.
  unfold find_timer. intros H. apply find_some in H. destruct H as [Hin Heq].
  split; [exact Hin | lia].
Qed.

Lemma In_pendingSteps (w : World) (t : Timer) :
  In t (timers (window w)) -> callback t = StepCallback -> In (handle t) (pendingSteps w).
Proof.
  intros Hin Hcb. unfold pendingSteps. apply in_map. apply filter_In.
  split; [exact Hin | rewrite Hcb; reflexivity].
Qed.

Lemma pendingSteps_handle_pos (w : World) (h : Z) :
  window_ok (window w) -> In h (pendingSteps w) -> 0 < h.
Proof.
  intros [_ Hts] Hin. unfold pendingSteps in Hin. apply in_map_iff in Hin.
  destruct Hin as [t [<- Hin]]. apply filter_In in Hin. destruct Hin as [Hin _].
  rewrite Forall_forall in Hts. apply Hts in Hin. lia.
Qed.

Lemma pendingBlinks_handle_pos (w : World) (h : Z) :
  window_ok (window w) -> In h (pendingBlinks w) -> 0 < h.
Proof.
  intros [_ Hts] Hin. unfold pendingBlinks in Hin. apply in_map_iff in Hin.
  destruct Hin as [t [<- Hin]]. apply filter_In in Hin. destruct Hin as [Hin _].
  rewrite Forall_forall in Hts. apply Hts in Hin. lia.
Qed.

(** The three things the host can do when asked to fire the handle [h]:
    nothing (the handle is not active), run a step after taking its timer
    off the list, or toggle the cursor. *)
Lemma fire_cases (h : Z) (w : World) :
  Forall kind_ok (timers (window w)) ->
  fire h w = w
  \/ In h (pendingSteps w)
     /\ fire h w = world_of (typeText (world_of (clearTimeout h w)))
  \/ fire h w = world_of (cursorTick w).
Proof.
  intros Hk. unfold fire. destruct (find_timer h w) as [t|] eqn:Hf; [|left; reflexivity].
  apply find_timer_In in Hf. destruct Hf as [Hin Hh].
  rewrite Forall_forall in Hk. pose proof (Hk t Hin) as Hkind. unfold kind_ok in Hkind.
  destruct (callback t) eqn:Hcb; rewrite Hkind; cbn [run_callback].
  - right. left. split; [|reflexivity]. rewrite <- Hh. apply In_pendingSteps; assumption.
  - right. right. reflexivity.
Qed.

Lemma kind_ok_clearTimeout (h : Z) (w : World) :
  Forall kind_ok (timers (window w)) ->
  Forall kind_ok (timers (window (world_of (clearTimeout h w)))).
Proof.
  intros Hk. cbn. apply Forall_forall. intros t Ht. apply filter_In in Ht.
  destruct Ht as [Ht _]. revert t Ht. apply Forall_forall. exact Hk.
Qed.

Lemma kind_ok_schedule_step (d : R) (w : World) :
  Forall kind_ok (timers (window w)) ->
  Forall kind_ok (timers (window (schedule_step d w))).
Proof.
  intros Hk. cbn. apply Forall_app. split; [exact Hk|]. repeat constructor.
Qed.

Lemma kind_ok_typeText (w : World) :
  Forall kind_ok (timers (window w)) ->
  Forall kind_ok (timers (window (world_of (typeText w)))).
Proof.
  intros Hk. destruct (typeText_effect w) as [_ [[-> _] | [d [-> _]]]];
    [exact Hk | apply kind_ok_schedule_step; exact Hk].
Qed.

(** A property of the host's list that survives the removal of timers
    survives every method that only cancels. *)
Section Cancelling.
Variable P : Window -> Prop.
Hypothesis P_clear :
  forall h w, P (window w) -> P (window (world_of (clearTimeout h w))).

Lemma cancelling_stop (w : World) : P (window w) -> P (window (world_of (stop w))).
Proof.
  intros H. rewrite stop_eq. cbn [world_of].
  destruct (truthy (timeoutId (this w))); [apply P_clear|]; exact H.
Qed.

Lemma cancelling_stopCursorBlink (w : World) :
  P (window w) -> P (window (world_of (stopCursorBlink w))).
Proof.
  intros H. rewrite stopCursorBlink_eq. cbn [world_of].
  destruct (truthy (cursorIntervalId (this w))); [apply P_clear|]; exact H.
Qed.

Lemma cancelling_reset (w : World) : P (window w) -> P (window (world_of (reset w))).
Proof.
  intros H. rewrite reset_eq. cbn [world_of].
  destruct (isDestroyed (this w)); [exact H|]. apply cancelling_stop. exact H.
Qed.

Lemma cancelling_destroy (w : World) : P (window w) -> P (window (world_of (destroy w))).
Proof.
  intros H. rewrite destroy_eq. cbn [world_of].
  apply cancelling_stopCursorBlink.
  apply (cancelling_stop (with_this (set_isDestroyed true) w)). exact H.
Qed.

Lemma cancelling_updateOptions (p : PartialOptions.t) (w : World) :
  P (window w) -> P (window (world_of (updateOptions p w))).
Proof.
  intros H. rewrite updateOptions_eq. cbn [world_of].
  destruct (isDestroyed (this w)); exact H.
Qed.

Lemma cancelling_cursorTick (w : World) :
  P (window w) -> P (window (world_of (cursorTick w))).
Proof.
  intros H. rewrite cursorTick_eq. cbn [world_of].
  destruct (isDestroyed (this w)); exact H.
Qed.
End Cancelling.

Lemma kind_ok_perform (a : Action) (w : World) :
  Forall kind_ok (timers (window w)) ->
  Forall kind_ok (timers (window (perform a w))).
Proof.
  intros Hk.
  pose (P := fun win : Window => Forall kind_ok (timers win)).
  assert (forall h w, P (window w) -> P (window (world_of (clearTimeout h w)))) as Hclear
      by (intros h0 w0; apply kind_ok_clearTimeout).
  destruct a; cbn [perform].
  - destruct (fire_cases h w Hk) as [-> | [[_ ->] | ->]].
    + exact Hk.
    + apply kind_ok_typeText. apply kind_ok_clearTimeout. exact Hk.
    + apply (cancelling_cursorTick P). exact Hk.
  - rewrite start_eq. destruct (isDestroyed (this w)); [exact Hk|].
    apply kind_ok_typeText. exact Hk.
  - apply (cancelling_stop P Hclear). exact Hk.
  - apply (cancelling_reset P Hclear). exact Hk.
  - apply (cancelling_destroy P Hclear). exact Hk.
  - apply (cancelling_updateOptions P). exact Hk.
Qed.

Lemma kind_ok_init (w : World) :
  Forall kind_ok (timers (window w)) ->
  Forall kind_ok (timers (window (world_of (init w)))).
Proof.
  intros Hk.
  unfold init, startCursorBlink, setInterval, setTimeout, add_timer,
    bind, get_this, update, ret.
  destruct (isDestroyed (this w)) eqn:Hd; [exact Hk|].
  destruct (Options.showCursor (options (this w))) eqn:Hsc;
    destruct (array_length (Options.strings (options (this w))) >? 0) eqn:Hlen;
    destruct (Rltb 0 (Options.startDelay (options (this w)))) eqn:Hr;
    cbn -[typeText]; rewrite ?Hd, ?Hsc; cbn -[typeText];
    try (apply kind_ok_typeText; cbn);
    repeat (apply Forall_app; split; [|repeat constructor]); exact Hk.
Qed.

Lemma constructor_world element o win w :
  constructor element o win = Some w ->
  w = world_of (init (mkWorld (fresh (Options.resolve o)) win [])).
Proof.
  unfold constructor. intros H.
  destruct element as [|[|]]; try discriminate;
    destruct (init _) as [u w'|w']; try discriminate;
    injection H as <-; reflexivity.
Qed.

Lemma reachable_kind_ok (w : World) : reachable w -> Forall kind_ok (timers (window w)).
Proof.
  induction 1 as [element o w Hnew | a w _ IH].
  - apply constructor_world in Hnew. subst w. apply kind_ok_init. constructor.
  - apply kind_ok_perform. exact IH.
Qed.

(** ** One step at a time, when [start] is not called *)

Lemma filter_length_at_most {A : Type} (f : A -> bool) (l : list A) :
  (List.length (filter f l) <= List.length l)%nat.
Proof.
  induction l as [|x l IH]; [apply Nat.le_refl|]. cbn [filter].
  destruct (f x); cbn [List.length]; lia.
Qed.

Lemma pendingSteps_window (w w' : World) :
  window w = window w' -> pendingSteps w = pendingSteps w'.
Proof. unfold pendingSteps. intros ->. reflexivity. Qed.

Lemma pendingBlinks_window (w w' : World) :
  window w = window w' -> pendingBlinks w = pendingBlinks w'.
Proof. unfold pendingBlinks. intros ->. reflexivity. Qed.

Lemma sole_step_cleared (h : Z) (w : World) :
  (List.length (pendingSteps w) <= 1)%nat ->
  In h (pendingSteps w) ->
  pendingSteps (world_of (clearTimeout h w)) = [].
Proof.
  intros Hlen Hin. rewrite pendingSteps_clearTimeout.
  destruct (pendingSteps w) as [|x [|y l]]; cbn in *; try lia; try contradiction.
  destruct Hin as [->|[]]. rewrite Z.eqb_refl. reflexivity.
Qed.

(** A step run while no other step is pending leaves at most its
    successor pending, and then the instance holds its handle. *)
Lemma typeText_from_no_step (w : World) :
  pendingSteps w = [] ->
  pendingSteps (world_of (typeText w)) = []
  \/ pendingSteps (world_of (typeText w)) = [nextHandle (window w)]
     /\ timeoutId (this (world_of (typeText w))) = Some (nextHandle (window w)).
Proof.
  intros Hnone. destruct (typeText_effect w) as [_ [[Hwin _] | [d [Hwin Hid]]]].
  - left. rewrite (pendingSteps_window _ w Hwin). exact Hnone.
  - right. split; [|exact Hid].
    rewrite (pendingSteps_window _ (schedule_step d w) Hwin).
    rewrite pendingSteps_schedule_step, Hnone. reflexivity.
Qed.

Lemma at_most_one_step_perform (a : Action) (w : World) :
  no_start a ->
  Forall kind_ok (timers (window w)) ->
  (List.length (pendingSteps w) <= 1)%nat ->
  (List.length (pendingSteps (perform a w)) <= 1)%nat.
Proof.
  intros Ha Hk Hlen.
  pose (P := fun win : Window =>
               (List.length (pendingSteps (mkWorld (this w) win [])) <= 1)%nat).
  assert (forall h w0, P (window w0) -> P (window (world_of (clearTimeout h w0)))) as Hclear.
  { intros h0 w0 H0. unfold P in *.
    change (List.length (pendingSteps (world_of (clearTimeout h0 w0))) <= 1)%nat.
    rewrite pendingSteps_clearTimeout.
    eapply Nat.le_trans; [apply filter_length_at_most | exact H0]. }
  destruct a; cbn [perform no_start] in *; try contradiction.
  - destruct (fire_cases h w Hk) as [-> | [[Hin ->] | ->]].
    + exact Hlen.
    + pose proof (sole_step_cleared h w Hlen Hin) as Hnone.
      destruct (typeText_from_no_step _ Hnone) as [-> | [-> _]]; cbn; lia.
    + apply (cancelling_cursorTick P). exact Hlen.
  - apply (cancelling_stop P Hclear). exact Hlen.
  - apply (cancelling_reset P Hclear). exact Hlen.
  - apply (cancelling_destroy P Hclear). exact Hlen.
  - apply (cancelling_updateOptions P). exact Hlen.
Qed.

Lemma at_most_one_step_init (w : World) :
  pendingSteps w = [] ->
  (List.length (pendingSteps (world_of (init w))) <= 1)%nat.
Proof.
  intros Hnone.
  unfold init, startCursorBlink, setInterval, setTimeout, add_timer,
    bind, get_this, update, ret.
  destruct (isDestroyed (this w)) eqn:Hd; [cbn [world_of]; rewrite Hnone; cbn; lia|].
  unfold pendingSteps in Hnone.
  destruct (Options.showCursor (options (this w))) eqn:Hsc;
    destruct (array_length (Options.strings (options (this w))) >? 0) eqn:Hlen;
    destruct (Rltb 0 (Options.startDelay (options (this w)))) eqn:Hr;
    cbn -[typeText]; rewrite ?Hd, ?Hsc; cbn -[typeText];
    try match goal with
        | |- context [typeText ?W] =>
            let H := fresh in
            assert (pendingSteps W = []) as H
                by (unfold pendingSteps; cbn; rewrite ?filter_app, ?map_app, ?Hnone;
                    reflexivity);
            destruct (typeText_from_no_step W H) as [-> | [-> _]]; cbn; lia
        end;
    unfold pendingSteps; cbn; rewrite ?filter_app, ?map_app, ?Hnone; cbn; lia.
Qed.

(** X4.  As long as the page does not call [start()], at most one step is
    pending at any time, whatever else happens (steps and cursor callbacks
    fired in any order, [stop], [reset], [destroy], [updateOptions]), with
    or without a start delay. *)
Theorem at_most_one_pending_step_without_start
    (element : ElementArg) (o : TypedTextOptions.t) (w0 : World) (acts : list Action) :
  constructor element o newWindow = Some w0 ->
  Forall no_start acts ->
  (List.length (pendingSteps (run acts w0)) <= 1)%nat.
Proof.
  intros Hnew Hacts.
  assert (Forall kind_ok (timers (window w0)) /\
          (List.length (pendingSteps w0) <= 1)%nat) as Hinv.
  { split.
    - apply reachable_kind_ok. eapply reachable_new. exact Hnew.
    - apply constructor_world in Hnew. subst w0. apply at_most_one_step_init. reflexivity. }
  clear Hnew. revert w0 Hinv.
  induction Hacts as [|a acts Ha _ IH]; intros w0 [Hk Hlen]; [exact Hlen|].
  cbn [run fold_left]. apply IH. split.
  - apply kind_ok_perform. exact Hk.
  - apply at_most_one_step_perform; assumption.
Qed.

Lemma at_most_one_pending_step_without_start_witness :
  (List.length
     (pendingSteps
        (run [Fire 2; Stop; Fire 2; Fire 1; Reset; UpdateOptions (only_typeSpeed 10)]
           (construct_delayed delayed_a))) <= 1)%nat.
Proof.
  apply (at_most_one_pending_step_without_start Node delayed_a).
  - exact constructor_delayed_a.
  - repeat constructor.
Defined.

(** ** The pending step is the one the instance knows *)

Lemma tracked_same (w w' : World) :
  window w' = window w ->
  timeoutId (this w') = timeoutId (this w) ->
  tracked w -> tracked w'.
Proof.
  intros Hwin Hid [Hnone | [h [Hone Hh]]].
  - left. rewrite (pendingSteps_window w' w Hwin). exact Hnone.
  - right. exists h. rewrite (pendingSteps_window w' w Hwin), Hid. split; assumption.
Qed.

Lemma tracked_clearTimeout (h : Z) (w : World) :
  tracked w -> tracked (world_of (clearTimeout h w)).
Proof.
  intros [Hnone | [h' [Hone Hh]]]; unfold tracked; rewrite pendingSteps_clearTimeout.
  - left. rewrite Hnone. reflexivity.
  - rewrite Hone. cbn [filter]. destruct (h' =? h); cbn [negb].
    + left. reflexivity.
    + right. exists h'. split; [reflexivity | exact Hh].
Qed.

Lemma stop_none_pending (w : World) :
  window_ok (window w) -> tracked w -> pendingSteps (world_of (stop w)) = [].
Proof.
  intros Hok Htr. rewrite stop_eq. cbn [world_of].
  destruct Htr as [Hnone | [h [Hone Hh]]].
  - destruct (truthy (timeoutId (this w))); [|exact Hnone].
    change (pendingSteps (world_of (clearTimeout (nullish (timeoutId (this w)) 0) w)) = []).
    rewrite pendingSteps_clearTimeout, Hnone. reflexivity.
  - assert (0 < h) as Hpos
        by (apply (pendingSteps_handle_pos w); [exact Hok | rewrite Hone; left; reflexivity]).
    rewrite Hh. cbn [truthy nullish].
    assert ((h =? 0) = false) as -> by lia. cbn [negb].
    change (pendingSteps (world_of (clearTimeout h w)) = []).
    rewrite pendingSteps_clearTimeout, Hone. cbn. rewrite Z.eqb_refl. reflexivity.
Qed.

Lemma tracked_stop (w : World) : tracked w -> tracked (world_of (stop w)).
Proof.
  intros Htr. rewrite stop_eq. cbn [world_of].
  destruct (truthy (timeoutId (this w))) eqn:Htruthy; [|exact Htr].
  left.
  change (pendingSteps (world_of (clearTimeout (nullish (timeoutId (this w)) 0) w)) = []).
  rewrite pendingSteps_clearTimeout.
  destruct Htr as [Hnone | [h [Hone Hh]]].
  - rewrite Hnone. reflexivity.
  - rewrite Hone, Hh. cbn. rewrite Z.eqb_refl. reflexivity.
Qed.

Lemma tracked_stopCursorBlink (w : World) :
  tracked w -> tracked (world_of (stopCursorBlink w)).
Proof.
  intros Htr. rewrite stopCursorBlink_eq. cbn [world_of].
  destruct (truthy (cursorIntervalId (this w))).
  - apply (tracked_same (world_of (clearTimeout (nullish (cursorIntervalId (this w)) 0) w)));
      [reflexivity | reflexivity | apply tracked_clearTimeout; exact Htr].
  - apply (tracked_same w); [reflexivity | reflexivity | exact Htr].
Qed.

Lemma tracked_perform (a : Action) (w : World) :
  no_start a ->
  Forall kind_ok (timers (window w)) ->
  tracked w -> tracked (perform a w).
Proof.
  intros Ha Hk Htr. destruct a; cbn [perform no_start] in *; try contradiction.
  - destruct (fire_cases h w Hk) as [-> | [[Hin ->] | ->]].
    + exact Htr.
    + assert (pendingSteps (world_of (clearTimeout h w)) = []) as Hnone.
      { apply sole_step_cleared; [|exact Hin].
        destruct Htr as [-> | [h' [-> _]]]; cbn; lia. }
      destruct (typeText_from_no_step _ Hnone) as [Hn | [Hone Hid]].
      * left. exact Hn.
      * right. eexists. split; [exact Hone | exact Hid].
    + rewrite cursorTick_eq. cbn [world_of].
      destruct (isDestroyed (this w)); [exact Htr|].
      apply (tracked_same w); [reflexivity | reflexivity | exact Htr].
  - apply tracked_stop. exact Htr.
  - rewrite reset_eq. cbn [world_of]. destruct (isDestroyed (this w)); [exact Htr|].
    apply (tracked_same (world_of (stop w))); [reflexivity | reflexivity |].
    apply tracked_stop. exact Htr.
  - rewrite destroy_eq. cbn [world_of].
    match goal with
    | |- tracked (with_this _ ?W) =>
        apply (tracked_same W); [reflexivity | reflexivity |]
    end.
    apply tracked_stopCursorBlink. apply tracked_stop.
    apply (tracked_same w); [reflexivity | reflexivity | exact Htr].
  - rewrite updateOptions_eq. cbn [world_of]. destruct (isDestroyed (this w)); [exact Htr|].
    apply (tracked_same w); [reflexivity | reflexivity | exact Htr].
Qed.

Lemma tracked_init_choice (w : World) :
  pendingSteps w = [] -> tracked (world_of (init_choice false w)).
Proof.
  intros Hnone.
  unfold init_choice, startCursorBlink, setInterval, setTimeout, add_timer,
    bind, get_this, update, ret.
  destruct (isDestroyed (this w)) eqn:Hd; [left; exact Hnone|].
  unfold pendingSteps in Hnone.
  destruct (Options.showCursor (options (this w))) eqn:Hsc;
    destruct (array_length (Options.strings (options (this w))) >? 0) eqn:Hlen;
    cbn -[typeText]; rewrite ?Hd, ?Hsc; cbn -[typeText];
    try match goal with
        | |- context [typeText ?W] =>
            let H := fresh in
            assert (pendingSteps W = []) as H
                by (unfold pendingSteps; cbn; rewrite ?filter_app, ?map_app, ?Hnone;
                    reflexivity);
            destruct (typeText_from_no_step W H) as [Hn | [Hone Hid]];
            [left; exact Hn | right; eexists; split; [exact Hone | exact Hid]]
        end;
    left; unfold pendingSteps; cbn; rewrite ?filter_app, ?map_app, ?Hnone; reflexivity.
Qed.

(** X5.  For an instance built without start delay and a page that never
    calls [start()]: a step that is pending is the only one and its handle
    is in [timeoutId], so [isRunning()] is [true] whenever a step is pending;
    and after [stop()] no step is pending. *)
Theorem pending_step_is_tracked_without_start
    (element : ElementArg) (o : TypedTextOptions.t) (w0 : World) (acts : list Action) :
  constructor element o newWindow = Some w0 ->
  ~ (0 < Options.startDelay (Options.resolve o))%R ->
  Forall no_start acts ->
  (forall h, In h (pendingSteps (run acts w0)) ->
             pendingSteps (run acts w0) = [h] /\
             timeoutId (this (run acts w0)) = Some h /\
             isRunning (this (run acts w0)) = true) /\
  pendingSteps (world_of (stop (run acts w0))) = [].
Proof.
  intros Hnew Hsd Hacts.
  assert (reachable (run acts w0)) as Hreach
      by (apply reachable_run; eapply reachable_new; exact Hnew).
  assert (tracked (run acts w0)) as Htr.
  { assert (Forall kind_ok (timers (window w0)) /\ tracked w0) as Hinv.
    { split.
      - apply reachable_kind_ok. eapply reachable_new. exact Hnew.
      - apply constructor_world in Hnew. subst w0. rewrite init_choice_eq.
        rewrite Rltb_false by exact Hsd. apply tracked_init_choice. reflexivity. }
    clear Hnew Hreach. revert w0 Hinv.
    induction Hacts as [|a acts Ha _ IH]; intros w0 [Hk Htr]; [exact Htr|].
    cbn [run fold_left]. apply IH. split.
    - apply kind_ok_perform. exact Hk.
    - apply tracked_perform; assumption. }
  split.
  - intros h Hin. destruct Htr as [Hnone | [h' [Hone Hid]]].
    + rewrite Hnone in Hin. destruct Hin.
    + rewrite Hone in Hin. destruct Hin as [<-|[]].
      unfold isRunning. rewrite Hid. repeat split; assumption.
  - apply stop_none_pending; [apply reachable_window_ok; exact Hreach | exact Htr].
Qed.

Lemma pending_step_is_tracked_without_start_witness :
  (forall h, In h (pendingSteps (run [Fire 2; Fire 1; Fire 3] (construct_now (defaults ["ab"%string])))) ->
             pendingSteps (run [Fire 2; Fire 1; Fire 3] (construct_now (defaults ["ab"%string]))) = [h] /\
             timeoutId (this (run [Fire 2; Fire 1; Fire 3] (construct_now (defaults ["ab"%string])))) = Some h /\
             isRunning (this (run [Fire 2; Fire 1; Fire 3] (construct_now (defaults ["ab"%string])))) = true) /\
  pendingSteps (world_of (stop (run [Fire 2; Fire 1; Fire 3] (construct_now (defaults ["ab"%string]))))) = [].
Proof.
  assert (~ (0 < Options.startDelay (Options.resolve (defaults ["ab"%string])))%R) as Hsd
      by (cbn; lra).
  apply (pending_step_is_tracked_without_start Node (defaults ["ab"%string])).
  - apply constructor_now. discriminate.
  - exact Hsd.
  - repeat constructor.
Defined.

(** ** The cursor timer *)

Lemma blink_tracked_same (w w' : World) :
  window w' = window w ->
  cursorIntervalId (this w') = cursorIntervalId (this w) ->
  blink_tracked w -> blink_tracked w'.
Proof.
  intros Hwin Hid [Hnone | [h [Hone Hh]]].
  - left. rewrite (pendingBlinks_window w' w Hwin). exact Hnone.
  - right. exists h. rewrite (pendingBlinks_window w' w Hwin), Hid. split; assumption.
Qed.

Lemma blink_tracked_clearTimeout (h : Z) (w : World) :
  blink_tracked w -> blink_tracked (world_of (clearTimeout h w)).
Proof.
  intros [Hnone | [h' [Hone Hh]]]; unfold blink_tracked; rewrite pendingBlinks_clearTimeout.
  - left. rewrite Hnone. reflexivity.
  - rewrite Hone. cbn [filter]. destruct (h' =? h); cbn [negb].
    + left. reflexivity.
    + right. exists h'. split; [reflexivity | exact Hh].
Qed.

Lemma blink_tracked_typeText (w : World) :
  blink_tracked w -> blink_tracked (world_of (typeText w)).
Proof.
  intros Hb. destruct (typeText_effect w) as [Hid [[Hwin _] | [d [Hwin _]]]].
  - apply (blink_tracked_same w); assumption.
  - apply (blink_tracked_same (schedule_step d w)); [exact Hwin | exact Hid |].
    destruct Hb as [Hnone | [h [Hone Hh]]]; unfold blink_tracked;
      rewrite pendingBlinks_schedule_step; [left | right; exists h; split]; assumption.
Qed.

Lemma blink_tracked_stop (w : World) :
  blink_tracked w -> blink_tracked (world_of (stop w)).
Proof.
  intros Hb. rewrite stop_eq. cbn [world_of].
  destruct (truthy (timeoutId (this w))); [|exact Hb].
  apply (blink_tracked_same (world_of (clearTimeout (nullish (timeoutId (this w)) 0) w)));
    [reflexivity | reflexivity | apply blink_tracked_clearTimeout; exact Hb].
Qed.

(** [stopCursorBlink] leaves no cursor timer behind. *)
Lemma stopCursorBlink_none_pending (w : World) :
  window_ok (window w) -> blink_tracked w ->
  pendingBlinks (world_of (stopCursorBlink w)) = [].
Proof.
  intros Hok Hb. rewrite stopCursorBlink_eq. cbn [world_of].
  destruct Hb as [Hnone | [h [Hone Hh]]].
  - destruct (truthy (cursorIntervalId (this w))); [|exact Hnone].
    change (pendingBlinks
              (world_of (clearTimeout (nullish (cursorIntervalId (this w)) 0) w)) = []).
    rewrite pendingBlinks_clearTimeout, Hnone. reflexivity.
  - assert (0 < h) as Hpos
        by (apply (pendingBlinks_handle_pos w); [exact Hok | rewrite Hone; left; reflexivity]).
    rewrite Hh. cbn [truthy nullish].
    assert ((h =? 0) = false) as -> by lia. cbn [negb].
    change (pendingBlinks (world_of (clearTimeout h w)) = []).
    rewrite pendingBlinks_clearTimeout, Hone. cbn. rewrite Z.eqb_refl. reflexivity.
Qed.

Lemma destroy_no_blink (w : World) :
  window_ok (window w) -> blink_tracked w ->
  pendingBlinks (world_of (destroy w)) = [].
Proof.
  intros Hok Hb. rewrite destroy_eq. cbn [world_of].
  match goal with
  | |- pendingBlinks (with_this _ ?W) = [] => change (pendingBlinks W = [])
  end.
  apply stopCursorBlink_none_pending.
  - apply (cancelling_stop (fun win => window_ok win)).
    + intros h0 w0. apply window_ok_clearTimeout.
    + exact Hok.
  - apply blink_tracked_stop.
    apply (blink_tracked_same w); [reflexivity | reflexivity | exact Hb].
Qed.

Lemma blink_tracked_perform (a : Action) (w : World) :
  window_ok (window w) ->
  Forall kind_ok (timers (window w)) ->
  blink_tracked w -> blink_tracked (perform a w).
Proof.
  intros Hok Hk Hb. destruct a; cbn [perform].
  - destruct (fire_cases h w Hk) as [-> | [[_ ->] | ->]].
    + exact Hb.
    + apply blink_tracked_typeText. apply blink_tracked_clearTimeout. exact Hb.
    + rewrite cursorTick_eq. cbn [world_of].
      destruct (isDestroyed (this w)); [exact Hb|].
      apply (blink_tracked_same w); [reflexivity | reflexivity | exact Hb].
  - rewrite start_eq. destruct (isDestroyed (this w)); [exact Hb|].
    apply blink_tracked_typeText.
    apply (blink_tracked_same w); [reflexivity | reflexivity | exact Hb].
  - apply blink_tracked_stop. exact Hb.
  - rewrite reset_eq. cbn [world_of]. destruct (isDestroyed (this w)); [exact Hb|].
    apply (blink_tracked_same (world_of (stop w))); [reflexivity | reflexivity |].
    apply blink_tracked_stop. exact Hb.
  - left. apply destroy_no_blink; assumption.
  - rewrite updateOptions_eq. cbn [world_of]. destruct (isDestroyed (this w)); [exact Hb|].
    apply (blink_tracked_same w); [reflexivity | reflexivity | exact Hb].
Qed.

Lemma blink_tracked_init (w : World) :
  pendingBlinks w = [] -> blink_tracked (world_of (init w)).
Proof.
  intros Hnone.
  unfold init, startCursorBlink, setInterval, setTimeout, add_timer,
    bind, get_this, update, ret.
  destruct (isDestroyed (this w)) eqn:Hd; [left; exact Hnone|].
  unfold pendingBlinks in Hnone.
  destruct (Options.showCursor (options (this w))) eqn:Hsc;
    destruct (array_length (Options.strings (options (this w))) >? 0) eqn:Hlen;
    destruct (Rltb 0 (Options.startDelay (options (this w)))) eqn:Hr;
    cbn -[typeText]; rewrite ?Hd, ?Hsc; cbn -[typeText];
    try apply blink_tracked_typeText;
    first [ left; unfold pendingBlinks; cbn;
            rewrite ?filter_app, ?map_app, ?Hnone; reflexivity
          | right; eexists; split;
            [ unfold pendingBlinks; cbn; rewrite ?filter_app, ?map_app, ?Hnone; reflexivity
            | reflexivity ] ].
Qed.

Lemma reachable_blink_tracked (w : World) : reachable w -> blink_tracked w.
Proof.
  induction 1 as [element o w Hnew | a w Hr IH].
  - apply constructor_world in Hnew. subst w. apply blink_tracked_init. reflexivity.
  - apply blink_tracked_perform;
      [apply reachable_window_ok | apply reachable_kind_ok | ]; assumption.
Qed.

Lemma pendingBlinks_incl (w w' : World) :
  incl (timers (window w')) (timers (window w)) ->
  incl (pendingBlinks w') (pendingBlinks w).
Proof.
  intros Hincl h Hin. unfold pendingBlinks in *. apply in_map_iff in Hin.
  destruct Hin as [t [<- Hin]]. apply filter_In in Hin. destruct Hin as [Hin Hcb].
  apply in_map. apply filter_In. split; [apply Hincl; exact Hin | exact Hcb].
Qed.

(** X6.  At any time at most one cursor timer is active, and its handle is
    in [cursorIntervalId]; [destroy()] cancels it, and no cursor timer is
    ever active again. *)
Theorem cursor_timer_is_tracked_and_destroyed (w : World) (acts : list Action) :
  reachable w ->
  (forall h, In h (pendingBlinks w) ->
             pendingBlinks w = [h] /\ cursorIntervalId (this w) = Some h) /\
  pendingBlinks (run acts (world_of (destroy w))) = [].
Proof.
  intros Hr. pose proof (reachable_blink_tracked w Hr) as Hb. split.
  - intros h Hin. destruct Hb as [Hnone | [h' [Hone Hid]]].
    + rewrite Hnone in Hin. destruct Hin.
    + rewrite Hone in Hin. destruct Hin as [<-|[]]. split; assumption.
  - pose proof (destroy_no_blink w (reachable_window_ok w Hr) Hb) as Hnone.
    destruct (torn_down_run acts (world_of (destroy w)) (destroy_torn_down w))
      as [_ [_ Hincl]].
    apply pendingBlinks_incl in Hincl. rewrite Hnone in Hincl.
    apply incl_l_nil. exact Hincl.
Qed.

Lemma cursor_timer_is_tracked_and_destroyed_witness :
  (forall h, In h (pendingBlinks (construct_now (defaults ["ab"%string]))) ->
             pendingBlinks (construct_now (defaults ["ab"%string])) = [h] /\
             cursorIntervalId (this (construct_now (defaults ["ab"%string]))) = Some h) /\
  pendingBlinks (run [Start; Fire 1; Fire 2]
                   (world_of (destroy (construct_now (defaults ["ab"%string]))))) = [].
Proof.
  apply cursor_timer_is_tracked_and_destroyed.
  apply (reachable_new Node (defaults ["ab"%string])).
  apply constructor_now. discriminate.
Defined.

(** ** The DOM follows the fields *)

Lemma mirrors_typeText (w : World) :
  mirrors (this w) -> mirrors (this (world_of (typeText w))).
Proof.
  intros [Ht Hc]. unfold mirrors.
  destruct (typeText_cases w) as
    [_ Heq | _ _ _ _ Heq | s _ _ _ _ _ Heq | s _ _ _ _ _ Heq | _ _ _ _ _ Heq
     | s _ _ _ _ _ Heq | _ _ _ _ _ Heq | _ _ _ _ _ _ Heq | _ _ _ _ _ _ Heq];
    rewrite Heq; cbn; split; solve [assumption | reflexivity].
Qed.

Lemma mirrors_perform (a : Action) (w : World) :
  mirrors (this w) -> mirrors (this (perform a w)).
Proof.
  intros Hm. pose proof Hm as [Ht Hc]. destruct a; cbn [perform].
  - unfold fire. destruct (find_timer h w) as [t|]; [|exact Hm].
    assert (mirrors (this (if repeating t then w else world_of (clearTimeout h w)))) as Hm'
        by (destruct (repeating t); exact Hm).
    destruct (callback t); cbn [run_callback].
    + apply mirrors_typeText. exact Hm'.
    + rewrite cursorTick_eq. cbn [world_of].
      destruct (isDestroyed (this _)); [exact Hm'|].
      destruct Hm' as [Ht' Hc']. split; cbn; [exact Ht'|].
      rewrite negb_involutive. reflexivity.
  - rewrite start_eq. destruct (isDestroyed (this w)); [exact Hm|].
    apply mirrors_typeText. exact Hm.
  - rewrite stop_eq. cbn [world_of]. destruct (truthy (timeoutId (this w))); exact Hm.
  - rewrite reset_eq. cbn [world_of]. destruct (isDestroyed (this w)); [exact Hm|].
    rewrite stop_eq. cbn [world_of].
    destruct (truthy (timeoutId (this w))); split; cbn; solve [reflexivity | assumption].
  - rewrite destroy_eq. cbn [world_of]. rewrite stopCursorBlink_eq. cbn [world_of].
    rewrite stop_eq. cbn [world_of].
    destruct (truthy (timeoutId _)); destruct (truthy (cursorIntervalId _));
      split; cbn; solve [reflexivity | assumption].
  - rewrite updateOptions_eq. cbn [world_of]. destruct (isDestroyed (this w)); exact Hm.
Qed.

Lemma mirrors_init (w : World) :
  mirrors (this w) -> mirrors (this (world_of (init w))).
Proof.
  intros Hm.
  unfold init, startCursorBlink, setInterval, setTimeout, add_timer,
    bind, get_this, update, ret.
  destruct (isDestroyed (this w)) eqn:Hd; [exact Hm|].
  destruct (Options.showCursor (options (this w))) eqn:Hsc;
    destruct (array_length (Options.strings (options (this w))) >? 0) eqn:Hlen;
    destruct (Rltb 0 (Options.startDelay (options (this w)))) eqn:Hr;
    cbn -[typeText]; rewrite ?Hd, ?Hsc; cbn -[typeText];
    try apply mirrors_typeText; exact Hm.
Qed.

(** X7.  In every world an instance can be in, the text span shows
    [displayText] and the cursor span carries the class [hidden] exactly
    when [showCursor] is off. *)
Theorem dom_follows_the_fields (w : World) :
  reachable w ->
  textContent (this w) = displayText (this w) /\
  cursorHidden (this w) = negb (showCursor (this w)).
Proof.
  induction 1 as [element o w Hnew | a w _ IH].
  - apply constructor_world in Hnew. subst w.
    apply (mirrors_init (mkWorld (fresh (Options.resolve o)) newWindow [])).
    split; reflexivity.
  - apply mirrors_perform. exact IH.
Qed.

Lemma dom_follows_the_fields_witness :
  textContent (this (run [Fire 1; Fire 2; Start] (construct_now (defaults ["ab"%string]))))
  = displayText (this (run [Fire 1; Fire 2; Start] (construct_now (defaults ["ab"%string]))))
  /\ cursorHidden (this (run [Fire 1; Fire 2; Start] (construct_now (defaults ["ab"%string]))))
     = negb (showCursor
               (this (run [Fire 1; Fire 2; Start] (construct_now (defaults ["ab"%string]))))).
Proof.
  apply dom_follows_the_fields. apply reachable_run.
  apply (reachable_new Node (defaults ["ab"%string])).
  apply constructor_now. discriminate.
Defined.

(** ** The text shown is a prefix of the current string *)

Lemma substring0_nonpos (s : string) (n : Z) : n <= 0 -> substring0 s n = EmptyString.
Proof.
  intros Hn. unfold substring0. replace (Z.to_nat n) with 0%nat by lia.
  destruct s; reflexivity.
Qed.

Lemma substring0_empty (n : Z) : substring0 EmptyString n = EmptyString.
Proof. unfold substring0. destruct (Z.to_nat n); reflexivity. Qed.

Lemma shows_prefix_typeText (w : World) :
  shows_prefix (this w) -> shows_prefix (this (world_of (typeText w))).
Proof.
  unfold shows_prefix, getCurrentString. intros Hp.
  destruct (typeText_cases w) as
    [_ Heq | _ _ _ Hs Heq | s _ _ _ Hs _ Heq | s _ _ _ Hs _ Heq | _ _ _ Hs Hc Heq
     | s _ _ _ Hs Hc Heq | _ _ _ Hc Hi Heq | _ _ _ Hc Hi _ Heq | _ _ _ Hc Hi _ Heq];
    rewrite Heq; cbn; try exact Hp.
  - rewrite Hs. reflexivity.
  - rewrite Hs in *. cbn [nullish] in *. rewrite substring0_empty in *. exact Hp.
  - rewrite Hs. reflexivity.
  - rewrite substring0_nonpos in Hp by lia. rewrite substring0_nonpos by lia. exact Hp.
  - rewrite substring0_nonpos in Hp by lia. rewrite substring0_nonpos by lia. exact Hp.
  - rewrite substring0_nonpos in Hp by lia. rewrite substring0_nonpos by lia. exact Hp.
Qed.

Lemma shows_prefix_perform (a : Action) (w : World) :
  steady a -> shows_prefix (this w) -> shows_prefix (this (perform a w)).
Proof.
  intros [Hns Hks] Hp. destruct a; cbn [perform no_start keeps_strings] in *;
    try contradiction.
  - unfold fire. destruct (find_timer h w) as [t|]; [|exact Hp].
    assert (shows_prefix (this (if repeating t then w else world_of (clearTimeout h w))))
      as Hp' by (destruct (repeating t); exact Hp).
    destruct (callback t); cbn [run_callback].
    + apply shows_prefix_typeText. exact Hp'.
    + rewrite cursorTick_eq. cbn [world_of]. destruct (isDestroyed (this _)); exact Hp'.
  - rewrite stop_eq. cbn [world_of]. destruct (truthy (timeoutId (this w))); exact Hp.
  - rewrite reset_eq. cbn [world_of]. destruct (isDestroyed (this w)); [exact Hp|].
    unfold shows_prefix. cbn. rewrite substring0_nonpos by lia. reflexivity.
  - rewrite destroy_eq. cbn [world_of]. rewrite stopCursorBlink_eq. cbn [world_of].
    rewrite stop_eq. cbn [world_of].
    destruct (truthy (timeoutId _)); destruct (truthy (cursorIntervalId _)); exact Hp.
  - rewrite updateOptions_eq. cbn [world_of]. destruct (isDestroyed (this w)); [exact Hp|].
    unfold shows_prefix, getCurrentString in *. cbn. rewrite Hks. exact Hp.
Qed.

Lemma shows_prefix_init (w : World) :
  shows_prefix (this w) -> shows_prefix (this (world_of (init w))).
Proof.
  intros Hp.
  unfold init, startCursorBlink, setInterval, setTimeout, add_timer,
    bind, get_this, update, ret.
  destruct (isDestroyed (this w)) eqn:Hd; [exact Hp|].
  destruct (Options.showCursor (options (this w))) eqn:Hsc;
    destruct (array_length (Options.strings (options (this w))) >? 0) eqn:Hlen;
    destruct (Rltb 0 (Options.startDelay (options (this w)))) eqn:Hr;
    cbn -[typeText]; rewrite ?Hd, ?Hsc; cbn -[typeText];
    try apply shows_prefix_typeText; exact Hp.
Qed.

(** With callbacks that call no method of the instance: as long as the
    page neither calls [start()] nor replaces the strings, the text span
    shows exactly the first [currentCharIndex] characters of the current
    string. *)
Lemma shows_prefix_run
    (element : ElementArg) (o : TypedTextOptions.t) (w0 : World) (acts : list Action) :
  constructor element o newWindow = Some w0 ->
  Forall steady acts ->
  textContent (this (run acts w0))
  = substring0 (getCurrentString (this (run acts w0)))
      (currentCharIndex (this (run acts w0))).
Proof.
  intros Hnew Hacts. change (shows_prefix (this (run acts w0))).
  assert (shows_prefix (this w0)) as Hp.
  { apply constructor_world in Hnew. subst w0.
    apply (shows_prefix_init (mkWorld (fresh (Options.resolve o)) newWindow [])).
    unfold shows_prefix. cbn. rewrite substring0_nonpos by lia. reflexivity. }
  clear Hnew. revert w0 Hp.
  induction Hacts as [|a acts Ha _ IH]; intros w0 Hp; [exact Hp|].
  cbn [run fold_left]. apply IH. apply shows_prefix_perform; assumption.
Qed.

(** ** [stop] and [reset] *)

Lemma pendingBlinks_handle_lt (w : World) (h : Z) :
  window_ok (window w) -> In h (pendingBlinks w) -> h < nextHandle (window w).
Proof.
  intros [_ Hts] Hin. unfold pendingBlinks in Hin. apply in_map_iff in Hin.
  destruct Hin as [t [<- Hin]]. apply filter_In in Hin. destruct Hin as [Hin _].
  rewrite Forall_forall in Hts. apply Hts in Hin. lia.
Qed.

Lemma step_handle_ok_same (w w' : World) :
  window w' = window w ->
  timeoutId (this w') = timeoutId (this w) ->
  step_handle_ok w -> step_handle_ok w'.
Proof.
  intros Hwin Hid Hok h Hh. unfold step_handle_ok in Hok.
  rewrite (pendingBlinks_window w' w Hwin), Hwin. apply Hok. rewrite <- Hid. exact Hh.
Qed.

Lemma step_handle_ok_clearTimeout (h : Z) (w : World) :
  step_handle_ok w -> step_handle_ok (world_of (clearTimeout h w)).
Proof.
  intros Hok h' Hh'. destruct (Hok h' Hh') as [Hpos Hnot]. split; [exact Hpos|].
  rewrite pendingBlinks_clearTimeout. intros Hin. apply filter_In in Hin. tauto.
Qed.

Lemma step_handle_ok_typeText (w : World) :
  window_ok (window w) -> step_handle_ok w -> step_handle_ok (world_of (typeText w)).
Proof.
  intros Hwok Hok. destruct (typeText_effect w) as [_ [[Hwin Hid] | [d [Hwin Hid]]]].
  - apply (step_handle_ok_same w); assumption.
  - intros h Hh. rewrite Hid in Hh. injection Hh as <-.
    rewrite (pendingBlinks_window _ (schedule_step d w) Hwin), Hwin.
    rewrite pendingBlinks_schedule_step. cbn. destruct Hwok as [Hn Hts]. split; [lia|].
    intros Hin. apply (pendingBlinks_handle_lt w) in Hin; [lia | split; assumption].
Qed.

Lemma step_handle_ok_stop (w : World) :
  step_handle_ok w -> step_handle_ok (world_of (stop w)).
Proof.
  intros Hok. rewrite stop_eq. cbn [world_of].
  destruct (truthy (timeoutId (this w))); [|exact Hok].
  intros h Hh. discriminate Hh.
Qed.

Lemma step_handle_ok_stopCursorBlink (w : World) :
  step_handle_ok w -> step_handle_ok (world_of (stopCursorBlink w)).
Proof.
  intros Hok. rewrite stopCursorBlink_eq. cbn [world_of].
  destruct (truthy (cursorIntervalId (this w))).
  - apply (step_handle_ok_same
             (world_of (clearTimeout (nullish (cursorIntervalId (this w)) 0) w)));
      [reflexivity | reflexivity | apply step_handle_ok_clearTimeout; exact Hok].
  - apply (step_handle_ok_same w); [reflexivity | reflexivity | exact Hok].
Qed.

Lemma step_handle_ok_perform (a : Action) (w : World) :
  window_ok (window w) ->
  Forall kind_ok (timers (window w)) ->
  step_handle_ok w -> step_handle_ok (perform a w).
Proof.
  intros Hwok Hk Hok. destruct a; cbn [perform].
  - destruct (fire_cases h w Hk) as [-> | [[_ ->] | ->]].
    + exact Hok.
    + apply step_handle_ok_typeText;
        [apply window_ok_clearTimeout; exact Hwok
        | apply step_handle_ok_clearTimeout; exact Hok].
    + rewrite cursorTick_eq. cbn [world_of].
      destruct (isDestroyed (this w)); [exact Hok|].
      apply (step_handle_ok_same w); [reflexivity | reflexivity | exact Hok].
  - rewrite start_eq. destruct (isDestroyed (this w)); [exact Hok|].
    apply step_handle_ok_typeText; [exact Hwok|].
    apply (step_handle_ok_same w); [reflexivity | reflexivity | exact Hok].
  - apply step_handle_ok_stop. exact Hok.
  - rewrite reset_eq. cbn [world_of]. destruct (isDestroyed (this w)); [exact Hok|].
    apply (step_handle_ok_same (world_of (stop w))); [reflexivity | reflexivity |].
    apply step_handle_ok_stop. exact Hok.
  - rewrite destroy_eq. cbn [world_of].
    match goal with
    | |- step_handle_ok (with_this _ ?W) =>
        apply (step_handle_ok_same W); [reflexivity | reflexivity |]
    end.
    apply step_handle_ok_stopCursorBlink. apply step_handle_ok_stop.
    apply (step_handle_ok_same w); [reflexivity | reflexivity | exact Hok].
  - rewrite updateOptions_eq. cbn [world_of]. destruct (isDestroyed (this w)); [exact Hok|].
    apply (step_handle_ok_same w); [reflexivity | reflexivity | exact Hok].
Qed.

Lemma step_handle_ok_init (w : World) :
  window_ok (window w) -> timeoutId (this w) = None ->
  step_handle_ok (world_of (init w)).
Proof.
  intros Hwok Hnone.
  assert (forall w', timeoutId (this w') = None -> step_handle_ok w') as Hvac
      by (intros w' Hw' h Hh; rewrite Hw' in Hh; discriminate).
  unfold init, startCursorBlink, setInterval, setTimeout, add_timer,
    bind, get_this, update, ret.
  destruct (isDestroyed (this w)) eqn:Hd; [apply Hvac; exact Hnone|].
  destruct w as [t [n ts] cs]. cbn [this window] in *.
  destruct (Options.showCursor (options t)) eqn:Hsc;
    destruct (array_length (Options.strings (options t)) >? 0) eqn:Hlen;
    destruct (Rltb 0 (Options.startDelay (options t))) eqn:Hr;
    cbn -[typeText]; rewrite ?Hd, ?Hsc; cbn -[typeText];
    try (apply step_handle_ok_typeText; cbn; [auto 6 with window|]);
    apply Hvac; exact Hnone.
Qed.

Lemma reachable_step_handle_ok (w : World) : reachable w -> step_handle_ok w.
Proof.
  induction 1 as [element o w Hnew | a w Hr IH].
  - apply constructor_world in Hnew. subst w.
    apply step_handle_ok_init; [split; [reflexivity | constructor] | reflexivity].
  - apply step_handle_ok_perform;
      [apply reachable_window_ok | apply reachable_kind_ok | ]; assumption.
Qed.

Lemma filter_absent (h : Z) (l : list Z) :
  ~ In h l -> filter (fun x => negb (x =? h)) l = l.
Proof.
  induction l as [|x l IH]; intros Hnot; [reflexivity|]. cbn [filter].
  assert ((x =? h) = false) as -> by (apply Z.eqb_neq; intros ->; apply Hnot; left; reflexivity).
  cbn [negb]. rewrite IH; [reflexivity|]. intros Hin. apply Hnot. right. exact Hin.
Qed.

Lemma filter_removes (h : Z) (l : list Z) :
  ~ In h (filter (fun x => negb (x =? h)) l).
Proof.
  intros Hin. apply filter_In in Hin. destruct Hin as [_ Hne].
  rewrite Z.eqb_refl in Hne. discriminate.
Qed.

Lemma set_timeoutId_None_id (t : TypedText) :
  timeoutId t = None -> set_timeoutId None t = t.
Proof. destruct t. cbn. intros ->. reflexivity. Qed.

(** What [stop] does in a world that can be reached. *)
Lemma stop_reachable (w : World) :
  window_ok (window w) -> step_handle_ok w ->
  this (world_of (stop w)) = set_timeoutId None (this w) /\
  calls (world_of (stop w)) = calls w /\
  nextHandle (window (world_of (stop w))) = nextHandle (window w) /\
  pendingBlinks (world_of (stop w)) = pendingBlinks w /\
  incl (timers (window (world_of (stop w)))) (timers (window w)) /\
  (forall h, timeoutId (this w) = Some h ->
             pendingSteps (world_of (stop w))
             = filter (fun x => negb (x =? h)) (pendingSteps w)).
Proof.
  intros Hwok Hok. rewrite stop_eq. cbn [world_of].
  destruct (timeoutId (this w)) as [h|] eqn:Hid.
  - destruct (Hok h Hid) as [Hpos Hnot]. cbn [truthy nullish].
    assert ((h =? 0) = false) as -> by lia. cbn [negb].
    split; [reflexivity|]. split; [reflexivity|]. split; [reflexivity|].
    split; [|split].
    + change (pendingBlinks (world_of (clearTimeout h w)) = pendingBlinks w).
      rewrite pendingBlinks_clearTimeout. apply filter_absent. exact Hnot.
    + cbn. apply incl_filter.
    + intros h' Hh'. injection Hh' as <-.
      exact (pendingSteps_clearTimeout h w).
  - cbn [truthy]. split; [symmetry; apply set_timeoutId_None_id; exact Hid|].
    repeat split; try reflexivity; [apply incl_refl | intros h Hh; discriminate].
Qed.

(** X9.  [stop()] in any world an instance can be in: [isRunning()]
    becomes [false], the step whose handle was in [timeoutId] is no longer
    pending, nothing else changes (no field but [timeoutId], no call to a
    user callback, the cursor timer stays), and a second [stop()] changes
    nothing. *)
Theorem stop_cancels_only_the_known_step (w : World) :
  reachable w ->
  isRunning (this (world_of (stop w))) = false /\
  this (world_of (stop w)) = set_timeoutId None (this w) /\
  calls (world_of (stop w)) = calls w /\
  pendingBlinks (world_of (stop w)) = pendingBlinks w /\
  (forall h, timeoutId (this w) = Some h -> ~ In h (pendingSteps (world_of (stop w)))) /\
  stop (world_of (stop w)) = Normal tt (world_of (stop w)).
Proof.
  intros Hr.
  destruct (stop_reachable w (reachable_window_ok w Hr) (reachable_step_handle_ok w Hr))
    as [Hthis [Hcalls [_ [Hblinks [_ Hsteps]]]]].
  split; [rewrite Hthis; reflexivity|].
  split; [exact Hthis|]. split; [exact Hcalls|]. split; [exact Hblinks|]. split.
  - intros h Hh. rewrite (Hsteps h Hh). apply filter_removes.
  - rewrite (stop_eq (world_of (stop w))). rewrite Hthis. reflexivity.
Qed.

Lemma stop_cancels_only_the_known_step_witness :
  isRunning (this (world_of (stop (construct_now (defaults ["ab"%string]))))) = false /\
  pendingBlinks (world_of (stop (construct_now (defaults ["ab"%string])))) = [1] /\
  ~ In 2 (pendingSteps (world_of (stop (construct_now (defaults ["ab"%string]))))).
Proof.
  assert (reachable (construct_now (defaults ["ab"%string]))) as Hr.
  { apply (reachable_new Node (defaults ["ab"%string])). apply constructor_now. discriminate. }
  destruct (stop_cancels_only_the_known_step _ Hr) as [H1 [_ [_ [H4 [H5 _]]]]].
  exact (conj H1 (conj H4 (H5 2 eq_refl))).
Defined.

(** X10.  [reset()] on a live instance, in any world it can be in: the
    indices are back to 0 in phase Typing, the text is empty,
    [isRunning()] is [false], the step whose handle was in [timeoutId] is no
    longer pending, no timer is set (nothing resumes), and the options, the
    cursor timer and the log of calls are untouched. *)
Theorem reset_rewinds_without_resuming (w : World) :
  reachable w ->
  isDestroyed (this w) = false ->
  isRunning (this (world_of (reset w))) = false /\
  getCurrentStringIndex (this (world_of (reset w))) = 0 /\
  currentCharIndex (this (world_of (reset w))) = 0 /\
  isTyping (this (world_of (reset w))) = true /\
  textContent (this (world_of (reset w))) = EmptyString /\
  displayText (this (world_of (reset w))) = EmptyString /\
  options (this (world_of (reset w))) = options (this w) /\
  calls (world_of (reset w)) = calls w /\
  pendingBlinks (world_of (reset w)) = pendingBlinks w /\
  incl (timers (window (world_of (reset w)))) (timers (window w)) /\
  nextHandle (window (world_of (reset w))) = nextHandle (window w) /\
  (forall h, timeoutId (this w) = Some h -> ~ In h (pendingSteps (world_of (reset w)))).
Proof.
  intros Hr Hd.
  destruct (stop_reachable w (reachable_window_ok w Hr) (reachable_step_handle_ok w Hr))
    as [Hthis [Hcalls [Hnext [Hblinks [Hincl Hsteps]]]]].
  rewrite reset_eq, Hd. cbn [world_of].
  set (s := world_of (stop w)) in *.
  split; [change (isRunning (this s) = false); rewrite Hthis; reflexivity|].
  split; [reflexivity|]. split; [reflexivity|]. split; [reflexivity|].
  split; [reflexivity|]. split; [reflexivity|].
  split; [change (options (this s) = options (this w)); rewrite Hthis; reflexivity|].
  split; [exact Hcalls|]. split; [exact Hblinks|]. split; [exact Hincl|].
  split; [exact Hnext|].
  intros h Hh. change (~ In h (pendingSteps s)).
  rewrite (Hsteps h Hh). apply filter_removes.
Qed.

Lemma reset_rewinds_without_resuming_witness :
  isRunning (this (world_of (reset (run [Fire 2] (construct_now (defaults ["ab"%string])))))) = false /\
  textContent (this (world_of (reset (run [Fire 2] (construct_now (defaults ["ab"%string])))))) = EmptyString /\
  pendingSteps (world_of (reset (run [Fire 2] (construct_now (defaults ["ab"%string]))))) = [].
Proof.
  assert (reachable (run [Fire 2] (construct_now (defaults ["ab"%string])))) as Hr.
  { apply reachable_run. apply (reachable_new Node (defaults ["ab"%string])).
    apply constructor_now. discriminate. }
  destruct (reset_rewinds_without_resuming _ Hr eq_refl) as [H1 [_ [_ [_ [H5 _]]]]].
  split; [exact H1|]. split; [exact H5|]. vm_compute. reflexivity.
Defined.

(** ** An undisturbed animation, step by step *)

Lemma on_course_schedule_step (d : R) (w : World) :
  active (this w) -> window_ok (window w) -> pendingSteps w = [] ->
  on_course (schedule_step d w).
Proof.
  intros Hact Hok Hnone. split; [exact Hact|]. split.
  - apply window_ok_schedule_step. exact Hok.
  - exists (nextHandle (window w)), d. split; [reflexivity|]. split.
    + apply find_timer_schedule_step. exact Hok.
    + rewrite pendingSteps_schedule_step, Hnone. reflexivity.
Qed.

Lemma find_timer_cleared (h : Z) (w : World) :
  find_timer h (world_of (clearTimeout h w)) = None.
Proof.
  unfold find_timer. cbn.
  destruct (find _ _) as [t|] eqn:Hf; [|reflexivity].
  apply find_some in Hf. destruct Hf as [Hin Heq].
  apply filter_In in Hin. destruct Hin as [_ Hne].
  rewrite Heq in Hne. discriminate.
Qed.

(** The host fires the awaited step: the step runs in a world where no
    step is pending. *)
Lemma tick_on_course (w : World) :
  on_course w ->
  exists w1,
    tick w = world_of (typeText w1) /\
    this w1 = this w /\
    calls w1 = calls w /\
    nextHandle (window w1) = nextHandle (window w) /\
    window_ok (window w1) /\
    pendingSteps w1 = [] /\
    (forall h, timeoutId (this w) = Some h -> find_timer h w1 = None).
Proof.
  intros [_ [Hok [h [d [Hid [Hfind Hone]]]]]].
  exists (world_of (clearTimeout h w)).
  unfold tick. rewrite Hid. unfold fire. rewrite Hfind.
  cbn [repeating callback run_callback].
  split; [reflexivity|]. split; [reflexivity|]. split; [reflexivity|]. split; [reflexivity|].
  split; [apply window_ok_clearTimeout; exact Hok|]. split.
  - rewrite pendingSteps_clearTimeout, Hone. cbn. rewrite Z.eqb_refl. reflexivity.
  - intros h' Hh'. injection Hh' as <-. apply find_timer_cleared.
Qed.

Lemma substring0_full (s : string) : substring0 s (string_length s) = s.
Proof.
  unfold substring0, string_length. rewrite Nat2Z.id.
  induction s as [|c s IH]; [reflexivity|]. cbn. rewrite IH. reflexivity.
Qed.

(** One step of a typing pass. *)
Lemma tick_types (w : World) (s : string) :
  on_course w ->
  isTyping (this w) = true ->
  index (Options.strings (options (this w))) (currentStringIndex (this w)) = Some s ->
  currentCharIndex (this w) < string_length s ->
  on_course (tick w) /\
  isTyping (this (tick w)) = true /\
  options (this (tick w)) = options (this w) /\
  currentStringIndex (this (tick w)) = currentStringIndex (this w) /\
  currentCharIndex (this (tick w)) = currentCharIndex (this w) + 1 /\
  textContent (this (tick w)) = substring0 s (currentCharIndex (this w) + 1).
Proof.
  intros Hw Ht Hs Hc. pose proof Hw as [[Hd [Hi [Hc0 Hc1]]] _].
  destruct (tick_on_course w Hw) as [w1 [Htick [Hthis [_ [_ [Hok1 [Hnone _]]]]]]].
  rewrite Htick.
  rewrite (typeText_types w1 s) by (rewrite Hthis; assumption).
  cbv zeta. rewrite Hthis. split.
  - apply on_course_schedule_step; [|exact Hok1 | exact Hnone].
    cbn. rewrite Hthis. unfold active, charIndexInBounds, getCurrentString. cbn.
    rewrite Hs. cbn [nullish]. repeat split; try assumption; lia.
  - cbn. rewrite Hthis, Ht. repeat split; reflexivity.
Qed.

(** One step of a backspacing pass. *)
Lemma tick_backspaces (w : World) (s : string) :
  on_course w ->
  isTyping (this w) = false ->
  index (Options.strings (options (this w))) (currentStringIndex (this w)) = Some s ->
  currentCharIndex (this w) > 0 ->
  on_course (tick w) /\
  isTyping (this (tick w)) = false /\
  options (this (tick w)) = options (this w) /\
  currentStringIndex (this (tick w)) = currentStringIndex (this w) /\
  currentCharIndex (this (tick w)) = currentCharIndex (this w) - 1 /\
  textContent (this (tick w)) = substring0 s (currentCharIndex (this w) - 1) /\
  calls (tick w) = calls w.
Proof.
  intros Hw Ht Hs Hc. pose proof Hw as [[Hd [Hi [Hc0 Hc1]]] _].
  unfold getCurrentString in Hc1. rewrite Hs in Hc1. cbn [nullish] in Hc1.
  destruct (tick_on_course w Hw) as [w1 [Htick [Hthis [Hcalls [_ [Hok1 [Hnone _]]]]]]].
  rewrite Htick.
  rewrite (typeText_backspaces w1 s) by (rewrite Hthis; assumption).
  cbv zeta. rewrite Hthis. split.
  - apply on_course_schedule_step; [|exact Hok1 | exact Hnone].
    cbn. rewrite Hthis. unfold active, charIndexInBounds, getCurrentString. cbn.
    rewrite Hs. cbn [nullish]. repeat split; try assumption; lia.
  - cbn. rewrite Hthis, Ht. repeat split; try reflexivity. exact Hcalls.
Qed.

(** X11.  A typing pass: [k] awaited steps on a string that still has [k]
    characters to type add one character each; the text span then shows
    the first [currentCharIndex + k] characters, the whole string when
    these were the last ones. *)
Theorem typing_pass (w : World) (s : string) (k : nat) :
  on_course w ->
  isTyping (this w) = true ->
  index (Options.strings (options (this w))) (currentStringIndex (this w)) = Some s ->
  currentCharIndex (this w) + Z.of_nat k <= string_length s ->
  on_course (Nat.iter k tick w) /\
  isTyping (this (Nat.iter k tick w)) = true /\
  currentStringIndex (this (Nat.iter k tick w)) = currentStringIndex (this w) /\
  currentCharIndex (this (Nat.iter k tick w)) = currentCharIndex (this w) + Z.of_nat k /\
  ((0 < k)%nat ->
   textContent (this (Nat.iter k tick w))
   = substring0 s (currentCharIndex (this w) + Z.of_nat k)) /\
  ((0 < k)%nat -> currentCharIndex (this w) + Z.of_nat k = string_length s ->
   textContent (this (Nat.iter k tick w)) = s).
Proof.
  intros Hw Ht Hs Hk.
  assert (on_course (Nat.iter k tick w) /\
          isTyping (this (Nat.iter k tick w)) = true /\
          options (this (Nat.iter k tick w)) = options (this w) /\
          currentStringIndex (this (Nat.iter k tick w)) = currentStringIndex (this w) /\
          currentCharIndex (this (Nat.iter k tick w))
          = currentCharIndex (this w) + Z.of_nat k /\
          ((0 < k)%nat ->
           textContent (this (Nat.iter k tick w))
           = substring0 s (currentCharIndex (this w) + Z.of_nat k))) as Hall.
  { induction k as [|k IH].
    - change (Nat.iter 0 tick w) with w.
      split; [exact Hw|]. split; [exact Ht|]. split; [reflexivity|].
      split; [reflexivity|]. split; [lia|]. intros Hlt. inversion Hlt.
    - change (Nat.iter (S k) tick w) with (tick (Nat.iter k tick w)).
      destruct IH as [Hw' [Ht' [Ho' [Hi' [Hc' _]]]]]; [lia|].
      set (wk := Nat.iter k tick w) in *.
      assert (index (Options.strings (options (this wk))) (currentStringIndex (this wk))
              = Some s) as Hs' by (rewrite Ho', Hi'; exact Hs).
      destruct (tick_types wk s Hw' Ht' Hs') as [H1 [H2 [H3 [H4 [H5 H6]]]]]; [lia|].
      split; [exact H1|]. split; [exact H2|]. split; [congruence|]. split; [congruence|].
      split; [rewrite H5, Hc'; lia|].
      intros _. rewrite H6, Hc'. f_equal. lia. }
  destruct Hall as [H1 [H2 [_ [H4 [H5 H6]]]]].
  split; [exact H1|]. split; [exact H2|]. split; [exact H4|]. split; [exact H5|].
  split; [exact H6|].
  intros Hpos Hlast. rewrite (H6 Hpos), Hlast. apply substring0_full.
Qed.

(** X12.  A backspacing pass: [k] awaited steps on a string that still
    shows [k] characters or more remove one character each, without any call
    to a user callback; the text span is empty when these were the last
    ones. *)
Theorem backspacing_pass (w : World) (s : string) (k : nat) :
  on_course w ->
  isTyping (this w) = false ->
  index (Options.strings (options (this w))) (currentStringIndex (this w)) = Some s ->
  Z.of_nat k <= currentCharIndex (this w) ->
  on_course (Nat.iter k tick w) /\
  isTyping (this (Nat.iter k tick w)) = false /\
  currentStringIndex (this (Nat.iter k tick w)) = currentStringIndex (this w) /\
  currentCharIndex (this (Nat.iter k tick w)) = currentCharIndex (this w) - Z.of_nat k /\
  calls (Nat.iter k tick w) = calls w /\
  ((0 < k)%nat ->
   textContent (this (Nat.iter k tick w))
   = substring0 s (currentCharIndex (this w) - Z.of_nat k)) /\
  ((0 < k)%nat -> Z.of_nat k = currentCharIndex (this w) ->
   textContent (this (Nat.iter k tick w)) = EmptyString).
Proof.
  intros Hw Ht Hs Hk.
  assert (on_course (Nat.iter k tick w) /\
          isTyping (this (Nat.iter k tick w)) = false /\
          options (this (Nat.iter k tick w)) = options (this w) /\
          currentStringIndex (this (Nat.iter k tick w)) = currentStringIndex (this w) /\
          currentCharIndex (this (Nat.iter k tick w))
          = currentCharIndex (this w) - Z.of_nat k /\
          calls (Nat.iter k tick w) = calls w /\
          ((0 < k)%nat ->
           textContent (this (Nat.iter k tick w))
           = substring0 s (currentCharIndex (this w) - Z.of_nat k))) as Hall.
  { induction k as [|k IH].
    - change (Nat.iter 0 tick w) with w.
      split; [exact Hw|]. split; [exact Ht|]. split; [reflexivity|].
      split; [reflexivity|]. split; [lia|]. split; [reflexivity|].
      intros Hlt. inversion Hlt.
    - change (Nat.iter (S k) tick w) with (tick (Nat.iter k tick w)).
      destruct IH as [Hw' [Ht' [Ho' [Hi' [Hc' [Hcalls' _]]]]]]; [lia|].
      set (wk := Nat.iter k tick w) in *.
      assert (index (Options.strings (options (this wk))) (currentStringIndex (this wk))
              = Some s) as Hs' by (rewrite Ho', Hi'; exact Hs).
      destruct (tick_backspaces wk s Hw' Ht' Hs') as [H1 [H2 [H3 [H4 [H5 [H6 H7]]]]]]; [lia|].
      split; [exact H1|]. split; [exact H2|]. split; [congruence|]. split; [congruence|].
      split; [rewrite H5, Hc'; lia|]. split; [congruence|].
      intros _. rewrite H6, Hc'. f_equal. lia. }
  destruct Hall as [H1 [H2 [_ [H4 [H5 [H6 H7]]]]]].
  split; [exact H1|]. split; [exact H2|]. split; [exact H4|]. split; [exact H5|].
  split; [exact H6|]. split; [exact H7|].
  intros Hpos Hlast. rewrite (H7 Hpos). apply substring0_nonpos. lia.
Qed.

(** A step of an instance at work: either it schedules the next step
    without calling [onComplete] (and, unless it wraps, brings the end of the
    pass one step closer), or it is the last step of an animation that does
    not loop. *)
Lemma typeText_active (w : World) :
  active (this w) ->
  (exists d w',
      typeText w = Normal tt (schedule_step d w') /\
      window w' = window w /\
      active (this w') /\
      options (this w') = options (this w) /\
      (exists es, calls w' = calls w ++ es /\ ~ In Complete es) /\
      (remaining (this w') = remaining (this w) - 1
       \/ Options.loop (options (this w)) = true))
  \/ (Options.loop (options (this w)) = false /\
      remaining (this w) = 1 /\
      currentStringIndex (this w) + 1 = array_length (Options.strings (options (this w))) /\
      typeText w =
        Normal tt
          (with_calls (call_if (Options.onComplete (options (this w))) Complete)
             (with_this (fun t => set_currentStringIndex (currentStringIndex t + 1) t) w))).
Proof.
  intros [Hd [Hi [Hc0 Hc1]]].
  destruct (index_in_range _ _ Hi) as [s0 Hs0].
  unfold getCurrentString in Hc1. rewrite Hs0 in Hc1. cbn [nullish] in Hc1.
  assert (forall b e, e <> Complete -> ~ In Complete (call_if b e)) as Hcall.
  { intros [|] e He; cbn; [intros [H|[]]; congruence | intros []]. }
  assert (~ In Complete (start_calls w)) as Hstart.
  { unfold start_calls. destruct (_ =? 0); [apply Hcall; discriminate | intros []]. }
  assert (exists es : list Event, calls w = calls w ++ es /\ ~ In Complete es) as Hquiet.
  { exists []. rewrite app_nil_r. split; [reflexivity | intros []]. }
  destruct (typeText_cases w) as
    [[Hnil | Hdes] _ | _ _ _ Hs _ | s _ _ Ht Hs Hc Heq | s _ _ Ht Hs Hc Heq | _ _ _ Hs _ _
     | s _ _ Ht Hs Hc Heq | _ _ Ht Hc Hn Heq | _ _ Ht Hc Hn Hl Heq | _ _ Ht Hc Hn Hl Heq].
  - rewrite Hnil in Hi. cbn in Hi. lia.
  - congruence.
  - congruence.
  - rewrite Hs in Hs0. injection Hs0 as <-.
    left. cbv zeta in Heq. eexists; eexists. split; [exact Heq|].
    split; [reflexivity|]. split; [|split; [reflexivity|split]].
    + unfold active, charIndexInBounds, getCurrentString. cbn. rewrite Hs. cbn [nullish].
      repeat split; try assumption; lia.
    + cbn. eexists. split; [reflexivity | exact Hstart].
    + left. unfold remaining, getCurrentString. cbn. rewrite Ht. lia.
  - rewrite Hs in Hs0. injection Hs0 as <-.
    left. eexists; eexists. split; [exact Heq|].
    split; [reflexivity|]. split; [|split; [reflexivity|split]].
    + unfold active, charIndexInBounds, getCurrentString. cbn. rewrite Hs. cbn [nullish].
      repeat split; try assumption; lia.
    + cbn. eexists. split; [reflexivity|].
      intros Hin. apply in_app_or in Hin. destruct Hin as [Hin|Hin];
        [exact (Hstart Hin) | revert Hin; apply Hcall; discriminate].
    + left. unfold remaining, getCurrentString. cbn. rewrite Ht, Hs. cbn [nullish].
      unfold string_cost. lia.
  - congruence.
  - rewrite Hs in Hs0. injection Hs0 as <-.
    left. cbv zeta in Heq. eexists; eexists. split; [exact Heq|].
    split; [reflexivity|]. split; [|split; [reflexivity|split]].
    + unfold active, charIndexInBounds, getCurrentString. cbn. rewrite Hs. cbn [nullish].
      repeat split; try assumption; lia.
    + exact Hquiet.
    + left. unfold remaining. cbn. rewrite Ht. lia.
  - destruct (index_in_range (Options.strings (options (this w)))
                (currentStringIndex (this w) + 1)) as [s' Hs']; [lia|].
    left. eexists; eexists. split; [exact Heq|].
    split; [reflexivity|]. split; [|split; [reflexivity|split]].
    + unfold active, charIndexInBounds, getCurrentString, string_length. cbn.
      repeat split; try assumption; lia.
    + exact Hquiet.
    + left. unfold remaining, getCurrentString. cbn. rewrite Ht, Hs'. cbn [nullish].
      rewrite (strings_cost_from _ _ _ Hs'). lia.
  - left. eexists; eexists. split; [exact Heq|].
    split; [reflexivity|]. split; [|split; [reflexivity|split]].
    + unfold active, charIndexInBounds, getCurrentString, string_length. cbn.
      repeat split; try assumption; lia.
    + exact Hquiet.
    + right. exact Hl.
  - right. split; [exact Hl|]. split; [|split; [lia | exact Heq]].
    unfold remaining. rewrite Ht, strings_cost_past_end by lia. lia.
Qed.

(** The awaited step of an animation under way: the animation stays
    under way, or this was its last step. *)
Lemma tick_active (w : World) :
  on_course w ->
  (on_course (tick w) /\
   options (this (tick w)) = options (this w) /\
   (exists es, calls (tick w) = calls w ++ es /\ ~ In Complete es) /\
   (remaining (this (tick w)) = remaining (this w) - 1
    \/ Options.loop (options (this w)) = true))
  \/ (Options.loop (options (this w)) = false /\
      remaining (this w) = 1 /\
      options (this (tick w)) = options (this w) /\
      calls (tick w) = calls w ++ call_if (Options.onComplete (options (this w))) Complete /\
      pendingSteps (tick w) = [] /\
      currentStringIndex (this (tick w))
      = array_length (Options.strings (options (this w))) /\
      currentCharIndex (this (tick w)) = currentCharIndex (this w) /\
      tick (tick w) = tick w).
Proof.
  intros Hw. pose proof Hw as [Hact [Hok [h [d0 [Hid [Hfind Hone]]]]]].
  destruct (tick_on_course w Hw)
    as [w1 [Htick [Hthis [Hcalls [_ [Hok1 [Hnone Hgone]]]]]]].
  assert (active (this w1)) as Hact1 by (rewrite Hthis; exact Hact).
  destruct (typeText_active w1 Hact1)
    as [[d [w' [Heq [Hwin [Hact' [Hopt [[es [Hes Hno]] Hrem]]]]]]] | [Hl [Hrem [Hlast Heq]]]].
  - left. rewrite Htick, Heq. cbn [world_of]. rewrite Hthis, Hcalls in *. split.
    + apply on_course_schedule_step; [exact Hact' | rewrite Hwin; exact Hok1 |].
      rewrite (pendingSteps_window w' w1 Hwin). exact Hnone.
    + split; [exact Hopt|]. split; [exists es; split; assumption | exact Hrem].
  - right. rewrite Hthis in *. split; [exact Hl|]. split; [exact Hrem|].
    assert (tick w = with_calls (call_if (Options.onComplete (options (this w))) Complete)
                       (with_this (fun t => set_currentStringIndex (currentStringIndex t + 1) t)
                          w1)) as Hres.
    { rewrite Htick, Heq. reflexivity. }
    rewrite Hres. cbn. rewrite Hthis, Hcalls.
    split; [reflexivity|]. split; [reflexivity|]. split; [exact Hnone|].
    split; [exact Hlast|]. split; [reflexivity|].
    unfold tick at 1. cbn. rewrite Hthis, Hid.
    unfold fire.
    assert (find_timer h
              (with_calls (call_if (Options.onComplete (options (this w))) Complete)
                 (with_this (fun t => set_currentStringIndex (currentStringIndex t + 1) t) w1))
            = None) as -> by exact (Hgone h Hid).
    reflexivity.
Qed.

Lemma remaining_pos_active (t : TypedText) : active t -> 1 <= remaining t.
Proof.
  intros [_ [_ [Hc0 Hc1]]]. unfold remaining.
  pose proof (strings_cost_nonneg
                (skipn (Z.to_nat (currentStringIndex t + 1)) (Options.strings (options t)))).
  unfold string_cost. destruct (isTyping t); lia.
Qed.

Lemma index_past_end {A : Type} (xs : list A) (i : Z) :
  array_length xs <= i -> index xs i = None.
Proof.
  unfold index, array_length. intros Hi.
  assert ((i <? 0) = false) as -> by lia.
  apply nth_error_None. lia.
Qed.

Lemma iter_fixpoint {A : Type} (f : A -> A) (x : A) (n : nat) :
  f x = x -> Nat.iter n f x = x.
Proof.
  intros Hfx. induction n as [|n IH]; [reflexivity|].
  change (Nat.iter (S n) f x) with (f (Nat.iter n f x)). rewrite IH. exact Hfx.
Qed.

(** From any point of an animation that does not loop, the animation
    comes to its end after [remaining] steps. *)
Lemma completes_after_remaining (k : nat) (w : World) :
  on_course w ->
  Options.loop (options (this w)) = false ->
  remaining (this w) = Z.of_nat (S k) ->
  (forall j, (j <= k)%nat -> on_course (Nat.iter j tick w)) /\
  (exists es,
      calls (Nat.iter (S k) tick w)
      = calls w ++ es ++ call_if (Options.onComplete (options (this w))) Complete /\
      ~ In Complete es) /\
  pendingSteps (Nat.iter (S k) tick w) = [] /\
  options (this (Nat.iter (S k) tick w)) = options (this w) /\
  currentStringIndex (this (Nat.iter (S k) tick w))
  = array_length (Options.strings (options (this w))) /\
  tick (Nat.iter (S k) tick w) = Nat.iter (S k) tick w.
Proof.
  revert w. induction k as [|k IH]; intros w Hw Hl Hrem.
  - change (Nat.iter 1 tick w) with (tick w).
    destruct (tick_active w Hw)
      as [[Hw' [_ [_ [Hdec | Hloop]]]] | [_ [_ [Hopt [Hcalls [Hnone [Hidx [_ Hfix]]]]]]]].
    + destruct Hw' as [Hact' _]. apply remaining_pos_active in Hact'. lia.
    + congruence.
    + split; [intros j Hj; replace j with 0%nat by lia; exact Hw|].
      split; [exists []; split; [exact Hcalls | intros []]|].
      repeat split; assumption.
  - rewrite !Nat.iter_succ_r.
    destruct (tick_active w Hw)
      as [[Hw' [Hopt [[es [Hes Hno]] [Hdec | Hloop]]]] | [_ [Hone _]]];
      [| congruence | lia].
    destruct (IH (tick w) Hw') as [Hcourse [[es' [Hes' Hno']] [Hnone [Hopt' [Hidx Hfix]]]]];
      [rewrite Hopt; exact Hl | lia |].
    rewrite <- !Nat.iter_succ_r in *.
    split.
    + intros [|j] Hj; [exact Hw|]. rewrite Nat.iter_succ_r. apply Hcourse. lia.
    + split.
      * exists (es ++ es'). rewrite Hes', Hes, Hopt, <- !app_assoc. split; [reflexivity|].
        intros Hin. apply in_app_or in Hin. tauto.
      * rewrite Hopt', Hopt, Hidx, Hopt. repeat split; try reflexivity; assumption.
Qed.

Lemma constructor_is_construct_now element o w0 :
  constructor element o newWindow = Some w0 ->
  ~ (0 < Options.startDelay (Options.resolve o))%R ->
  w0 = construct_now o.
Proof.
  intros Hnew Hsd. apply constructor_world in Hnew. subst w0.
  rewrite init_choice_eq. rewrite Rltb_false by exact Hsd. reflexivity.
Qed.

(** An instance built without start delay is under way as soon as it is
    built: the first step has run inside the constructor. *)
Lemma construct_now_course (o : TypedTextOptions.t) :
  TypedTextOptions.strings o <> [] ->
  on_course (construct_now o) /\
  options (this (construct_now o)) = Options.resolve o /\
  ~ In Complete (calls (construct_now o)) /\
  (Options.loop (Options.resolve o) = false ->
   remaining (this (construct_now o)) = strings_cost (TypedTextOptions.strings o) - 1).
Proof.
  intros Hss. unfold construct_now.
  destruct o as [ss ts lp cv sc cc bs bd sd oc osc oss]. cbn in Hss.
  destruct ss as [|s ss]; [congruence|].
  unfold init_choice, startCursorBlink, setInterval, add_timer, bind, get_this, update, ret.
  destruct sc as [[|]|]; cbn -[typeText];
    match goal with
    | |- context [typeText ?W] =>
        assert (active (this W)) as Hact
          by (unfold active, charIndexInBounds, getCurrentString, string_length,
                array_length; cbn; repeat split; try assumption; lia);
        assert (window_ok (window W)) as Hok
          by (unfold window_ok; cbn; split; [lia | repeat constructor; cbn; lia]);
        assert (pendingSteps W = []) as Hnone by reflexivity;
        assert (calls W = []) as Hcalls by reflexivity;
        assert (remaining (this W) = strings_cost (s :: ss)) as Hrem
          by (unfold remaining, getCurrentString; cbn;
              change (Pos.to_nat 1) with 1%nat; cbn [skipn]; lia);
        pose proof (strings_cost_nonneg ss) as Hcost;
        destruct (typeText_active W Hact)
          as [[d [w' [-> [Hwin [Hact' [Hopt [[es [Hes Hno]] Hdec]]]]]]] | [_ [Hone _]]]
    end;
    try (rewrite Hrem in Hone;
         change (strings_cost (s :: ss)) with (string_cost s + strings_cost ss) in Hone;
         unfold string_cost, string_length in Hone; lia);
    cbn [world_of];
    (split; [apply on_course_schedule_step;
               [exact Hact' | rewrite Hwin; exact Hok
               | rewrite (pendingSteps_window w' _ Hwin); exact Hnone]|]);
    (split; [exact Hopt|]);
    (split; [cbn; rewrite Hes, Hcalls; exact Hno|]);
    intros Hloop; cbn in Hloop;
    (destruct Hdec as [Hdec | Hdec]; [|cbn in Hdec; congruence]);
    rewrite Hrem in Hdec; exact Hdec.
Qed.

(** X13.  An animation that does not loop comes to its end.  For an
    instance built without start delay on a non-empty array, the
    constructor runs the first step, and after [n] more awaited steps,
    where [n + 1] is the sum of [2 * length + 2] over the strings (one step
    per character typed, one for the completion of the string, one per
    character erased, one to move on): [onComplete] is called for the first
    and only time by the last of these steps, no step is pending,
    [getCurrentStringIndex()] is the length of the array and
    [getCurrentString()] is empty; before that a step is pending all along;
    after that nothing happens any more. *)
Theorem animation_without_loop_completes
    (element : ElementArg) (o : TypedTextOptions.t) (w0 : World) :
  constructor element o newWindow = Some w0 ->
  TypedTextOptions.strings o <> [] ->
  ~ (0 < Options.startDelay (Options.resolve o))%R ->
  Options.loop (Options.resolve o) = false ->
  exists n : nat,
    Z.of_nat n = strings_cost (TypedTextOptions.strings o) - 1 /\
    (forall j, (j < n)%nat -> on_course (Nat.iter j tick w0)) /\
    (exists es,
        calls (Nat.iter n tick w0)
        = es ++ call_if (TypedTextOptions.onComplete o) Complete /\
        ~ In Complete es) /\
    pendingSteps (Nat.iter n tick w0) = [] /\
    getCurrentStringIndex (this (Nat.iter n tick w0))
    = array_length (TypedTextOptions.strings o) /\
    getCurrentString (this (Nat.iter n tick w0)) = EmptyString /\
    forall m, Nat.iter m tick (Nat.iter n tick w0) = Nat.iter n tick w0.
Proof.
  intros Hnew Hss Hsd Hloop.
  rewrite (constructor_is_construct_now element o w0 Hnew Hsd).
  destruct (construct_now_course o Hss) as [Hw [Hopt [Hquiet Hrem]]].
  specialize (Hrem Hloop).
  pose proof (remaining_pos_active _ (proj1 Hw)) as Hpos.
  destruct (Z.to_nat (remaining (this (construct_now o)))) as [|k] eqn:Hk; [lia|].
  assert (Options.loop (options (this (construct_now o))) = false) as Hl
      by (rewrite Hopt; exact Hloop).
  destruct (completes_after_remaining k (construct_now o) Hw Hl)
    as [Hcourse [[es [Hes Hno]] [Hnone [Hopt' [Hidx Hfix]]]]]; [lia|].
  exists (S k). split; [lia|].
  split; [intros j Hj; apply Hcourse; lia|].
  split.
  - exists (calls (construct_now o) ++ es). rewrite Hes, Hopt, <- app_assoc.
    split; [reflexivity|]. intros Hin. apply in_app_or in Hin. tauto.
  - split; [exact Hnone|]. unfold getCurrentStringIndex, getCurrentString.
    rewrite Hopt', Hidx, Hopt. cbn [Options.resolve Options.strings].
    split; [reflexivity|]. split.
    + rewrite index_past_end by lia. reflexivity.
    + intros m. apply iter_fixpoint. exact Hfix.
Qed.

Lemma animation_without_loop_completes_witness :
  exists n : nat,
    Z.of_nat n = 5 /\
    calls (Nat.iter n tick (construct_now (defaults ["ab"%string])))
    = [StringStart 0; StringComplete 0; Complete] /\
    pendingSteps (Nat.iter n tick (construct_now (defaults ["ab"%string]))) = [] /\
    getCurrentStringIndex (this (Nat.iter n tick (construct_now (defaults ["ab"%string])))) = 1.
Proof.
  assert (constructor Node (defaults ["ab"%string]) newWindow
          = Some (construct_now (defaults ["ab"%string]))) as Hnew
      by (apply constructor_now; discriminate).
  assert (TypedTextOptions.strings (defaults ["ab"%string]) <> []) as Hss by discriminate.
  assert (~ (0 < Options.startDelay (Options.resolve (defaults ["ab"%string])))%R) as Hsd
      by (cbn; lra).
  destruct (animation_without_loop_completes Node (defaults ["ab"%string]) _
              Hnew Hss Hsd eq_refl)
    as [n [Hn [_ [_ [Hnone [Hidx _]]]]]].
  exists n. split; [exact Hn|].
  assert (n = 5%nat) as Hn5 by (cbn in Hn; lia).
  split; [|split; [exact Hnone | exact Hidx]].
  rewrite Hn5. vm_compute. reflexivity.
Defined.

Lemma abc_on_course : on_course (construct_now (defaults ["abc"%string])).
Proof. apply construct_now_course. discriminate. Qed.

Lemma typing_pass_witness :
  currentCharIndex (this (Nat.iter 2 tick (construct_now (defaults ["abc"%string])))) = 1 + 2 /\
  textContent (this (Nat.iter 2 tick (construct_now (defaults ["abc"%string])))) = "abc"%string.
Proof.
  assert (1 + Z.of_nat 2 <= 3) as Hk by lia.
  destruct (typing_pass (construct_now (defaults ["abc"%string])) "abc" 2
              abc_on_course eq_refl eq_refl Hk)
    as [_ [_ [_ [Hc [_ Hfull]]]]].
  split; [exact Hc|]. apply Hfull; [lia | reflexivity].
Defined.

Lemma abc_typed_on_course :
  on_course (Nat.iter 3 tick (construct_now (defaults ["abc"%string]))).
Proof.
  destruct (completes_after_remaining 6 (construct_now (defaults ["abc"%string]))
              abc_on_course eq_refl eq_refl) as [Hcourse _].
  apply Hcourse. lia.
Qed.

Lemma backspacing_pass_witness :
  currentCharIndex
    (this (Nat.iter 3 tick (Nat.iter 3 tick (construct_now (defaults ["abc"%string]))))) = 3 - 3 /\
  textContent
    (this (Nat.iter 3 tick (Nat.iter 3 tick (construct_now (defaults ["abc"%string])))))
  = EmptyString.
Proof.
  assert (Z.of_nat 3 <= 3) as Hk by lia.
  destruct (backspacing_pass (Nat.iter 3 tick (construct_now (defaults ["abc"%string])))
              "abc" 3 abc_typed_on_course eq_refl eq_refl Hk)
    as [_ [_ [_ [Hc [_ [_ Hempty]]]]]].
  split; [exact Hc|]. apply Hempty; [lia | reflexivity].
Defined.

(** ** The cursor and the steps do not disturb each other *)

Lemma cursorTick_live (w : World) :
  isDestroyed (this w) = false ->
  world_of (cursorTick w)
  = with_this (fun t => set_cursorHidden (showCursor t)
                          (set_showCursor (negb (showCursor t)) t)) w.
Proof. intros Hd. rewrite cursorTick_eq, Hd. reflexivity. Qed.

(** X14.  A toggle of the cursor and a step of the animation do not
    disturb each other: whichever of the two callbacks the host runs first,
    the instance, the active timers and the log of calls end up the same,
    in every world (a step that throws included). *)
Theorem cursor_toggle_commutes_with_step (w : World) :
  world_of (typeText (world_of (cursorTick w)))
  = world_of (cursorTick (world_of (typeText w))).
Proof.
  destruct (isDestroyed (this w)) eqn:Hd.
  { assert (world_of (cursorTick w) = w) as Hsame
        by (rewrite cursorTick_eq, Hd; reflexivity).
    rewrite (typeText_destroyed w Hd). cbn [world_of]. rewrite Hsame.
    rewrite (typeText_destroyed w Hd). reflexivity. }
  assert (isDestroyed (this (world_of (typeText w))) = false) as Hd'
      by (rewrite typeText_isDestroyed; exact Hd).
  rewrite (cursorTick_live w Hd), (cursorTick_live _ Hd').
  set (w' := with_this (fun t => set_cursorHidden (showCursor t)
                                   (set_showCursor (negb (showCursor t)) t)) w).
  destruct (typeText_cases w) as
    [[Hnil | Hdes] Heq | Hn H1 H2 H3 Heq | s Hn H1 H2 H3 H4 Heq | s Hn H1 H2 H3 H4 Heq
     | Hn H1 H2 H3 H4 Heq | s Hn H1 H2 H3 H4 Heq | Hn H1 H2 H3 H4 Heq
     | Hn H1 H2 H3 H4 H5 Heq | Hn H1 H2 H3 H4 H5 Heq]; rewrite Heq.
  - rewrite (typeText_no_strings w') by exact Hnil. reflexivity.
  - congruence.
  - rewrite (typeText_typing_throws w' H1 Hn H2 H3). reflexivity.
  - rewrite (typeText_types w' s H1 H2 H3 H4). reflexivity.
  - rewrite (typeText_string_complete w' s H1 H2 H3 H4). reflexivity.
  - rewrite (typeText_backspacing_throws w' H1 Hn H2 H3 H4). reflexivity.
  - rewrite (typeText_backspaces w' s H1 H2 H3 H4). reflexivity.
  - rewrite (typeText_next_string w' H1 H2 H3 H4 Hn). reflexivity.
  - rewrite (typeText_wraps w' H1 H2 H3 H4 Hn H5). reflexivity.
  - rewrite (typeText_completes w' H1 H2 H3 H4 Hn H5). reflexivity.
Qed.

(** ** A step on a string that is no longer there *)

Lemma sole_step_fire (w : World) (h : Z) (d : R) :
  timeoutId (this w) = Some h ->
  find_timer h w = Some (mkTimer h StepCallback d false) ->
  tick w = world_of (typeText (world_of (clearTimeout h w))).
Proof.
  intros Hid Hfind. unfold tick. rewrite Hid. unfold fire. rewrite Hfind. reflexivity.
Qed.

Lemma tick_idle (w : World) (h : Z) :
  timeoutId (this w) = Some h -> find_timer h w = None -> tick w = w.
Proof. intros Hid Hfind. unfold tick. rewrite Hid. unfold fire. rewrite Hfind. reflexivity. Qed.

(** X15.  When [updateOptions] has left [currentStringIndex] outside the
    array of strings, the awaited step throws on reading a property of the
    missing string (while typing, or while backspacing with characters left)
    and schedules nothing: the animation halts for good, the text stays as it
    is, and [isRunning()] still answers [true]. *)
Theorem step_on_missing_string_halts (w : World) :
  isDestroyed (this w) = false ->
  Options.strings (options (this w)) <> [] ->
  array_length (Options.strings (options (this w))) <= currentStringIndex (this w) ->
  isTyping (this w) = true \/ currentCharIndex (this w) > 0 ->
  sole_step w ->
  (exists h w', timeoutId (this w) = Some h /\
                typeText (world_of (clearTimeout h w)) = Abrupt w') /\
  pendingSteps (tick w) = [] /\
  isRunning (this (tick w)) = true /\
  textContent (this (tick w)) = textContent (this w) /\
  forall n, Nat.iter n tick (tick w) = tick w.
Proof.
  intros Hd Hss Hi Hor [h [d [Hid [Hfind Hone]]]].
  pose proof (index_past_end _ _ Hi) as Hnone.
  assert (array_length (Options.strings (options (this w))) <> 0) as Hn.
  { intros Hz. apply array_length_zero in Hz. contradiction. }
  set (w1 := world_of (clearTimeout h w)).
  assert (pendingSteps w1 = []) as Hsteps1.
  { unfold w1. rewrite pendingSteps_clearTimeout, Hone. cbn. rewrite Z.eqb_refl. reflexivity. }
  assert (exists w',
            typeText w1 = Abrupt w' /\ window w' = window w1 /\
            timeoutId (this w') = Some h /\ textContent (this w') = textContent (this w))
    as [w' [Heq [Hwin [Hid' Htext]]]].
  { destruct Hor as [Ht | Hc].
    - eexists. split; [apply typeText_typing_throws; assumption|].
      repeat split; assumption.
    - destruct (isTyping (this w)) eqn:Ht.
      + eexists. split; [apply typeText_typing_throws; assumption|].
        repeat split; assumption.
      + eexists. split; [apply typeText_backspacing_throws; assumption|].
        repeat split; assumption. }
  rewrite (sole_step_fire w h d Hid Hfind). fold w1. rewrite Heq. cbn [world_of].
  split; [exists h, w'; split; [exact Hid | exact Heq]|].
  split; [rewrite (pendingSteps_window w' w1 Hwin); exact Hsteps1|].
  split; [unfold isRunning; rewrite Hid'; reflexivity|].
  split; [exact Htext|].
  intros n. apply iter_fixpoint. apply (tick_idle w' h Hid').
  unfold find_timer. rewrite Hwin. apply find_timer_cleared.
Qed.

Lemma step_on_missing_string_halts_witness :
  pendingSteps
    (tick (run [Fire 2; Fire 3; Fire 4; UpdateOptions (only_strings ["a"%string])]
             (construct_now (defaults ["a"%string; "b"%string])))) = [] /\
  isRunning
    (this (tick (run [Fire 2; Fire 3; Fire 4; UpdateOptions (only_strings ["a"%string])]
                   (construct_now (defaults ["a"%string; "b"%string]))))) = true.
Proof.
  assert (sole_step (run [Fire 2; Fire 3; Fire 4; UpdateOptions (only_strings ["a"%string])]
                       (construct_now (defaults ["a"%string; "b"%string])))) as Hsole.
  { exists 5, 500%R. repeat split; vm_compute; reflexivity. }
  assert (Options.strings
            (options (this (run [Fire 2; Fire 3; Fire 4;
                                 UpdateOptions (only_strings ["a"%string])]
                              (construct_now (defaults ["a"%string; "b"%string])))))
          <> []) as Hss by (vm_compute; discriminate).
  assert (array_length
            (Options.strings
               (options (this (run [Fire 2; Fire 3; Fire 4;
                                    UpdateOptions (only_strings ["a"%string])]
                                 (construct_now (defaults ["a"%string; "b"%string]))))))
          <= currentStringIndex
               (this (run [Fire 2; Fire 3; Fire 4;
                           UpdateOptions (only_strings ["a"%string])]
                        (construct_now (defaults ["a"%string; "b"%string]))))) as Hi
      by (vm_compute; discriminate).
  assert (isDestroyed
            (this (run [Fire 2; Fire 3; Fire 4; UpdateOptions (only_strings ["a"%string])]
                     (construct_now (defaults ["a"%string; "b"%string])))) = false) as Hd
      by (vm_compute; reflexivity).
  assert (isTyping
            (this (run [Fire 2; Fire 3; Fire 4; UpdateOptions (only_strings ["a"%string])]
                     (construct_now (defaults ["a"%string; "b"%string])))) = true) as Ht
      by (vm_compute; reflexivity).
  destruct (step_on_missing_string_halts _ Hd Hss Hi (or_introl Ht) Hsole)
    as [_ [Hnone [Hrun _]]].
  split; [exact Hnone | exact Hrun].
Defined.

(** ** Restarting *)

Lemma run_tracked element o w0 acts :
  constructor element o newWindow = Some w0 ->
  ~ (0 < Options.startDelay (Options.resolve o))%R ->
  Forall no_start acts ->
  tracked (run acts w0).
Proof.
  intros Hnew Hsd Hacts.
  assert (Forall kind_ok (timers (window w0)) /\ tracked w0) as Hinv.
  { split.
    - apply reachable_kind_ok. eapply reachable_new. exact Hnew.
    - apply constructor_world in Hnew. subst w0. rewrite init_choice_eq.
      rewrite Rltb_false by exact Hsd. apply tracked_init_choice. reflexivity. }
  clear Hnew. revert w0 Hinv.
  induction Hacts as [|a acts Ha _ IH]; intros w0 [Hk Htr]; [exact Htr|].
  cbn [run fold_left]. apply IH. split.
  - apply kind_ok_perform. exact Hk.
  - apply tracked_perform; assumption.
Qed.

(** [start] when no step is pending: the first step runs at once and its
    successor is the only step pending. *)
Lemma start_from_rest (w : World) :
  isDestroyed (this w) = false ->
  Options.strings (options (this w)) <> [] ->
  window_ok (window w) ->
  pendingSteps w = [] ->
  on_course (world_of (start w)) /\
  currentStringIndex (this (world_of (start w))) = 0 /\
  forall s,
    index (Options.strings (options (this w))) 0 = Some s ->
    0 < string_length s ->
    isTyping (this (world_of (start w))) = true /\
    currentCharIndex (this (world_of (start w))) = 1 /\
    textContent (this (world_of (start w))) = substring0 s 1 /\
    calls (world_of (start w))
    = calls w ++ call_if (Options.onStringStart (options (this w))) (StringStart 0).
Proof.
  intros Hd Hss Hok Hnone. rewrite start_eq, Hd.
  assert (0 <= 0 < array_length (Options.strings (options (this w)))) as Hr.
  { destruct (Options.strings (options (this w))); [congruence|].
    unfold array_length. cbn [List.length]. lia. }
  destruct (index_in_range _ 0 Hr) as [s Hs].
  assert (isDestroyed (this (with_this rewind w)) = false) as Hd' by exact Hd.
  assert (isTyping (this (with_this rewind w)) = true) as Ht' by reflexivity.
  assert (index (Options.strings (options (this (with_this rewind w))))
            (currentStringIndex (this (with_this rewind w))) = Some s) as Hs' by exact Hs.
  destruct (Z_lt_le_dec 0 (string_length s)) as [Hc|Hc].
  - rewrite (typeText_types (with_this rewind w) s Hd' Ht' Hs' Hc). cbv zeta. cbn [world_of].
    split.
    { apply on_course_schedule_step; [|exact Hok|exact Hnone].
      unfold active, charIndexInBounds, getCurrentString. cbn -[index string_length].
      rewrite Hs. cbn [nullish].
      repeat split; try assumption; lia. }
    split; [reflexivity|].
    intros s0 Hs0 _. rewrite Hs in Hs0. injection Hs0 as <-.
    repeat split; reflexivity.
  - rewrite (typeText_string_complete (with_this rewind w) s Hd' Ht' Hs' Hc). cbn [world_of].
    split.
    { apply on_course_schedule_step; [|exact Hok|exact Hnone].
      unfold active, charIndexInBounds, getCurrentString. cbn -[index string_length].
      rewrite Hs. cbn [nullish].
      unfold string_length in *. repeat split; try assumption; lia. }
    split; [reflexivity|].
    intros s0 Hs0 Hpos. rewrite Hs in Hs0. injection Hs0 as <-. lia.
Qed.

Lemma halt_keeps (a : Action) (w : World) :
  a = Stop \/ a = Reset ->
  isDestroyed (this w) = false ->
  isDestroyed (this (perform a w)) = false /\
  options (this (perform a w)) = options (this w) /\
  calls (perform a w) = calls w /\
  pendingSteps (perform a w) = pendingSteps (world_of (stop w)).
Proof.
  intros [-> | ->] Hd; cbn [perform].
  - rewrite stop_eq. cbn [world_of].
    destruct (truthy (timeoutId (this w))); repeat split; try reflexivity; exact Hd.
  - rewrite reset_eq, Hd, stop_eq. cbn [world_of].
    destruct (truthy (timeoutId (this w))); repeat split; try reflexivity; exact Hd.
Qed.

(** X16.  [stop()] or [reset()] followed by [start()] restarts the
    animation cleanly.  For an instance built without start delay on which
    [start()] has not been called before, still alive and with strings: the
    animation is under way on the first string with exactly one step
    pending, the one [timeoutId] holds; and when the first string is not
    empty its first character is shown at once and [onStringStart(0)] is the
    only call made. *)
Theorem start_after_halt_restarts
    (element : ElementArg) (o : TypedTextOptions.t) (w0 : World)
    (acts : list Action) (a : Action) :
  constructor element o newWindow = Some w0 ->
  ~ (0 < Options.startDelay (Options.resolve o))%R ->
  Forall no_start acts ->
  a = Stop \/ a = Reset ->
  isDestroyed (this (run acts w0)) = false ->
  Options.strings (options (this (run acts w0))) <> [] ->
  on_course (run (acts ++ [a; Start]) w0) /\
  getCurrentStringIndex (this (run (acts ++ [a; Start]) w0)) = 0 /\
  forall s,
    index (Options.strings (options (this (run acts w0)))) 0 = Some s ->
    0 < string_length s ->
    isTyping (this (run (acts ++ [a; Start]) w0)) = true /\
    currentCharIndex (this (run (acts ++ [a; Start]) w0)) = 1 /\
    textContent (this (run (acts ++ [a; Start]) w0)) = substring0 s 1 /\
    calls (run (acts ++ [a; Start]) w0)
    = calls (run acts w0)
      ++ call_if (Options.onStringStart (options (this (run acts w0)))) (StringStart 0).
Proof.
  intros Hnew Hsd Hacts Ha Hd Hss. rewrite run_app.
  assert (reachable (run acts w0)) as Hreach
      by (apply reachable_run; eapply reachable_new; exact Hnew).
  pose proof (reachable_window_ok _ Hreach) as Hok.
  pose proof (run_tracked element o w0 acts Hnew Hsd Hacts) as Htr.
  set (w := run acts w0) in *.
  change (run [a; Start] w) with (world_of (start (perform a w))).
  destruct (halt_keeps a w Ha Hd) as [Hd1 [Hopt1 [Hcalls1 Hsteps1]]].
  assert (pendingSteps (perform a w) = []) as Hnone
      by (rewrite Hsteps1; apply stop_none_pending; assumption).
  assert (Options.strings (options (this (perform a w))) <> []) as Hss1
      by (rewrite Hopt1; exact Hss).
  destruct (start_from_rest (perform a w) Hd1 Hss1 (perform_window_ok a w Hok) Hnone)
    as [Hcourse [Hidx Hfirst]].
  split; [exact Hcourse|]. split; [exact Hidx|].
  intros s Hs Hpos. rewrite <- Hopt1 in Hs.
  destruct (Hfirst s Hs Hpos) as [Ht [Hc [Htext Hcalls]]].
  rewrite Hopt1, Hcalls1 in Hcalls. repeat split; assumption.
Qed.

Lemma start_after_halt_restarts_witness :
  pendingSteps (run ([Fire 2; Fire 1] ++ [Stop; Start]) (construct_now (defaults ["ab"%string])))
  = [4] /\
  textContent
    (this (run ([Fire 2; Fire 1] ++ [Stop; Start]) (construct_now (defaults ["ab"%string]))))
  = substring0 "ab" 1.
Proof.
  assert (~ (0 < Options.startDelay (Options.resolve (defaults ["ab"%string])))%R) as Hsd
      by (cbn; lra).
  assert (constructor Node (defaults ["ab"%string]) newWindow
          = Some (construct_now (defaults ["ab"%string]))) as Hnew
      by (apply constructor_now; discriminate).
  assert (Forall no_start [Fire 2; Fire 1]) as Hacts by (repeat constructor).
  assert (isDestroyed (this (run [Fire 2; Fire 1] (construct_now (defaults ["ab"%string]))))
          = false) as Hd by (vm_compute; reflexivity).
  assert (Options.strings
            (options (this (run [Fire 2; Fire 1] (construct_now (defaults ["ab"%string])))))
          <> []) as Hss by (vm_compute; discriminate).
  assert (index (Options.strings
                   (options (this (run [Fire 2; Fire 1]
                                     (construct_now (defaults ["ab"%string])))))) 0
          = Some "ab"%string) as Hs by (vm_compute; reflexivity).
  assert (0 < string_length "ab") as Hpos by (vm_compute; reflexivity).
  destruct (start_after_halt_restarts Node (defaults ["ab"%string]) _ [Fire 2; Fire 1] Stop
              Hnew Hsd Hacts (or_introl eq_refl) Hd Hss)
    as [_ [_ Hfirst]].
  destruct (Hfirst _ Hs Hpos) as [_ [_ [Htext _]]].
  split; [vm_compute; reflexivity | exact Htext].
Defined.

(** ** The constructor *)

Lemma typeText_children (w : World) :
  children (this (world_of (typeText w))) = children (this w).
Proof. js_unfold. split_ifs; reflexivity. Qed.

Lemma init_fresh (o : Options.t) (win : Window) :
  exists w,
    init (mkWorld (fresh o) win []) = Normal tt w /\
    options (this w) = o /\
    isDestroyed (this w) = false /\
    children (this w)
    = textElement :: (if Options.showCursor o then [cursorElement] else []) /\
    cursorIntervalId (this w)
    = (if Options.showCursor o then Some (nextHandle win) else None).
Proof.
  rewrite init_choice_eq.
  destruct (Rltb 0 (Options.startDelay (options (this (mkWorld (fresh o) win []))))).
  - unfold init_choice, startCursorBlink, setInterval, setTimeout, add_timer,
      bind, get_this, update, ret.
    destruct o as [ss ts lp cv sc cc bs bd sd oc osc oss].
    destruct sc; destruct ss as [|s ss]; cbn; eexists; (split; [reflexivity|]);
      repeat split; reflexivity.
  - unfold init_choice, startCursorBlink, setInterval, setTimeout, add_timer,
      bind, get_this, update, ret.
    destruct o as [ss ts lp cv sc cc bs bd sd oc osc oss].
    destruct sc; destruct ss as [|s ss]; cbn -[typeText];
      try (eexists; (split; [reflexivity|]); repeat split; reflexivity);
      match goal with
      | |- context [typeText ?W] =>
          destruct (typeText_normal W s eq_refl eq_refl) as [w' Hw'];
          pose proof (typeText_options W) as Ho;
          pose proof (typeText_isDestroyed W) as Hd;
          pose proof (typeText_children W) as Hch;
          pose proof (proj1 (typeText_effect W)) as Hci;
          rewrite Hw' in *; cbn [world_of] in *;
          exists w'; split; [reflexivity|]; repeat split; assumption
      end.
Qed.

(** X17.  [new TypedText(element, options)] throws exactly when [element]
    is a selector that matches nothing, whatever the options.  Otherwise the
    instance holds the options with every default filled in, is not
    destroyed, and has put into the element the text span followed, when
    [showCursor] is on, by the cursor span, whose timer it then holds. *)
Theorem constructor_throws_only_on_missing_element
    (element : ElementArg) (o : TypedTextOptions.t) (win : Window) :
  (constructor element o win = None <-> element = Selector false) /\
  forall w,
    constructor element o win = Some w ->
    options (this w) = Options.resolve o /\
    isDestroyed (this w) = false /\
    children (this w)
    = textElement :: (if Options.showCursor (Options.resolve o) then [cursorElement] else []) /\
    cursorIntervalId (this w)
    = (if Options.showCursor (Options.resolve o) then Some (nextHandle win) else None).
Proof.
  destruct (init_fresh (Options.resolve o) win) as [w1 [Heq Hrest]].
  split.
  - split.
    + unfold constructor. destruct element as [|[|]]; rewrite ?Heq; try discriminate.
      reflexivity.
    + intros ->. reflexivity.
  - intros w Hnew. unfold constructor in Hnew.
    destruct element as [|[|]]; try discriminate; rewrite Heq in Hnew;
      injection Hnew as <-; exact Hrest.
Qed.

Lemma constructor_throws_only_on_missing_element_witness :
  options (this (construct_now (defaults ["ab"%string])))
  = Options.resolve (defaults ["ab"%string]) /\
  children (this (construct_now (defaults ["ab"%string]))) = [textElement; cursorElement].
Proof.
  assert (constructor Node (defaults ["ab"%string]) newWindow
          = Some (construct_now (defaults ["ab"%string]))) as Hnew
      by (apply constructor_now; discriminate).
  destruct (constructor_throws_only_on_missing_element Node (defaults ["ab"%string]) newWindow)
    as [_ Hsome].
  destruct (Hsome _ Hnew) as [Hopt [_ [Hch _]]].
  split; [exact Hopt | exact Hch].
Defined.

(** ** The start delay *)

(** X18.  With a start delay the constructor types nothing and calls
    nothing: the first step is left to the host, with the configured delay,
    and is the only step pending; [isRunning()] answers [false] meanwhile.
    Once that step has fired the animation is under way, and the instance
    holds the handle of the step then pending. *)
Theorem start_delay_defers_the_first_step
    (element : ElementArg) (o : TypedTextOptions.t) (w0 : World) :
  constructor element o newWindow = Some w0 ->
  (0 < Options.startDelay (Options.resolve o))%R ->
  TypedTextOptions.strings o <> [] ->
  textContent (this w0) = EmptyString /\
  calls w0 = [] /\
  isRunning (this w0) = false /\
  exists h,
    pendingSteps w0 = [h] /\
    find_timer h w0
    = Some (mkTimer h StepCallback (Options.startDelay (Options.resolve o)) false) /\
    on_course (fire h w0).
Proof.
  intros Hnew Hsd Hss. apply constructor_world in Hnew. subst w0.
  rewrite init_choice_eq. rewrite Rltb_true by exact Hsd.
  destruct o as [ss ts lp cv sc cc bs bd sd oc osc oss]. cbn in Hss.
  destruct ss as [|s ss]; [congruence|].
  unfold init_choice, startCursorBlink, setInterval, setTimeout, add_timer,
    bind, get_this, update, ret.
  destruct sc as [[|]|]; cbn -[typeText fire find_timer];
    (split; [reflexivity|]); (split; [reflexivity|]); (split; [reflexivity|]);
    eexists; (split; [reflexivity|]); (split; [reflexivity|]);
    unfold fire, find_timer; cbn -[typeText];
    match goal with
    | |- context [typeText ?W] =>
        assert (active (this W)) as Hact
          by (unfold active, charIndexInBounds, getCurrentString, string_length,
                array_length; cbn; repeat split; try assumption; lia);
        assert (window_ok (window W)) as Hok
          by (unfold window_ok; cbn; split; [lia | repeat constructor; cbn; lia]);
        assert (pendingSteps W = []) as Hnone by reflexivity;
        assert (remaining (this W) = strings_cost (s :: ss)) as Hrem
          by (unfold remaining, getCurrentString; cbn;
              change (Pos.to_nat 1) with 1%nat; cbn [skipn]; lia);
        pose proof (strings_cost_nonneg ss) as Hcost;
        destruct (typeText_active W Hact)
          as [[d [w' [-> [Hwin [Hact' _]]]]] | [_ [Hone _]]]
    end;
    try (rewrite Hrem in Hone;
         change (strings_cost (s :: ss)) with (string_cost s + strings_cost ss) in Hone;
         unfold string_cost, string_length in Hone; lia);
    cbn [world_of];
    (apply on_course_schedule_step;
      [exact Hact' | rewrite Hwin; exact Hok
      | rewrite (pendingSteps_window w' _ Hwin); exact Hnone]).
Qed.

Lemma start_delay_defers_the_first_step_witness :
  isRunning (this (construct_delayed delayed_a)) = false /\
  pendingSteps (construct_delayed delayed_a) = [2] /\
  on_course (fire 2 (construct_delayed delayed_a)).
Proof.
  assert (0 < Options.startDelay (Options.resolve delayed_a))%R as Hsd by (cbn; lra).
  assert (TypedTextOptions.strings delayed_a <> []) as Hss by discriminate.
  destruct (start_delay_defers_the_first_step Node delayed_a _
              constructor_delayed_a Hsd Hss)
    as [_ [_ [Hrun [h [Hone [_ Hcourse]]]]]].
  assert (pendingSteps (construct_delayed delayed_a) = [2]) as Htwo
      by (vm_compute; reflexivity).
  assert (h = 2) as -> by congruence.
  split; [exact Hrun|]. split; [exact Htwo | exact Hcourse].
Defined.

(** ** An instance without strings *)

Lemma at_rest_perform (a : Action) (w : World) :
  keeps_strings a ->
  Forall kind_ok (timers (window w)) ->
  at_rest w -> at_rest (perform a w).
Proof.
  intros Ha Hk [Hss [Hnone [Hcalls [Htext Hid]]]].
  pose (P := fun win : Window => pendingSteps (mkWorld (this w) win []) = []).
  assert (forall h w0, P (window w0) -> P (window (world_of (clearTimeout h w0)))) as Hclear.
  { intros h0 w0 H0. unfold P in *.
    change (pendingSteps (world_of (clearTimeout h0 w0)) = []).
    rewrite pendingSteps_clearTimeout.
    change (pendingSteps w0 = []) in H0. rewrite H0. reflexivity. }
  destruct a; cbn [perform keeps_strings] in *.
  - destruct (fire_cases h w Hk) as [-> | [[Hin _] | ->]].
    + repeat split; assumption.
    + rewrite Hnone in Hin. destruct Hin.
    + rewrite cursorTick_eq. cbn [world_of].
      destruct (isDestroyed (this w)); repeat split; assumption.
  - rewrite start_eq. destruct (isDestroyed (this w)); [repeat split; assumption|].
    rewrite (typeText_no_strings (with_this rewind w)) by exact Hss.
    repeat split; assumption.
  - rewrite stop_eq, Hid. repeat split; assumption.
  - rewrite reset_eq, stop_eq, Hid. cbn [truthy world_of].
    destruct (isDestroyed (this w)); repeat split; try assumption; reflexivity.
  - split; [|split; [|split; [|split]]].
    + rewrite destroy_eq, stopCursorBlink_eq, stop_eq. cbn [world_of].
      cbn. rewrite Hid. cbn. destruct (truthy (cursorIntervalId (this w))); exact Hss.
    + exact (cancelling_destroy P Hclear w Hnone).
    + rewrite destroy_eq, stopCursorBlink_eq, stop_eq. cbn [world_of].
      cbn. rewrite Hid. cbn. destruct (truthy (cursorIntervalId (this w))); exact Hcalls.
    + rewrite destroy_eq, stopCursorBlink_eq, stop_eq. cbn [world_of].
      cbn. rewrite Hid. cbn. destruct (truthy (cursorIntervalId (this w))); exact Htext.
    + rewrite destroy_eq, stopCursorBlink_eq, stop_eq. cbn [world_of].
      cbn. rewrite Hid. cbn. destruct (truthy (cursorIntervalId (this w))); exact Hid.
  - rewrite updateOptions_eq. cbn [world_of].
    destruct (isDestroyed (this w)); [repeat split; assumption|].
    split; [cbn; rewrite Ha; exact Hss|]. repeat split; assumption.
Qed.

(** X19.  An instance built on an empty array of strings stays idle as
    long as [updateOptions] gives it no strings: whatever the host fires and
    the page calls ([start()] included), no step is ever pending, no callback
    of the user is called, the text stays empty, [isRunning()] is [false] and
    [getCurrentString()] is empty. *)
Theorem without_strings_nothing_happens
    (element : ElementArg) (o : TypedTextOptions.t) (w0 : World) (acts : list Action) :
  constructor element o newWindow = Some w0 ->
  TypedTextOptions.strings o = [] ->
  Forall keeps_strings acts ->
  pendingSteps (run acts w0) = [] /\
  calls (run acts w0) = [] /\
  textContent (this (run acts w0)) = EmptyString /\
  isRunning (this (run acts w0)) = false /\
  getCurrentString (this (run acts w0)) = EmptyString.
Proof.
  intros Hnew Hss Hacts.
  assert (Forall kind_ok (timers (window w0)) /\ at_rest w0) as Hinv.
  { split.
    - apply reachable_kind_ok. eapply reachable_new. exact Hnew.
    - apply constructor_world in Hnew. subst w0. rewrite init_choice_eq.
      destruct o as [ss ts lp cv sc cc bs bd sd oc osc oss]. cbn in Hss. subst ss.
      unfold init_choice, startCursorBlink, setInterval, setTimeout, add_timer,
        bind, get_this, update, ret.
      destruct sc as [[|]|]; cbn; repeat split; reflexivity. }
  clear Hnew.
  assert (at_rest (run acts w0)) as [Hs [Hnone [Hcalls [Htext Hid]]]].
  { revert w0 Hinv.
    induction Hacts as [|a acts Ha _ IH]; intros w0 [Hk Hrest]; [exact Hrest|].
    cbn [run fold_left]. apply IH. split.
    - apply kind_ok_perform. exact Hk.
    - apply at_rest_perform; assumption. }
  split; [exact Hnone|]. split; [exact Hcalls|]. split; [exact Htext|].
  split; [unfold isRunning; rewrite Hid; reflexivity|].
  unfold getCurrentString. rewrite Hs. unfold index.
  destruct (currentStringIndex (this (run acts w0)) <? 0); [reflexivity|].
  destruct (Z.to_nat (currentStringIndex (this (run acts w0)))); reflexivity.
Qed.

Lemma without_strings_nothing_happens_witness :
  pendingSteps (run [Start; Fire 1; Reset; Start; UpdateOptions (only_typeSpeed 10)]
                  (world_of (init (mkWorld (fresh (Options.resolve (defaults []))) newWindow []))))
  = [] /\
  calls (run [Start; Fire 1; Reset; Start; UpdateOptions (only_typeSpeed 10)]
           (world_of (init (mkWorld (fresh (Options.resolve (defaults []))) newWindow []))))
  = [].
Proof.
  assert (constructor Node (defaults []) newWindow
          = Some (world_of (init (mkWorld (fresh (Options.resolve (defaults []))) newWindow []))))
    as Hnew.
  { unfold constructor.
    destruct (init_fresh (Options.resolve (defaults [])) newWindow) as [w [-> _]].
    reflexivity. }
  assert (Forall keeps_strings
            [Start; Fire 1; Reset; Start; UpdateOptions (only_typeSpeed 10)]) as Hacts
      by (repeat constructor).
  destruct (without_strings_nothing_happens Node (defaults []) _ _ Hnew eq_refl Hacts)
    as [Hnone [Hcalls _]].
  split; [exact Hnone | exact Hcalls].
Defined.

(** ** A looping animation does not complete *)

Lemma call_if_Complete (b : bool) (e : Event) :
  e <> Complete -> ~ In Complete (call_if b e).
Proof. intros He. destruct b; cbn; [intros [H|[]]; congruence | intros []]. Qed.

Lemma start_calls_quiet (w : World) : ~ In Complete (start_calls w).
Proof.
  unfold start_calls. destruct (_ =? 0); [apply call_if_Complete; discriminate | intros []].
Qed.

Lemma typeText_never_completes_a_loop (w : World) :
  Options.loop (options (this w)) = true ->
  ~ In Complete (calls w) ->
  ~ In Complete (calls (world_of (typeText w))).
Proof.
  intros Hl Hno. pose proof (start_calls_quiet w) as Hstart.
  destruct (typeText_cases w) as
    [_ Heq | _ _ _ _ Heq | s _ _ _ _ _ Heq | s _ _ _ _ _ Heq | _ _ _ _ _ Heq
     | s _ _ _ _ _ Heq | _ _ _ _ _ Heq | _ _ _ _ _ _ Heq | _ _ _ _ _ Hl' Heq];
    try congruence; rewrite Heq; cbn; try exact Hno;
    intros Hin; repeat (apply in_app_or in Hin; destruct Hin as [Hin|Hin]);
    try contradiction;
    revert Hin; apply call_if_Complete; discriminate.
Qed.

Lemma loop_kept_perform (a : Action) (w : World) :
  keeps_loop a ->
  Options.loop (options (this w)) = true /\ ~ In Complete (calls w) ->
  Options.loop (options (this (perform a w))) = true /\ ~ In Complete (calls (perform a w)).
Proof.
  intros Ha [Hl Hno]. destruct a; cbn [perform keeps_loop] in *.
  - unfold fire. destruct (find_timer h w) as [t|]; [|split; assumption].
    assert (forall w1, this w1 = this w -> calls w1 = calls w ->
              Options.loop (options (this (world_of (run_callback (callback t) w1)))) = true /\
              ~ In Complete (calls (world_of (run_callback (callback t) w1)))) as Hcb.
    { intros w1 Hthis Hcalls. destruct (callback t); cbn [run_callback].
      - rewrite typeText_options, Hthis. split; [exact Hl|].
        apply typeText_never_completes_a_loop; [rewrite Hthis; exact Hl|].
        rewrite Hcalls. exact Hno.
      - rewrite cursorTick_eq. cbn [world_of].
        destruct (isDestroyed (this w1)); [rewrite Hthis, Hcalls; split; assumption|].
        cbn. rewrite Hthis, Hcalls. split; assumption. }
    destruct (repeating t); apply Hcb; reflexivity.
  - rewrite start_eq. destruct (isDestroyed (this w)); [split; assumption|].
    rewrite typeText_options. split; [exact Hl|].
    apply typeText_never_completes_a_loop; assumption.
  - rewrite stop_eq. cbn [world_of].
    destruct (truthy (timeoutId (this w))); split; assumption.
  - rewrite reset_eq, stop_eq. cbn [world_of].
    destruct (isDestroyed (this w)); destruct (truthy (timeoutId (this w)));
      split; assumption.
  - rewrite destroy_eq, stopCursorBlink_eq, stop_eq. cbn.
    destruct (truthy (timeoutId (this w))); cbn;
      destruct (truthy (cursorIntervalId (this w))); split; assumption.
  - rewrite updateOptions_eq. cbn [world_of].
    destruct (isDestroyed (this w)); [split; assumption|].
    split; [|exact Hno]. cbn.
    destruct (PartialOptions.loop newOptions) as [[|]|]; cbn; congruence.
Qed.

(** X20.  A looping animation never calls [onComplete]: for an instance
    built with [loop] on, whatever the host fires and the page calls, as long
    as [updateOptions] does not switch [loop] off. *)
Theorem looping_never_calls_onComplete
    (element : ElementArg) (o : TypedTextOptions.t) (w0 : World) (acts : list Action) :
  constructor element o newWindow = Some w0 ->
  Options.loop (Options.resolve o) = true ->
  Forall keeps_loop acts ->
  ~ In Complete (calls (run acts w0)).
Proof.
  intros Hnew Hl Hacts.
  assert (Options.loop (options (this w0)) = true /\ ~ In Complete (calls w0)) as Hinv.
  { apply constructor_world in Hnew. subst w0. rewrite init_choice_eq.
    revert Hl. generalize (Options.resolve o). intros ro Hl.
    match goal with |- context [init_choice ?b] => destruct b end;
      destruct ro as [ss ts lp cv sc cc bs bd sd oc osc oss];
      unfold init_choice, startCursorBlink, setInterval, setTimeout, add_timer,
        bind, get_this, update, ret;
      destruct sc; destruct ss as [|s ss]; cbn -[typeText];
      try (split; [exact Hl | intros []]);
      (rewrite typeText_options; split; [exact Hl|];
       apply typeText_never_completes_a_loop; [exact Hl | intros []]). }
  clear Hnew. revert w0 Hinv.
  induction Hacts as [|a acts Ha _ IH]; intros w0 Hinv; [exact (proj2 Hinv)|].
  cbn [run fold_left]. apply IH. apply loop_kept_perform; assumption.
Qed.

Lemma looping_never_calls_onComplete_witness :
  ~ In Complete
      (calls (run [Fire 2; Fire 3; Fire 4; Start; Fire 5; Fire 6; Fire 7; Fire 8]
                (construct_now looping_ab))).
Proof.
  assert (constructor Node looping_ab newWindow = Some (construct_now looping_ab)) as Hnew
      by (apply constructor_now_of; [discriminate | cbn; lra]).
  apply (looping_never_calls_onComplete Node looping_ab _ _ Hnew eq_refl).
  repeat constructor.
Defined.

(** ** [destroy] and the host's timers *)

Lemma no_timers (w : World) :
  pendingSteps w = [] -> pendingBlinks w = [] -> timers (window w) = [].
Proof.
  unfold pendingSteps, pendingBlinks.
  destruct (timers (window w)) as [|t ts]; [reflexivity|].
  cbn [filter]. destruct (callback t); cbn [map]; intros Hs Hb; discriminate.
Qed.

Lemma destroy_no_step (w : World) :
  window_ok (window w) -> tracked w -> pendingSteps (world_of (destroy w)) = [].
Proof.
  intros Hok Htr. rewrite destroy_eq. cbn [world_of].
  match goal with
  | |- pendingSteps (with_this _ ?W) = [] => change (pendingSteps W = [])
  end.
  assert (pendingSteps (world_of (stop (with_this (set_isDestroyed true) w))) = []) as Hnone.
  { apply stop_none_pending; [exact Hok|].
    apply (tracked_same w); [reflexivity | reflexivity | exact Htr]. }
  rewrite stopCursorBlink_eq. cbn [world_of].
  match goal with
  | |- pendingSteps (with_this _ ?W) = [] => change (pendingSteps W = [])
  end.
  destruct (truthy _); [|exact Hnone].
  match goal with
  | |- pendingSteps (with_this _ (world_of (clearTimeout ?h ?W))) = [] =>
      change (pendingSteps (world_of (clearTimeout h W)) = []);
      rewrite pendingSteps_clearTimeout, Hnone
  end.
  reflexivity.
Qed.

(** With callbacks that call no method of the instance: [destroy()]
    leaves the host without any timer of the instance, for good. *)
Lemma destroy_leaves_no_timer_run
    (element : ElementArg) (o : TypedTextOptions.t) (w0 : World)
    (acts later : list Action) :
  constructor element o newWindow = Some w0 ->
  ~ (0 < Options.startDelay (Options.resolve o))%R ->
  Forall no_start acts ->
  timers (window (run later (world_of (destroy (run acts w0))))) = [].
Proof.
  intros Hnew Hsd Hacts.
  assert (reachable (run acts w0)) as Hreach
      by (apply reachable_run; eapply reachable_new; exact Hnew).
  pose proof (reachable_window_ok _ Hreach) as Hok.
  pose proof (run_tracked element o w0 acts Hnew Hsd Hacts) as Htr.
  pose proof (reachable_blink_tracked _ Hreach) as Hb.
  assert (timers (window (world_of (destroy (run acts w0)))) = []) as Hnone.
  { apply no_timers; [apply destroy_no_step | apply destroy_no_blink]; assumption. }
  destruct (torn_down_run later (world_of (destroy (run acts w0)))
              (destroy_torn_down (run acts w0))) as [_ [_ Hincl]].
  rewrite Hnone in Hincl. apply incl_l_nil. exact Hincl.
Qed.

(** ** The callbacks, in order *)

Lemma pass_calls_S (o : Options.t) (n : nat) :
  pass_calls o (S n) = pass_calls o n ++ string_calls o (Z.of_nat n).
Proof.
  unfold pass_calls. rewrite seq_S, flat_map_app. cbn [flat_map Nat.add].
  rewrite app_nil_r. reflexivity.
Qed.

Lemma pass_calls_next (o : Options.t) (i : Z) :
  0 <= i ->
  pass_calls o (Z.to_nat (i + 1)) = pass_calls o (Z.to_nat i) ++ string_calls o i.
Proof.
  intros Hi. rewrite Z2Nat.inj_add by lia. change (Z.to_nat 1) with 1%nat.
  rewrite Nat.add_1_r, pass_calls_S, Z2Nat.id by lia. reflexivity.
Qed.

(** A step of an animation that does not loop keeps the log of calls in
    line with the state, until the last step. *)
Lemma step_calls (w : World) :
  active (this w) ->
  Options.loop (options (this w)) = false ->
  calls w = calls_so_far (this w) ->
  (exists d w',
      typeText w = Normal tt (schedule_step d w') /\
      calls w' = calls_so_far (this w'))
  \/ (isTyping (this w) = false /\
      typeText w =
        Normal tt
          (with_calls (call_if (Options.onComplete (options (this w))) Complete)
             (with_this (fun t => set_currentStringIndex (currentStringIndex t + 1) t) w)) /\
      calls w
      = pass_calls (options (this w))
          (Z.to_nat (array_length (Options.strings (options (this w)))))).
Proof.
  intros [Hd [Hi [Hc0 Hc1]]] Hloop Hcalls.
  destruct (index_in_range _ _ Hi) as [s0 Hs0].
  unfold getCurrentString in Hc1. rewrite Hs0 in Hc1. cbn [nullish] in Hc1.
  unfold calls_so_far in Hcalls.
  destruct (typeText_cases w) as
    [[Hnil | Hdes] _ | _ _ _ Hs _ | s _ _ Ht Hs Hc Heq | s _ _ Ht Hs Hc Heq | _ _ _ Hs _ _
     | s _ _ Ht Hs Hc Heq | _ _ Ht Hc Hn Heq | _ _ Ht Hc Hn Hl Heq | _ _ Ht Hc Hn Hl Heq].
  - rewrite Hnil in Hi. cbn in Hi. lia.
  - congruence.
  - congruence.
  - left. cbv zeta in Heq. eexists; eexists. split; [exact Heq|].
    unfold calls_so_far, start_calls. cbn. rewrite Hcalls, Ht.
    assert ((currentCharIndex (this w) + 1 =? 0) = false) as -> by lia.
    destruct (currentCharIndex (this w) =? 0); rewrite <- ?app_assoc, ?app_nil_r; reflexivity.
  - left. eexists; eexists. split; [exact Heq|].
    unfold calls_so_far, start_calls, string_calls. cbn. rewrite Hcalls, Ht.
    destruct (currentCharIndex (this w) =? 0); cbn [app];
      rewrite <- ?app_assoc, ?app_nil_r; reflexivity.
  - congruence.
  - left. cbv zeta in Heq. eexists; eexists. split; [exact Heq|].
    unfold calls_so_far. cbn. rewrite Hcalls, Ht. reflexivity.
  - left. eexists; eexists. split; [exact Heq|].
    unfold calls_so_far. cbn. rewrite Hcalls, Ht.
    assert ((currentCharIndex (this w) =? 0) = true) as -> by lia.
    rewrite pass_calls_next by lia. rewrite app_nil_r. reflexivity.
  - congruence.
  - right. split; [exact Ht|]. split; [exact Heq|].
    rewrite Hcalls, Ht.
    replace (array_length (Options.strings (options (this w))))
      with (currentStringIndex (this w) + 1) by lia.
    rewrite pass_calls_next by lia. reflexivity.
Qed.

Lemma tick_calls (w : World) :
  on_course w ->
  Options.loop (options (this w)) = false ->
  calls w = calls_so_far (this w) ->
  (on_course (tick w) /\
   options (this (tick w)) = options (this w) /\
   calls (tick w) = calls_so_far (this (tick w)) /\
   remaining (this (tick w)) = remaining (this w) - 1)
  \/ (remaining (this w) = 1 /\
      calls (tick w)
      = pass_calls (options (this w))
          (Z.to_nat (array_length (Options.strings (options (this w)))))
        ++ call_if (Options.onComplete (options (this w))) Complete).
Proof.
  intros Hw Hloop Hcalls.
  destruct (tick_on_course w Hw)
    as [w1 [Htick [Hthis [Hcalls1 [_ [_ [Hnone _]]]]]]].
  assert (active (this w1)) as Hact1 by (rewrite Hthis; apply Hw).
  assert (Options.loop (options (this w1)) = false) as Hloop1 by (rewrite Hthis; exact Hloop).
  assert (calls w1 = calls_so_far (this w1)) as Hlog1 by (rewrite Hthis, Hcalls1; exact Hcalls).
  destruct (tick_active w Hw)
    as [[Hw' [Hopt [_ [Hdec | Hl]]]] | [_ [Hone [_ [Hlog [Hidle _]]]]]];
    [| congruence |];
    destruct (step_calls w1 Hact1 Hloop1 Hlog1) as [[d [w' [Heq Hlog']]] | [_ [Heq Hpass]]].
  - left. split; [exact Hw'|]. split; [exact Hopt|]. split; [|exact Hdec].
    rewrite Htick, Heq. cbn [world_of]. exact Hlog'.
  - exfalso. destruct Hw' as [_ [_ [h [d [_ [_ Hsole]]]]]].
    rewrite Htick, Heq in Hsole. cbn [world_of] in Hsole.
    change (pendingSteps w1 = [h]) in Hsole. rewrite Hnone in Hsole. discriminate.
  - exfalso. rewrite Htick, Heq in Hidle. cbn [world_of] in Hidle.
    rewrite pendingSteps_schedule_step in Hidle.
    destruct (pendingSteps w'); discriminate.
  - right. split; [exact Hone|]. rewrite Hlog, <- Hcalls1, Hpass, Hthis. reflexivity.
Qed.

Lemma calls_after_remaining (k : nat) (w : World) :
  on_course w ->
  Options.loop (options (this w)) = false ->
  calls w = calls_so_far (this w) ->
  remaining (this w) = Z.of_nat (S k) ->
  calls (Nat.iter (S k) tick w)
  = pass_calls (options (this w))
      (Z.to_nat (array_length (Options.strings (options (this w)))))
    ++ call_if (Options.onComplete (options (this w))) Complete.
Proof.
  revert w. induction k as [|k IH]; intros w Hw Hl Hlog Hrem.
  - change (Nat.iter 1 tick w) with (tick w).
    destruct (tick_calls w Hw Hl Hlog) as [[Hw' [_ [_ Hdec]]] | [_ Hend]]; [|exact Hend].
    destruct Hw' as [Hact' _]. apply remaining_pos_active in Hact'. lia.
  - rewrite Nat.iter_succ_r.
    destruct (tick_calls w Hw Hl Hlog) as [[Hw' [Hopt [Hlog' Hdec]]] | [Hone _]]; [|lia].
    rewrite (IH (tick w) Hw'); [rewrite Hopt; reflexivity | rewrite Hopt; exact Hl
                               | exact Hlog' | lia].
Qed.

Lemma construct_now_calls (o : TypedTextOptions.t) :
  TypedTextOptions.strings o <> [] ->
  Options.loop (Options.resolve o) = false ->
  calls (construct_now o) = calls_so_far (this (construct_now o)).
Proof.
  intros Hss Hloop. unfold construct_now.
  destruct o as [ss ts lp cv sc cc bs bd sd oc osc oss]. cbn in Hss.
  destruct ss as [|s ss]; [congruence|].
  unfold init_choice, startCursorBlink, setInterval, add_timer, bind, get_this, update, ret.
  destruct sc as [[|]|]; cbn -[typeText];
    match goal with
    | |- context [typeText ?W] =>
        assert (active (this W)) as Hact
          by (unfold active, charIndexInBounds, getCurrentString, string_length,
                array_length; cbn; repeat split; try assumption; lia);
        destruct (step_calls W Hact Hloop eq_refl)
          as [[d [w' [-> Hlog]]] | [Ht _]]; [|discriminate]
    end;
    cbn [world_of]; exact Hlog.
Qed.

(** X22.  The callbacks of an animation that does not loop, in order.
    For an instance built without start delay on a non-empty array, when
    the animation has come to its end the calls made to the callbacks the
    user provided are exactly: for each string in turn, [onStringStart(i)]
    then [onStringComplete(i)]; then [onComplete()]. *)
Theorem callbacks_follow_the_strings
    (element : ElementArg) (o : TypedTextOptions.t) (w0 : World) :
  constructor element o newWindow = Some w0 ->
  TypedTextOptions.strings o <> [] ->
  ~ (0 < Options.startDelay (Options.resolve o))%R ->
  Options.loop (Options.resolve o) = false ->
  exists n : nat,
    Z.of_nat n = strings_cost (TypedTextOptions.strings o) - 1 /\
    calls (Nat.iter n tick w0)
    = pass_calls (Options.resolve o) (List.length (TypedTextOptions.strings o))
      ++ call_if (TypedTextOptions.onComplete o) Complete.
Proof.
  intros Hnew Hss Hsd Hloop.
  rewrite (constructor_is_construct_now element o w0 Hnew Hsd).
  destruct (construct_now_course o Hss) as [Hw [Hopt [_ Hrem]]].
  specialize (Hrem Hloop).
  pose proof (construct_now_calls o Hss Hloop) as Hlog.
  pose proof (remaining_pos_active _ (proj1 Hw)) as Hpos.
  destruct (Z.to_nat (remaining (this (construct_now o)))) as [|k] eqn:Hk; [lia|].
  assert (Options.loop (options (this (construct_now o))) = false) as Hl
      by (rewrite Hopt; exact Hloop).
  exists (S k). split; [lia|].
  rewrite (calls_after_remaining k (construct_now o) Hw Hl Hlog) by lia.
  rewrite Hopt. unfold array_length. rewrite Nat2Z.id. reflexivity.
Qed.

Lemma callbacks_follow_the_strings_witness :
  exists n : nat,
    Z.of_nat n = 9 /\
    calls (Nat.iter n tick (construct_now (defaults ["ab"%string; "c"%string])))
    = [StringStart 0; StringComplete 0; StringStart 1; StringComplete 1; Complete].
Proof.
  assert (constructor Node (defaults ["ab"%string; "c"%string]) newWindow
          = Some (construct_now (defaults ["ab"%string; "c"%string]))) as Hnew
      by (apply constructor_now; discriminate).
  assert (TypedTextOptions.strings (defaults ["ab"%string; "c"%string]) <> []) as Hss
      by discriminate.
  assert (~ (0 < Options.startDelay
                   (Options.resolve (defaults ["ab"%string; "c"%string])))%R) as Hsd
      by (cbn; lra).
  destruct (callbacks_follow_the_strings Node (defaults ["ab"%string; "c"%string]) _
              Hnew Hss Hsd eq_refl)
    as [n [Hn Hlog]].
  exists n. split; [exact Hn | exact Hlog].
Defined.

(* ================================================================= *)
(** ** Callbacks that call the instance *)

(** When the code of the callbacks leaves the instance alone, the step is
    the one of [typeText]. *)
Lemma typeText_with_quiet (invoke : Event -> JS unit) :
  (forall e w, invoke e w = Normal tt w) ->
  forall w, typeText_with invoke w = typeText w.
Proof.
  intros Hq w.
  unfold typeText_with, typeText, call_back, notify, deref, setTimeout, add_timer,
    update, get_this, bind, ret.
  destruct (_ || _); [reflexivity|].
  destruct (isTyping (this w)).
  - destruct (currentCharIndex (this w) =? 0);
      [destruct (Options.onStringStart (options (this w)))|];
      rewrite ?Hq;
      (destruct (index (Options.strings (options (this w))) (currentStringIndex (this w)))
         as [s|]; [|reflexivity]);
      cbn [this window calls];
      (destruct (currentCharIndex (this w) <? string_length s); [reflexivity|]);
      destruct (Options.onStringComplete (options (this w))); rewrite ?Hq; reflexivity.
  - destruct (currentCharIndex (this w) >? 0); [reflexivity|].
    cbn [this window calls].
    destruct (_ >=? _); [|reflexivity].
    destruct (Options.loop _); [reflexivity|].
    destruct (Options.onComplete _); rewrite ?Hq; reflexivity.
Qed.

Lemma typeTextIn_passive (page : Page) (depth : nat) (w : World) :
  passive page -> typeTextIn page depth w = typeText w.
Proof.
  intros Hp. destruct depth; cbn [typeTextIn]; apply typeText_with_quiet;
    intros e w'; rewrite Hp; reflexivity.
Qed.

Lemma performIn_passive (page : Page) (depth : nat) (a : Action) (w : World) :
  passive page -> performIn page depth a w = perform a w.
Proof.
  intros Hp. destruct a; cbn [performIn perform]; try reflexivity.
  - unfold fireIn, fire. destruct (find_timer h w) as [t|]; [|reflexivity].
    destruct (callback t); cbn [run_callbackIn run_callback]; [|reflexivity].
    rewrite typeTextIn_passive by exact Hp. reflexivity.
  - unfold startIn, start_with, start, bind, get_this, update, ret.
    destruct (isDestroyed (this w)); [reflexivity|].
    rewrite typeTextIn_passive by exact Hp. reflexivity.
Qed.

Lemma runIn_passive (page : Page) (depth : nat) (acts : list Action) (w : World) :
  passive page -> runIn page depth acts w = run acts w.
Proof.
  intros Hp. revert w. induction acts as [|a acts IH]; intros w; [reflexivity|].
  cbn [runIn run fold_left]. rewrite performIn_passive by exact Hp. apply IH.
Qed.

Lemma no_call_passive : passive (fun _ _ => []).
Proof. intros e w. reflexivity. Qed.

(** *** After [destroy], whatever the callbacks *)

Lemma typeTextIn_destroyed (page : Page) (depth : nat) (w : World) :
  isDestroyed (this w) = true -> typeTextIn page depth w = Normal tt w.
Proof.
  intros Hd. destruct depth; cbn [typeTextIn];
    unfold typeText_with, bind, get_this, ret; rewrite Hd, orb_true_r; reflexivity.
Qed.

Lemma startIn_destroyed (page : Page) (depth : nat) (w : World) :
  isDestroyed (this w) = true -> startIn page depth w = Normal tt w.
Proof.
  intros Hd. unfold startIn, start_with, bind, get_this, ret. rewrite Hd. reflexivity.
Qed.

Lemma torn_down_fireIn (page : Page) (depth : nat) (h : Z) (w : World) :
  torn_down (this w) ->
  this (fireIn page depth h w) = this w /\ calls (fireIn page depth h w) = calls w /\
  incl (timers (window (fireIn page depth h w))) (timers (window w)).
Proof.
  intros Hdown. unfold fireIn.
  destruct (find_timer h w) as [t|]; [|repeat split; apply incl_refl].
  assert (forall w', this w' = this w ->
            world_of (run_callbackIn page depth (callback t) w') = w') as Hcb.
  { intros w' Hw'. destruct Hdown as [Hd _]. rewrite <- Hw' in Hd.
    destruct (callback t); cbn [run_callbackIn].
    - rewrite typeTextIn_destroyed by assumption. reflexivity.
    - rewrite cursorTick_eq, Hd. reflexivity. }
  destruct (repeating t).
  - rewrite Hcb by reflexivity. repeat split. apply incl_refl.
  - rewrite Hcb by reflexivity. repeat split. cbn. apply incl_filter.
Qed.

Lemma torn_down_performIn (page : Page) (depth : nat) (a : Action) (w : World) :
  torn_down (this w) ->
  this (performIn page depth a w) = this w /\ calls (performIn page depth a w) = calls w /\
  incl (timers (window (performIn page depth a w))) (timers (window w)).
Proof.
  intros Hdown. destruct a; cbn [performIn].
  - apply torn_down_fireIn. exact Hdown.
  - rewrite startIn_destroyed by apply Hdown. repeat split. apply incl_refl.
  - rewrite torn_down_stop by exact Hdown. repeat split. apply incl_refl.
  - rewrite torn_down_reset by exact Hdown. repeat split. apply incl_refl.
  - rewrite torn_down_destroy by exact Hdown. repeat split. apply incl_refl.
  - rewrite torn_down_updateOptions by exact Hdown. repeat split. apply incl_refl.
Qed.

Lemma torn_down_runIn (page : Page) (depth : nat) (acts : list Action) (w : World) :
  torn_down (this w) ->
  this (runIn page depth acts w) = this w /\ calls (runIn page depth acts w) = calls w /\
  incl (timers (window (runIn page depth acts w))) (timers (window w)).
Proof.
  revert w. induction acts as [|a acts IH]; intros w Hdown.
  - repeat split. apply incl_refl.
  - change (runIn page depth (a :: acts) w)
      with (runIn page depth acts (performIn page depth a w)).
    destruct (torn_down_performIn page depth a w Hdown) as [Ht [Hc Hi]].
    assert (torn_down (this (performIn page depth a w))) as Hdown'
        by (rewrite Ht; exact Hdown).
    destruct (IH _ Hdown') as [Ht' [Hc' Hi']].
    repeat split; [congruence | congruence |].
    eapply incl_tran; eassumption.
Qed.

Lemma find_timer_gone (h : Z) (w w' : World) :
  find_timer h w = None ->
  incl (timers (window w')) (timers (window w)) ->
  find_timer h w' = None.
Proof.
  unfold find_timer. intros Hnone Hincl.
  destruct (find _ (timers (window w'))) as [t|] eqn:Hf; [|reflexivity].
  apply find_some in Hf. destruct Hf as [Hin Heq].
  rewrite (find_none _ _ Hnone t (Hincl t Hin)) in Heq. discriminate.
Qed.

Lemma find_cleared (h : Z) (l : list Timer) :
  find (fun t => handle t =? h) (filter (fun t => negb (handle t =? h)) l) = None.
Proof.
  destruct (find _ _) as [t|] eqn:Hf; [|reflexivity].
  apply find_some in Hf. destruct Hf as [Hin Heq].
  apply filter_In in Hin. destruct Hin as [_ Hne].
  rewrite Heq in Hne. discriminate.
Qed.

(** [destroy] cancels the step and the cursor timer the instance knows. *)
Lemma destroy_cancels_known_timers (w : World) (h : Z) :
  0 < h ->
  timeoutId (this w) = Some h \/ cursorIntervalId (this w) = Some h ->
  find_timer h (world_of (destroy w)) = None.
Proof.
  intros Hpos Hid. assert ((h =? 0) = false) as Hnz by lia.
  rewrite destroy_eq, stopCursorBlink_eq, stop_eq. cbn [world_of].
  destruct Hid as [Hid | Hid].
  - apply (find_timer_gone h (world_of (clearTimeout h w))); [apply find_timer_cleared|].
    cbn. rewrite Hid. cbn. rewrite Hnz. cbn.
    destruct (truthy (cursorIntervalId (this w))); cbn;
      [apply incl_filter | apply incl_refl].
  - cbn. destruct (truthy (timeoutId (this w))); cbn; rewrite Hid; cbn; rewrite Hnz; cbn;
      apply find_cleared.
Qed.

(** X23.  [destroy()] called by the page outside the callbacks, whatever
    the callbacks of the page do: it never throws; the step and the cursor
    timer whose handles the instance holds are no longer active; afterwards
    [start], [stop], [reset], [updateOptions] and [destroy] itself return
    normally and change nothing; and whatever happens next, timers fired by
    the host included, the instance with the DOM it writes and the log of
    calls to the user callbacks stay as they are and no timer is set. *)
Theorem destroy_from_the_page_is_absorbing
    (page : Page) (depth : nat) (w : World) (p : PartialOptions.t) (acts : list Action) :
  let d := world_of (destroy w) in
  destroy w = Normal tt d /\
  isDestroyed (this d) = true /\
  (forall h, 0 < h ->
             timeoutId (this w) = Some h \/ cursorIntervalId (this w) = Some h ->
             find_timer h d = None) /\
  startIn page depth d = Normal tt d /\
  stop d = Normal tt d /\
  reset d = Normal tt d /\
  updateOptions p d = Normal tt d /\
  destroy d = Normal tt d /\
  this (runIn page depth acts d) = this d /\
  calls (runIn page depth acts d) = calls d /\
  incl (timers (window (runIn page depth acts d))) (timers (window d)).
Proof.
  cbv zeta. pose proof (destroy_torn_down w) as Hdown.
  split; [apply destroy_normal|].
  split; [apply Hdown|].
  split; [intros h Hpos Hid; apply destroy_cancels_known_timers; assumption|].
  split; [apply startIn_destroyed; apply Hdown|].
  split; [apply torn_down_stop; assumption|].
  split; [apply torn_down_reset; assumption|].
  split; [apply torn_down_updateOptions; assumption|].
  split; [apply torn_down_destroy; assumption|].
  apply torn_down_runIn. assumption.
Qed.

Lemma destroy_from_the_page_is_absorbing_witness :
  find_timer 2 (world_of (destroy (construct_now (defaults ["ab"%string])))) = None /\
  find_timer 1 (world_of (destroy (construct_now (defaults ["ab"%string])))) = None.
Proof.
  destruct (destroy_from_the_page_is_absorbing (fun _ _ => [CallStart]) 3
              (construct_now (defaults ["ab"%string])) PartialOptions.empty [])
    as [_ [_ [Hgone _]]].
  assert (timeoutId (this (construct_now (defaults ["ab"%string]))) = Some 2) as H2
      by (vm_compute; reflexivity).
  assert (cursorIntervalId (this (construct_now (defaults ["ab"%string]))) = Some 1) as H1
      by (vm_compute; reflexivity).
  split; [apply Hgone; [lia | left; exact H2] | apply Hgone; [lia | right; exact H1]].
Defined.

(** C8, on the code.  [new TypedText(node, { strings: ["a"], onStringComplete:
    () => t.destroy() })] types "a" and waits for step 2.  That step finds the
    string typed and calls [onStringComplete(0)], whose code calls
    [destroy()]; when [destroy()] has returned the step goes on (lines
    187-188): it leaves the phase Typing and sets the timer 3.  The destroyed
    instance has a step pending and [isRunning()] is [true]; a second
    [destroy()] cancels that step and clears [timeoutId]. *)
Theorem destroy_in_a_callback_is_not_absorbing :
  let o := TypedTextOptions.mk ["a"%string] None None None None None None None None
             false true false in
  let page : Page :=
    fun e _ => match e with StringComplete _ => [CallDestroy] | _ => [] end in
  let w0 := construct_now o in
  let w := runIn page 0 [Fire 2] w0 in
  constructor Node o newWindow = Some w0 /\
  isTyping (this w0) = true /\
  pendingSteps w0 = [2] /\
  calls w = [StringComplete 0] /\
  isDestroyed (this w) = true /\
  isTyping (this w) = false /\
  pendingSteps w = [3] /\
  timeoutId (this w) = Some 3 /\
  isRunning (this w) = true /\
  timeoutId (this (world_of (destroy w))) = None /\
  pendingSteps (world_of (destroy w)) = [].
Proof.
  cbv zeta. split; [apply constructor_now_of; [discriminate | cbn; lra]|].
  repeat split; vm_compute; reflexivity.
Qed.

(** *** The bound on [currentCharIndex], whatever the callbacks call *)

Lemma bind_Normal {A B : Type} (c : JS A) (k : A -> JS B) (w w' : World) (a : A) :
  c w = Normal a w' -> bind c k w = k a w'.
Proof. intros H. unfold bind. rewrite H. reflexivity. Qed.

Lemma bind_Abrupt {A B : Type} (c : JS A) (k : A -> JS B) (w w' : World) :
  c w = Abrupt w' -> bind c k w = Abrupt w'.
Proof. intros H. unfold bind. rewrite H. reflexivity. Qed.

Lemma typeText_with_charIndexInBounds (invoke : Event -> JS unit) :
  (forall e w, charIndexInBounds (this w) ->
               charIndexInBounds (this (world_of (invoke e w)))) ->
  (forall i w, exists w', invoke (StringStart i) w = Normal tt w' /\
                          same_place (this w) (this w')) ->
  forall w, charIndexInBounds (this w) ->
            charIndexInBounds (this (world_of (typeText_with invoke w))).
Proof.
  intros H1 H2 w Hb.
  unfold typeText_with.
  rewrite (bind_Normal get_this _ w w (this w)) by reflexivity.
  destruct (_ || _); [exact Hb|].
  cbv zeta.
  destruct (isTyping (this w)).
  - assert (exists w1,
              (if currentCharIndex (this w) =? 0
               then call_back invoke (Options.onStringStart (options (this w)))
                      (StringStart (currentStringIndex (this w)))
               else ret tt) w = Normal tt w1 /\
              same_place (this w) (this w1)) as [w1 [Heq Hsame]].
    { destruct (_ =? 0); [|exists w; repeat split; reflexivity].
      unfold call_back. destruct (Options.onStringStart _);
        [|exists w; repeat split; reflexivity].
      rewrite (bind_Normal (notify true _) _ w _ tt) by reflexivity.
      match goal with
      | |- exists w1, invoke ?e ?W = _ /\ _ =>
          destruct (H2 (currentStringIndex (this w)) W) as [w1 [Heq Hsame]];
          exists w1; split; [exact Heq | exact Hsame]
      end. }
    rewrite (bind_Normal _ _ w w1 tt Heq). clear Heq.
    destruct Hsame as [Hcsi [Hci Hss]].
    assert (charIndexInBounds (this w1)) as Hb1.
    { unfold charIndexInBounds, getCurrentString in *. rewrite Hci, Hss, Hcsi. exact Hb. }
    rewrite (bind_Normal get_this _ w1 w1 (this w1)) by reflexivity.
    destruct (index (Options.strings (options (this w))) (currentStringIndex (this w)))
      as [s|] eqn:Hs;
      [|rewrite (bind_Abrupt (deref None) _ w1 w1) by reflexivity; exact Hb1].
    rewrite (bind_Normal (deref (Some s)) _ w1 w1 s) by reflexivity.
    destruct (currentCharIndex (this w1) <? string_length s) eqn:Hlt.
    + apply Z.ltb_lt in Hlt. destruct Hb1 as [Hlo _].
      unfold setTimeout, add_timer, update, get_this, bind.
      unfold charIndexInBounds, getCurrentString. cbn.
      rewrite Hss, Hcsi, Hs. cbn [nullish]. lia.
    + unfold bind at 1. unfold call_back.
      destruct (Options.onStringComplete (options (this w1))).
      * rewrite (bind_Normal (notify true _) _ w1 _ tt) by reflexivity.
        match goal with
        | |- context [invoke ?e ?W] =>
            pose proof (H1 e W Hb1) as Hinv; destruct (invoke e W) as [[] w2|w2]
        end; cbn [world_of] in *; exact Hinv.
      * exact Hb1.
  - destruct (currentCharIndex (this w) >? 0) eqn:Hgt.
    + apply Z.gtb_gt in Hgt. destruct Hb as [_ Hhi].
      unfold setTimeout, add_timer, update, get_this, deref, bind.
      unfold charIndexInBounds, getCurrentString in *.
      destruct (index (Options.strings (options (this w))) (currentStringIndex (this w)))
        as [s|] eqn:Hs; cbn; rewrite Hs; cbn [nullish] in *; lia.
    + assert (currentCharIndex (this w) = 0) as Hz by (destruct Hb; lia).
      assert (forall t, currentCharIndex t = 0 -> charIndexInBounds t) as Hzero.
      { intros t Ht. unfold charIndexInBounds. rewrite Ht.
        split; [lia|]. unfold string_length. lia. }
      rewrite (bind_Normal (update _) _ w _ tt) by reflexivity.
      rewrite (bind_Normal get_this _ _ _ _) by reflexivity.
      cbn [this currentStringIndex set_currentStringIndex options].
      destruct (_ >=? _); [destruct (Options.loop (options (this w)))|].
      * unfold setTimeout, add_timer, update, get_this, bind, ret. cbn.
        apply Hzero. exact Hz.
      * unfold bind at 1. unfold bind at 1. unfold call_back.
        destruct (Options.onComplete (options (this w))).
        -- rewrite (bind_Normal (notify true _) _ _ _ tt) by reflexivity.
           match goal with
           | |- context [invoke ?e ?W] =>
               assert (charIndexInBounds (this W)) as HbW by (apply Hzero; exact Hz);
               pose proof (H1 e W HbW) as Hinv; destruct (invoke e W) as [[] w2|w2]
           end; cbn [world_of] in *; exact Hinv.
        -- cbn. apply Hzero. exact Hz.
      * unfold setTimeout, add_timer, update, get_this, bind, ret. cbn.
        apply Hzero. exact Hz.
Qed.

Lemma charIndexInBounds_rewound (t : TypedText) :
  charIndexInBounds (set_isTyping true (set_currentCharIndex 0 (set_currentStringIndex 0 t))).
Proof.
  unfold charIndexInBounds. cbn. split; [lia|]. unfold string_length. lia.
Qed.

Lemma start_with_charIndexInBounds (step : JS unit) (w : World) :
  (forall w', charIndexInBounds (this w') -> charIndexInBounds (this (world_of (step w')))) ->
  charIndexInBounds (this w) ->
  charIndexInBounds (this (world_of (start_with step w))).
Proof.
  intros Hstep Hb. unfold start_with, update, get_this, bind, ret.
  destruct (isDestroyed (this w)); [exact Hb|].
  apply Hstep. apply charIndexInBounds_rewound.
Qed.

Lemma run_call_charIndexInBounds (step : JS unit) (c : Call) (w : World) :
  (forall w', charIndexInBounds (this w') -> charIndexInBounds (this (world_of (step w')))) ->
  keeps_strings_call c ->
  charIndexInBounds (this w) ->
  charIndexInBounds (this (world_of (run_call step c w))).
Proof.
  intros Hstep Hc Hb. destruct c; cbn [run_call keeps_strings_call] in *.
  - apply start_with_charIndexInBounds; assumption.
  - apply stop_charIndexInBounds; assumption.
  - apply reset_charIndexInBounds; assumption.
  - apply destroy_charIndexInBounds; assumption.
  - apply updateOptions_charIndexInBounds; assumption.
Qed.

Lemma run_calls_charIndexInBounds (step : JS unit) (cs : list Call) (w : World) :
  (forall w', charIndexInBounds (this w') -> charIndexInBounds (this (world_of (step w')))) ->
  Forall keeps_strings_call cs ->
  charIndexInBounds (this w) ->
  charIndexInBounds (this (world_of (run_calls step cs w))).
Proof.
  intros Hstep Hcs. revert w. induction Hcs as [|c cs Hc _ IH]; intros w Hb; [exact Hb|].
  cbn [run_calls]. unfold bind.
  pose proof (run_call_charIndexInBounds step c w Hstep Hc Hb) as Hone.
  destruct (run_call step c w) as [[] w'|w']; cbn [world_of] in Hone;
    [apply IH; exact Hone | exact Hone].
Qed.

Lemma same_place_refl (t : TypedText) : same_place t t.
Proof. repeat split. Qed.

Lemma same_place_trans (t1 t2 t3 : TypedText) :
  same_place t1 t2 -> same_place t2 t3 -> same_place t1 t3.
Proof. unfold same_place. intros [H1 [H2 H3]] [H4 [H5 H6]]. repeat split; congruence. Qed.

Lemma run_call_same_place (step : JS unit) (c : Call) (w : World) :
  keeps_place_call c ->
  exists w', run_call step c w = Normal tt w' /\ same_place (this w) (this w').
Proof.
  intros Hc. destruct c; cbn [run_call keeps_place_call] in *; try contradiction.
  - rewrite stop_eq. eexists. split; [reflexivity|].
    destruct (truthy (timeoutId (this w))); repeat split.
  - rewrite destroy_eq, stopCursorBlink_eq, stop_eq. eexists. split; [reflexivity|].
    cbn. destruct (truthy (timeoutId (this w))); cbn;
      destruct (truthy (cursorIntervalId (this w))); repeat split.
  - rewrite updateOptions_eq. eexists. split; [reflexivity|].
    destruct (isDestroyed (this w)); repeat split. cbn. rewrite Hc. reflexivity.
Qed.

Lemma run_calls_same_place (step : JS unit) (cs : list Call) (w : World) :
  Forall keeps_place_call cs ->
  exists w', run_calls step cs w = Normal tt w' /\ same_place (this w) (this w').
Proof.
  intros Hcs. revert w. induction Hcs as [|c cs Hc _ IH]; intros w.
  - exists w. split; [reflexivity | apply same_place_refl].
  - cbn [run_calls]. destruct (run_call_same_place step c w Hc) as [w1 [Heq Hs1]].
    rewrite (bind_Normal _ _ w w1 tt Heq).
    destruct (IH w1) as [w2 [Heq2 Hs2]]. exists w2. split; [exact Heq2|].
    eapply same_place_trans; eassumption.
Qed.

Lemma keeps_place_keeps_strings (c : Call) : keeps_place_call c -> keeps_strings_call c.
Proof. destruct c; cbn; trivial. Qed.

Lemma orderly_keeps_strings (page : Page) (e : Event) (w : World) :
  orderly page -> Forall keeps_strings_call (page e w).
Proof.
  intros Ho. specialize (Ho e w). destruct e; try exact Ho.
  eapply Forall_impl; [|exact Ho]. apply keeps_place_keeps_strings.
Qed.

Lemma typeTextIn_charIndexInBounds (page : Page) (depth : nat) :
  orderly page ->
  forall w, charIndexInBounds (this w) ->
            charIndexInBounds (this (world_of (typeTextIn page depth w))).
Proof.
  intros Ho. induction depth as [|d IH]; cbn [typeTextIn];
    apply typeText_with_charIndexInBounds.
  - intros e w Hb. apply run_calls_charIndexInBounds;
      [intros w' Hb'; exact Hb' | apply orderly_keeps_strings; exact Ho | exact Hb].
  - intros i w. apply run_calls_same_place. exact (Ho (StringStart i) w).
  - intros e w Hb. apply run_calls_charIndexInBounds;
      [exact IH | apply orderly_keeps_strings; exact Ho | exact Hb].
  - intros i w. apply run_calls_same_place. exact (Ho (StringStart i) w).
Qed.

Lemma performIn_charIndexInBounds (page : Page) (depth : nat) (a : Action) (w : World) :
  orderly page ->
  keeps_strings a ->
  charIndexInBounds (this w) -> charIndexInBounds (this (performIn page depth a w)).
Proof.
  intros Ho Ha Hb. destruct a; cbn [performIn keeps_strings] in *.
  - unfold fireIn. destruct (find_timer h w) as [t|]; [|exact Hb].
    destruct (callback t); cbn [run_callbackIn].
    + apply typeTextIn_charIndexInBounds; [exact Ho|]. destruct (repeating t); exact Hb.
    + apply cursorTick_charIndexInBounds. destruct (repeating t); exact Hb.
  - apply start_with_charIndexInBounds; [|exact Hb].
    apply typeTextIn_charIndexInBounds. exact Ho.
  - apply stop_charIndexInBounds; assumption.
  - apply reset_charIndexInBounds; assumption.
  - apply destroy_charIndexInBounds; assumption.
  - apply updateOptions_charIndexInBounds; assumption.
Qed.

Lemma passive_orderly (page : Page) : passive page -> orderly page.
Proof. intros Hp e w. rewrite Hp. destruct e; constructor. Qed.

(** C3, as amended.  From the construction on, through any step callbacks,
    cursor callbacks and public operations, called by the page or by the
    code of its callbacks, among which no [updateOptions] replaces the array
    of strings, and with an [onStringStart] whose code calls neither
    [start()] nor [reset()]: [currentCharIndex] stays between 0 and the
    length of the current string. *)
Theorem charIndex_in_bounds_while_strings_kept
    (page : Page) (depth : nat)
    (element : ElementArg) (o : TypedTextOptions.t) (w0 : World) (acts : list Action) :
  orderly page ->
  constructor element o newWindow = Some w0 ->
  Forall keeps_strings acts ->
  0 <= currentCharIndex (this (runIn page depth acts w0))
    <= string_length (getCurrentString (this (runIn page depth acts w0))).
Proof.
  intros Ho Hnew Hacts. change (charIndexInBounds (this (runIn page depth acts w0))).
  apply constructor_charIndexInBounds in Hnew.
  revert w0 Hnew. induction Hacts as [|a acts Ha _ IH]; intros w0 Hb; [exact Hb|].
  change (runIn page depth (a :: acts) w0)
    with (runIn page depth acts (performIn page depth a w0)).
  apply IH. apply performIn_charIndexInBounds; assumption.
Qed.

Lemma charIndex_in_bounds_while_strings_kept_witness :
  0 <= currentCharIndex
         (this (runIn (fun e _ => match e with
                                  | StringStart _ => []
                                  | StringComplete _ => [CallStop; CallStart]
                                  | Complete => [CallReset]
                                  end) 2
                  [Fire 2; UpdateOptions (only_typeSpeed 10); Fire 3; Start; Fire 2; Reset]
                  (construct_now (defaults ["abc"%string]))))
    <= string_length
         (getCurrentString
            (this (runIn (fun e _ => match e with
                                     | StringStart _ => []
                                     | StringComplete _ => [CallStop; CallStart]
                                     | Complete => [CallReset]
                                     end) 2
                     [Fire 2; UpdateOptions (only_typeSpeed 10); Fire 3; Start; Fire 2; Reset]
                     (construct_now (defaults ["abc"%string]))))).
Proof.
  apply (charIndex_in_bounds_while_strings_kept _ 2 Node (defaults ["abc"%string])).
  - intros e w. destruct e; repeat constructor.
  - apply constructor_now. discriminate.
  - repeat constructor.
Defined.

(** The bound also breaks without [updateOptions] when the code of
    [onStringStart] calls [start()]: on ["a", "bcd"], the step that enters
    "bcd" has read it at line 172; [start()] called by [onStringStart(1)]
    goes back to "a" and types its first character; the step then goes on
    with "bcd" and shows "bc", leaving [currentCharIndex = 2] on "a". *)
Lemma charIndex_bound_broken_by_start_in_a_callback :
  let page : Page :=
    fun e _ => match e with
               | StringStart i => if i =? 1 then [CallStart] else []
               | _ => []
               end in
  let w := runIn page 1 [Fire 2; Fire 3; Fire 4; Fire 5]
             (construct_now (defaults ["a"%string; "bcd"%string])) in
  currentStringIndex (this w) = 0 /\
  getCurrentString (this w) = "a"%string /\
  currentCharIndex (this w) = 2 /\
  textContent (this w) = "bc"%string /\
  pendingSteps w = [6; 7].
Proof. cbv zeta. repeat split; vm_compute; reflexivity. Qed.

(** C7, as stated, fails: on ["a", "bc"], when "bc" is typed and complete,
    [updateOptions({ strings: ["a"] })] leaves the instance backspacing with
    [currentCharIndex = 2] on a string that is no longer there.  The awaited
    step takes one off [currentCharIndex], throws at line 193, leaves the
    text as it is and schedules nothing. *)
Lemma backspacing_step_fails_without_current_string :
  let w := run [Fire 2; Fire 3; Fire 4; Fire 5; Fire 6; Fire 7;
                UpdateOptions (only_strings ["a"%string])]
             (construct_now (defaults ["a"%string; "bc"%string])) in
  isDestroyed (this w) = false /\
  isTyping (this w) = false /\
  currentCharIndex (this w) = 2 /\
  textContent (this w) = "bc"%string /\
  pendingSteps w = [8] /\
  match typeText (world_of (clearTimeout 8 w)) with
  | Abrupt _ => True
  | Normal _ _ => False
  end /\
  currentCharIndex (this (fire 8 w)) = 1 /\
  textContent (this (fire 8 w)) = "bc"%string /\
  pendingSteps (fire 8 w) = [].
Proof.
  cbv zeta.
  do 5 (split; [vm_compute; reflexivity|]).
  split; [vm_compute; exact I|].
  split; [vm_compute; reflexivity|].
  split; vm_compute; reflexivity.
Qed.

(** X8.  When the callbacks of the page call no method of the instance
    and the page neither calls [start()] nor replaces the strings, the text
    span shows exactly the first [currentCharIndex] characters of the
    current string. *)
Theorem text_is_prefix_of_current_string
    (page : Page) (depth : nat)
    (element : ElementArg) (o : TypedTextOptions.t) (w0 : World) (acts : list Action) :
  passive page ->
  constructor element o newWindow = Some w0 ->
  Forall steady acts ->
  textContent (this (runIn page depth acts w0))
  = substring0 (getCurrentString (this (runIn page depth acts w0)))
      (currentCharIndex (this (runIn page depth acts w0))).
Proof.
  intros Hp Hnew Hacts. rewrite runIn_passive by exact Hp.
  apply (shows_prefix_run element o); assumption.
Qed.

Lemma text_is_prefix_of_current_string_witness :
  textContent (this (runIn (fun _ _ => []) 0 [Fire 2; Fire 1; Stop; Fire 3]
                       (construct_now (defaults ["ab"%string]))))
  = substring0
      (getCurrentString
         (this (runIn (fun _ _ => []) 0 [Fire 2; Fire 1; Stop; Fire 3]
                  (construct_now (defaults ["ab"%string])))))
      (currentCharIndex
         (this (runIn (fun _ _ => []) 0 [Fire 2; Fire 1; Stop; Fire 3]
                  (construct_now (defaults ["ab"%string]))))).
Proof.
  apply (text_is_prefix_of_current_string (fun _ _ => []) 0 Node (defaults ["ab"%string])).
  - exact no_call_passive.
  - apply constructor_now. discriminate.
  - repeat constructor.
Defined.

(** The text is no prefix of the current string any more when the code of
    [onStringStart] calls [reset()]: on ["a", "bcd"], the step that enters
    "bcd" goes on after the reset and shows "b" while the current string is
    "a". *)
Lemma text_prefix_broken_by_reset_in_a_callback :
  let page : Page :=
    fun e _ => match e with
               | StringStart i => if i =? 1 then [CallReset] else []
               | _ => []
               end in
  let w := runIn page 0 [Fire 2; Fire 3; Fire 4; Fire 5]
             (construct_now (defaults ["a"%string; "bcd"%string])) in
  getCurrentString (this w) = "a"%string /\
  currentCharIndex (this w) = 1 /\
  textContent (this w) = "b"%string.
Proof. cbv zeta. repeat split; vm_compute; reflexivity. Qed.

(** X21.  When the callbacks of the page call no method of the instance:
    for an instance built without start delay on which [start()] has not
    been called, no timer is active after [destroy()], whatever happens
    next. *)
Theorem destroy_cancels_every_timer
    (page : Page) (depth : nat)
    (element : ElementArg) (o : TypedTextOptions.t) (w0 : World)
    (acts later : list Action) :
  passive page ->
  constructor element o newWindow = Some w0 ->
  ~ (0 < Options.startDelay (Options.resolve o))%R ->
  Forall no_start acts ->
  timers (window (runIn page depth later
                    (world_of (destroy (runIn page depth acts w0))))) = [].
Proof.
  intros Hp Hnew Hsd Hacts. rewrite !runIn_passive by exact Hp.
  apply (destroy_leaves_no_timer_run element o); assumption.
Qed.

Lemma destroy_cancels_every_timer_witness :
  timers (window (runIn (fun _ _ => []) 0 [Fire 3; Fire 1; Start]
                    (world_of (destroy (runIn (fun _ _ => []) 0 [Fire 2; Fire 1; Reset; Fire 3]
                                          (construct_now (defaults ["ab"%string])))))))
  = [].
Proof.
  assert (~ (0 < Options.startDelay (Options.resolve (defaults ["ab"%string])))%R) as Hsd
      by (cbn; lra).
  apply (destroy_cancels_every_timer (fun _ _ => []) 0 Node (defaults ["ab"%string])).
  - exact no_call_passive.
  - apply constructor_now. discriminate.
  - exact Hsd.
  - repeat constructor.
Defined.
